(** * Portfolio-Sorter: extraction, categorization and relocation pipeline

    A shallow embedding of the Python sources
      - [src/categorizer.py]     (keyword categorizer),
      - [src/text_extractor.py]  (dispatch by extension, error wrapping),
      - [src/file_utils.py]      (discovery of the source files,
                                  sub-directory creation, file move),
      - [src/main_sorter.py]     ([process_files] and its per-file loop),
    together with the properties the specification states about them and
    further properties the code shows. *)

From Stdlib Require Import String Ascii NArith DecimalString.
From stdpp Require Import base option list gmap.

Local Open Scope N_scope.

(** ** Python strings

    A Python [str] is a sequence of Unicode code points; a code point is
    modelled as an [N] and a string as a [list N].  String literals of the
    sources are written [u "..."] (all of them are ASCII). *)

Module Str.

Abbreviation str := (list N).

Definition u (s : string) : str :=
  List.map N_of_ascii (list_ascii_of_string s).

(** [str.isspace] on one code point: the code points CPython's
    [_PyUnicode_IsWhitespace] accepts (bidirectional type WS, B or S, or
    category Zs); these are the code points [str.strip()] removes. *)
Definition isspace (c : N) : bool :=
  ((0x09 <=? c) && (c <=? 0x0D)) || ((0x1C <=? c) && (c <=? 0x20))
  || (c =? 0x85) || (c =? 0xA0) || (c =? 0x1680)
  || ((0x2000 <=? c) && (c <=? 0x200A))
  || (c =? 0x2028) || (c =? 0x2029) || (c =? 0x202F) || (c =? 0x205F)
  || (c =? 0x3000).

Fixpoint lstrip (s : str) : str :=
  match s with
  | [] => []
  | c :: s' => if isspace c then lstrip s' else s
  end.

Definition rstrip (s : str) : str := rev (lstrip (rev s)).

(** [s.strip()] *)
Definition strip (s : str) : str := rstrip (lstrip s).

(** Truth value of a string in a condition: [not s] holds of the empty
    string only. *)
Definition truthy (s : str) : bool :=
  match s with [] => false | _ :: _ => true end.

(** Case mapping.  [str.lower()] and [str.upper()] follow the Unicode
    character database; the tables below give it for Basic Latin and the
    Latin-1 Supplement (U+0000..U+00FF) and for the two code points outside
    that range that [upper] produces from it (U+0178, U+039C).  Lower-casing
    maps one code point to one code point there; upper-casing does not:
    U+00DF (sharp s) becomes the two letters "SS". *)
Definition lower_cp (c : N) : N :=
  if (0x41 <=? c) && (c <=? 0x5A) then c + 0x20
  else if (0xC0 <=? c) && (c <=? 0xDE) && negb (c =? 0xD7) then c + 0x20
  else if c =? 0x178 then 0xFF
  else if c =? 0x39C then 0x3BC
  else c.


Definition lower (s : str) : str := List.map lower_cp s.


(** [sep.join(parts)] *)
Fixpoint join (sep : str) (parts : list str) : str :=
  match parts with
  | [] => []
  | [p] => p
  | p :: rest => p ++ sep ++ join sep rest
  end.

(** [s.startswith(p)] *)
Fixpoint startswith (p s : str) : bool :=
  match p, s with
  | [], _ => true
  | _ :: _, [] => false
  | a :: p', b :: s' => (a =? b) && startswith p' s'
  end.

(** [p in s]: the first position of [s] at which [p] starts, scanning from
    the left. *)
Fixpoint contains (p s : str) : bool :=
  startswith p s ||
  match s with
  | [] => false
  | _ :: s' => contains p s'
  end.

(** The specification's "occurs somewhere in". *)
Definition occurs_in (p s : str) : Prop := exists a b, s = a ++ p ++ b.

End Str.

Import Str.

(** ** src/categorizer.py *)

Module Categorizer.

Definition PREDEFINED_CATEGORIES : list str :=
  [ u "Theses & Dissertations";
    u "Coursework & Term Papers";
    u "Certificates & Diplomas";
    u "Tests & Quizzes";
    u "Answer Keys & Solutions";
    u "Presentations";
    u "Formal Documents & Correspondence";
    u "Books & Textbooks";
    u "Learning Materials & Study Guides";
    u "Reports" ].

(** The items of the dict literal of [LLMCategorizer.__init__], in source
    order. *)
Definition category_keywords_items : list (str * list str) :=
  [ (u "Theses & Dissertations", [u "thesis"; u "dissertation"]);
    (u "Coursework & Term Papers",
       [u "coursework"; u "term paper"; u "assignment"; u "essay"]);
    (u "Certificates & Diplomas",
       [u "certificate"; u "diploma"; u "certification"; u "degree"]);
    (u "Tests & Quizzes",
       [u "test"; u "quiz"; u "exam"; u "midterm"; u "final exam"]);
    (u "Answer Keys & Solutions",
       [u "answer key"; u "solution"; u "solutions manual"]);
    (u "Presentations",
       [u "presentation"; u "slides"; u "powerpoint"; u "keynote"]);
    (u "Formal Documents & Correspondence",
       [u "letter"; u "memo"; u "memorandum"; u "contract"; u "agreement";
        u "official document"]);
    (u "Books & Textbooks", [u "book"; u "textbook"; u "manual"; u "e-book"]);
    (u "Learning Materials & Study Guides",
       [u "study guide"; u "notes"; u "handout"; u "worksheet";
        u "learning material"]);
    (u "Reports", [u "report"; u "summary"; u "analysis"; u "findings"]) ].

(** The characters with a special meaning in a Python regular expression.
    A pattern without any of them is a literal: [re.search(p, s)] succeeds
    exactly when [p] occurs in [s]. *)
Definition re_special (c : N) : bool :=
  bool_decide (c ∈ u ".^$*+?{}[]\|()").

(** [re.search(pattern, s)] for a literal pattern (every pattern of the
    keyword table is one, see [keyword_patterns_literal]). *)
Definition re_search (pattern s : str) : bool := contains pattern s.

Record LLMCategorizer := {
  api_key : option str;
  config : option (gmap str str);
  _category_keywords : gmap str (list str)
}.

(** [LLMCategorizer.__init__] *)
Definition LLMCategorizer_init (api_key : option str)
    (config : option (gmap str str)) : LLMCategorizer :=
  {| api_key := api_key;
     config := config;
     _category_keywords := list_to_map category_keywords_items |}.

(** The inner loop [for keyword_pattern in keywords]: [true] when it
    returns from the function, [false] when it falls through. *)
Fixpoint any_keyword_matches (keywords : list str) (lower_text : str) : bool :=
  match keywords with
  | [] => false
  | keyword_pattern :: keywords' =>
      if re_search keyword_pattern lower_text then true
      else any_keyword_matches keywords' lower_text
  end.

(** The outer loop [for category_name in categories]. *)
Fixpoint categorize_loop (self : LLMCategorizer) (categories : list str)
    (lower_text : str) : option str :=
  match categories with
  | [] => None
  | category_name :: categories' =>
      match _category_keywords self !! category_name with
      | Some keywords =>
          if any_keyword_matches keywords lower_text then Some category_name
          else categorize_loop self categories' lower_text
      | None => categorize_loop self categories' lower_text
      end
  end.

(** [LLMCategorizer.categorize_text] *)
Definition categorize_text (self : LLMCategorizer) (text : str)
    (categories : list str) : option str :=
  if negb (truthy text) || negb (truthy (strip text)) then None
  else
    let lower_text := lower text in
    categorize_loop self categories lower_text.

(** One iteration of the outer loop seen as a test on the category: it
    has a keyword rule and one of its patterns matches. *)
Definition category_matches (self : LLMCategorizer) (lower_text : str)
    (category_name : str) : bool :=
  match _category_keywords self !! category_name with
  | Some keywords => any_keyword_matches keywords lower_text
  | None => false
  end.


Definition is_lower_letter (c : N) : bool := (0x61 <=? c) && (c <=? 0x7A).

(** What is checked of every pattern of the keyword table: it is a literal
    (no regular-expression operator), it is already in lower case, and it
    contains a letter. *)
Definition pattern_ok (p : str) : bool :=
  forallb (fun c => negb (re_special c)) p
  && forallb (fun c => lower_cp c =? c) p
  && existsb is_lower_letter p.

(** The categorizer the orchestrator builds: [LLMCategorizer()]. *)
Definition default_categorizer : LLMCategorizer :=
  LLMCategorizer_init None None.

End Categorizer.

Import Categorizer.

(** ** Exceptions, the world, and the monad of effects *)

Module Py.

(** The exception classes the sources distinguish, with Python's class
    hierarchy: [FileNotFoundError], [FileExistsError], [NotADirectoryError],
    [IsADirectoryError] derive from [OSError]; [OSError] and
    [TextExtractionError] derive from [Exception]; [KeyboardInterrupt]
    derives from [BaseException] only.  [OtherOSError] stands for the other
    subclasses of [OSError] ([PermissionError], [shutil.Error], ...),
    [OtherException] for the other subclasses of [Exception]. *)
Inductive exn_class :=
  | TextExtractionError
  | FileNotFoundError
  | FileExistsError
  | NotADirectoryError
  | IsADirectoryError
  | OtherOSError
  | OtherException
  | KeyboardInterrupt.

(** An exception object: its class, [str(e)], and [e.__context__] (the
    exception that was being handled when it was raised). *)
#[warnings="-register-all"]
Inductive exn := Exn (cls : exn_class) (msg : str) (context : option exn).

Definition exn_cls (e : exn) : exn_class := let 'Exn c _ _ := e in c.
Definition exn_str (e : exn) : str := let 'Exn _ m _ := e in m.
Definition exn_context (e : exn) : option exn := let 'Exn _ _ c := e in c.

(** [isinstance(e, OSError)] *)
Definition is_OSError (e : exn) : bool :=
  match exn_cls e with
  | FileNotFoundError | FileExistsError | NotADirectoryError
  | IsADirectoryError | OtherOSError => true
  | _ => false
  end.

(** [isinstance(e, FileNotFoundError)] *)
Definition is_FileNotFoundError (e : exn) : bool :=
  match exn_cls e with FileNotFoundError => true | _ => false end.

(** [isinstance(e, TextExtractionError)] *)
Definition is_TextExtractionError (e : exn) : bool :=
  match exn_cls e with TextExtractionError => true | _ => false end.

(** [isinstance(e, Exception)] *)
Definition is_Exception (e : exn) : bool :=
  match exn_cls e with KeyboardInterrupt => false | _ => true end.

Inductive result (A : Type) :=
  | Ok (a : A)
  | Raise (e : exn).
Arguments Ok {A} a.
Arguments Raise {A} e.

(** A node of the file system: a regular file with its bytes, or a
    directory. *)
Inductive node := File (content : list N) | Dir.

Inductive log_level := INFO | WARNING | ERROR.

(** The state the program acts on.  [fs] maps the location of a node (the
    names from the root directory down to it) to the node; the root
    directory itself, location [[]], always exists.  There are no symbolic
    links.  [cwd] is the working directory of the process; [stdout] the lines
    printed; [log] the records given to the logger; [reads] the paths the
    document libraries opened for reading. *)
Record world := {
  fs : gmap (list str) node;
  cwd : list str;
  stdout : list str;
  log : list (log_level * str);
  reads : list str
}.

Definition M (A : Type) : Type := world -> result A * world.

Definition ret {A} (a : A) : M A := fun w => (Ok a, w).
Definition raise {A} (e : exn) : M A := fun w => (Raise e, w).
Definition bind {A B} (m : M A) (k : A -> M B) : M B :=
  fun w => match m w with
           | (Ok a, w') => k a w'
           | (Raise e, w') => (Raise e, w')
           end.
(** [try: body except ... as e: handler e]; the handler re-raises what no
    [except] clause matches. *)
Definition try_except {A} (body : M A) (handler : exn -> M A) : M A :=
  fun w => match body w with
           | (Ok a, w') => (Ok a, w')
           | (Raise e, w') => handler e w'
           end.
(** The value of a pure computation that may fail. *)
Definition lift {A} (r : result A) : M A := fun w => (r, w).

Definition set_fs (f : gmap (list str) node) (w : world) : world :=
  {| fs := f; cwd := cwd w; stdout := stdout w; log := log w; reads := reads w |}.

(** [print(line)] *)
Definition print (line : str) : M unit :=
  fun w => (Ok tt, {| fs := fs w; cwd := cwd w; stdout := stdout w ++ [line];
                      log := log w; reads := reads w |}).

(** [logger.info(msg)], [logger.warning(msg)], [logger.error(msg)] *)
Definition logger (lvl : log_level) (msg : str) : M unit :=
  fun w => (Ok tt, {| fs := fs w; cwd := cwd w; stdout := stdout w;
                      log := log w ++ [(lvl, msg)]; reads := reads w |}).

Definition record_read (path : str) : M unit :=
  fun w => (Ok tt, {| fs := fs w; cwd := cwd w; stdout := stdout w;
                      log := log w; reads := reads w ++ [path] |}).

End Py.

Import Py.

Notation "'let!' x := m 'in' k" := (bind m (fun x => k))
  (at level 10, x name, m at level 100, k at level 200).
Notation "'do!' m 'in' k" := (bind m (fun _ => k))
  (at level 10, m at level 100, k at level 200).

(** ** Properties of effectful computations *)

Module Effects.

(** Every exception a computation raises is an [Exception]. *)
Definition only_exceptions {A} (m : M A) : Prop :=
  forall w e w', m w = (Raise e, w') -> is_Exception e = true.

(** The computation returns normally from every state. *)
Definition returns {A} (m : M A) : Prop :=
  forall w, exists a w', m w = (Ok a, w').

(** The computation leaves the file system as it is. *)
Definition keeps_fs {A} (m : M A) : Prop :=
  forall w r w', m w = (r, w') -> fs w' = fs w /\ cwd w' = cwd w.

(** Two states with the same file system and working directory. *)
Definition same_files (w1 w2 : world) : Prop :=
  fs w1 = fs w2 /\ cwd w1 = cwd w2.

(** The computation depends on the state through the file system only. *)
Definition respects_files {A} (m : M A) : Prop :=
  forall w1 w2, same_files w1 w2 ->
    (m w1).1 = (m w2).1 /\ same_files (m w1).2 (m w2).2.

(** The computation only adds nodes to the file system. *)
Definition grows {A} (m : M A) : Prop :=
  forall w r w', m w = (r, w') -> fs w ⊆ fs w' /\ cwd w' = cwd w.

(** When the computation raises, the file system is as before. *)
Definition fails_in_place {A} (m : M A) : Prop :=
  forall w e w', m w = (Raise e, w') -> fs w' = fs w /\ cwd w' = cwd w.

(** Every run of the computation takes a state to one that [R] relates to
    it. *)
Definition steps (R : world -> world -> Prop) {A} (m : M A) : Prop :=
  forall w r w', m w = (r, w') -> R w w'.

(** Nothing was printed, logged or opened between the two states. *)
Definition silent (w w' : world) : Prop :=
  stdout w' = stdout w /\ log w' = log w /\ reads w' = reads w.

(** Between the two states directories were made and nothing else: every
    node is still there, and every new node is a directory. *)
Definition dirs_added (w w' : world) : Prop :=
  fs w ⊆ fs w' /\ cwd w' = cwd w
  /\ forall k n, fs w' !! k = Some n -> fs w !! k = None -> n = Dir.

(** The property [P] of states, when it holds before, holds after. *)
Definition kept (P : world -> Prop) (w w' : world) : Prop := P w -> P w'.

End Effects.

Import Effects.

(** ** The operating system: paths and the file system (POSIX) *)

Module OS.

Definition SEP : N := 0x2F.   (* "/" *)
Definition DOT : N := 0x2E.   (* "." *)
Definition NL : str := [0x0A].
Definition QUOTE : str := [0x27].

(** [s.split(sep)] for a one-character separator. *)
Fixpoint split (sep : N) (s : str) : list str :=
  match s with
  | [] => [[]]
  | c :: s' =>
      if c =? sep then [] :: split sep s'
      else match split sep s' with
           | h :: t => (c :: h) :: t
           | [] => [[c]]
           end
  end.

(** [s.rpartition(sep)]: the parts before and after the last occurrence
    of [sep], [None] when there is none. *)
Fixpoint rpartition (sep : N) (s : str) : option (str * str) :=
  match s with
  | [] => None
  | c :: s' =>
      match rpartition sep s' with
      | Some (a, b) => Some (c :: a, b)
      | None => if c =? sep then Some ([], s') else None
      end
  end.

(** [os.path.basename] *)
Definition basename (p : str) : str :=
  match rpartition SEP p with
  | Some (_, b) => b
  | None => p
  end.

(** [os.path.join(a, b)] *)
Definition join (a b : str) : str :=
  if startswith [SEP] b then b
  else if negb (truthy a) || bool_decide (last a = Some SEP) then a ++ b
  else a ++ [SEP] ++ b.

(** [os.path.splitext] on a file name without directory part: the
    extension starts at the last dot, unless only dots precede it. *)
Definition splitext_name (name : str) : str * str :=
  match rpartition DOT name with
  | Some (pre, rest) =>
      if forallb (N.eqb DOT) pre then (name, []) else (pre, DOT :: rest)
  | None => (name, [])
  end.

(** [os.path.splitext] *)
Definition splitext (p : str) : str * str :=
  match rpartition SEP p with
  | Some (head, name) =>
      let '(r, e) := splitext_name name in (head ++ [SEP] ++ r, e)
  | None => splitext_name p
  end.

Inductive errno := ENOENT | ENOTDIR | EEXIST | EISDIR.

(** The [OSError] raised for an error number on a path. *)
Definition os_error (e : errno) (path : str) : exn :=
  match e with
  | ENOENT =>
      Exn FileNotFoundError
        (u "[Errno 2] No such file or directory: '" ++ path ++ QUOTE) None
  | ENOTDIR =>
      Exn NotADirectoryError
        (u "[Errno 20] Not a directory: '" ++ path ++ QUOTE) None
  | EEXIST =>
      Exn FileExistsError (u "[Errno 17] File exists: '" ++ path ++ QUOTE) None
  | EISDIR =>
      Exn IsADirectoryError
        (u "[Errno 21] Is a directory: '" ++ path ++ QUOTE) None
  end.

Definition node_at (f : gmap (list str) node) (k : list str) : option node :=
  match k with
  | [] => Some Dir
  | _ => f !! k
  end.

(** One step of path resolution: from the directory at [cur], follow the
    component [c].  An empty component (doubled or trailing slash) and "."
    stay in place, ".." goes to the parent. *)
Definition step (f : gmap (list str) node) (cur : list str) (c : str)
    : errno + list str :=
  match node_at f cur with
  | None => inl ENOENT
  | Some (File _) => inl ENOTDIR
  | Some Dir =>
      if bool_decide (c = []) || bool_decide (c = [DOT]) then inr cur
      else if bool_decide (c = [DOT; DOT]) then inr (removelast cur)
      else inr (cur ++ [c])
  end.

Fixpoint walk (f : gmap (list str) node) (cur : list str) (comps : list str)
    : errno + list str :=
  match comps with
  | [] => inr cur
  | c :: comps' =>
      match step f cur c with
      | inl e => inl e
      | inr cur' => walk f cur' comps'
      end
  end.

(** The location a path names: every directory on the way must exist; the
    last component itself need not. *)
Definition resolve (w : world) (p : str) : errno + list str :=
  match p with
  | [] => inl ENOENT
  | _ => walk (fs w) (if startswith [SEP] p then [] else cwd w) (split SEP p)
  end.

(** [os.stat]: the node a path names. *)
Definition stat (w : world) (p : str) : errno + node :=
  match resolve w p with
  | inl e => inl e
  | inr k => match node_at (fs w) k with
             | Some n => inr n
             | None => inl ENOENT
             end
  end.

(** [os.path.isfile], [os.path.isdir], [os.path.exists] *)
Definition isfile (p : str) (w : world) : bool :=
  match stat w p with inr (File _) => true | _ => false end.
Definition isdir (p : str) (w : world) : bool :=
  match stat w p with inr Dir => true | _ => false end.
Definition exists_ (p : str) (w : world) : bool :=
  match stat w p with inr _ => true | _ => false end.

(** [os.mkdir(p)], for a path without trailing slash (the paths this
    program creates are rendered by [pathlib], which never writes one). *)
Definition mkdir (p : str) : M unit := fun w =>
  match resolve w p with
  | inl e => (Raise (os_error e p), w)
  | inr k =>
      match node_at (fs w) k with
      | Some _ => (Raise (os_error EEXIST p), w)
      | None => (Ok tt, set_fs (<[k := Dir]> (fs w)) w)
      end
  end.

(** [os.rename(src, dst)] of a regular file: the destination is replaced
    when it is a regular file.  Directories are never renamed by this
    program (the caller has checked [os.path.isfile(src)]); for a directory
    source the model raises. *)
Definition rename (src dst : str) : M unit := fun w =>
  match resolve w src with
  | inl e => (Raise (os_error e src), w)
  | inr ksrc =>
      match node_at (fs w) ksrc with
      | None => (Raise (os_error ENOENT src), w)
      | Some Dir => (Raise (os_error EISDIR src), w)
      | Some (File content) =>
          match resolve w dst with
          | inl e => (Raise (os_error e dst), w)
          | inr kdst =>
              match node_at (fs w) kdst with
              | Some Dir => (Raise (os_error EISDIR dst), w)
              | _ => (Ok tt,
                      set_fs (<[kdst := File content]> (delete ksrc (fs w))) w)
              end
          end
      end
  end.

(** [shutil.move(src, dst)] for a regular file [src]: into [dst] when [dst]
    is an existing directory (refusing to overwrite there), onto [dst]
    otherwise.  On a single file system [os.rename] does the move; when it
    fails, the copying fall-back of [shutil.move] fails on the same
    path. *)
Definition shutil_move (src dst : str) : M str := fun w =>
  if isdir dst w then
    let real_dst := join dst (basename src) in
    if exists_ real_dst w then
      (Raise (Exn OtherOSError
                (u "Destination path '" ++ real_dst ++ u "' already exists")
                None), w)
    else (do! rename src real_dst in ret real_dst) w
  else (do! rename src dst in ret dst) w.

(** [f'] keeps every directory of [f]. *)
Definition keeps_dirs (f f' : gmap (list str) node) : Prop :=
  forall k, OS.node_at f k = Some Dir -> OS.node_at f' k = Some Dir.

(** [open(p, "rb").read()], as the document libraries do it. *)
Definition read_file (p : str) : M (list N) := fun w =>
  match stat w p with
  | inl e => (Raise (os_error e p), w)
  | inr Dir => (Raise (os_error EISDIR p), w)
  | inr (File content) => (do! record_read p in ret content) w
  end.

(** *** Directories: listing, walking, creating with parents *)

(** A name as a directory holds it: not empty, not "." or "..", without
    "/". *)
Definition filename (name : str) : Prop :=
  name <> [] /\ name <> [DOT] /\ name <> [DOT; DOT] /\ SEP ∉ name.

(** Every location of the file system is made of such names. *)
Definition proper (f : gmap (list str) node) : Prop :=
  map_Forall (fun k _ => Forall filename k) f.

(** The file system is a tree: the parent of every node is a directory. *)
Definition tree (f : gmap (list str) node) : Prop :=
  map_Forall (fun k _ => node_at f (removelast k) = Some Dir) f.

(** The entries of the directory at location [k]: the nodes one name below
    it, with their names. *)
Definition children (f : gmap (list str) node) (k : list str)
    : list (str * node) :=
  omap (fun kn : list str * node =>
          match last kn.1 with
          | Some name =>
              if bool_decide (kn.1 = k ++ [name]) then Some (name, kn.2)
              else None
          | None => None
          end) (map_to_list f).

(** [os.scandir] yields the entries of a directory in the order the file
    system keeps them, which is not specified: a [listing] is any choice of
    that order. *)
Record listing := {
  entries : gmap (list str) node -> list str -> list (str * node);
  entries_children : forall f k, entries f k ≡ₚ children f k
}.

(** The listing in the order of the map. *)
Definition map_order : listing :=
  {| entries := children;
     entries_children := fun f k => reflexivity (children f k) |}.

(** [os.scandir(p)]: the entries of the directory [p] names. *)
Definition scandir (order : listing) (w : world) (p : str)
    : errno + list (str * node) :=
  match resolve w p with
  | inl e => inl e
  | inr k =>
      match node_at (fs w) k with
      | Some Dir => inr (entries order (fs w) k)
      | Some (File _) => inl ENOTDIR
      | None => inl ENOENT
      end
  end.

(** [entry.is_dir()] *)
Definition entry_is_dir (entry : str * node) : bool :=
  match entry.2 with Dir => true | File _ => false end.

(** [os.walk(top)] (top-down, [onerror=None]): the triples
    [(dirpath, dirnames, filenames)] it yields, a directory before its
    sub-directories; a directory that cannot be listed yields nothing.
    [depth] bounds the nesting of the recursion. *)
Fixpoint os_walk_from (depth : nat) (order : listing) (w : world) (top : str)
    : list (str * list str * list str) :=
  match depth with
  | 0%nat => []
  | S depth' =>
      match scandir order w top with
      | inl _ => []
      | inr scandir_it =>
          let dirs := (List.filter entry_is_dir scandir_it).*1 in
          let nondirs :=
            (List.filter (fun entry => negb (entry_is_dir entry)) scandir_it).*1 in
          (top, dirs, nondirs)
          :: List.flat_map
               (fun dirname => os_walk_from depth' order w (join top dirname)) dirs
      end
  end.

(** The length of the longest location: no directory lies deeper. *)
Definition height (f : gmap (list str) node) : nat :=
  max_list (length <$> (map_to_list f).*1).

(** [os.walk(top)]; the file system is not changed while the program
    consumes the generator, so that the triples are those of the state in
    which the walk starts.  The depth given is enough for every directory
    (see [os_walk_depth]). *)
Definition os_walk (order : listing) (w : world) (top : str)
    : list (str * list str * list str) :=
  os_walk_from (S (height (fs w))) order w top.

(** [s.lstrip("/")], [s.rstrip("/")] *)
Fixpoint lstrip_sep (s : str) : str :=
  match s with
  | [] => []
  | c :: s' => if c =? SEP then lstrip_sep s' else s
  end.

Definition rstrip_sep (s : str) : str := rev (lstrip_sep (rev s)).

(** [os.path.split]: the head keeps its trailing slashes only when it is
    made of slashes. *)
Definition path_split (p : str) : str * str :=
  match rpartition SEP p with
  | Some (before, tail) =>
      let head := before ++ [SEP] in
      (if negb (forallb (fun c => c =? SEP) head) then rstrip_sep head
       else head,
       tail)
  | None => ([], p)
  end.

(** [os.mkdir(p)] for any path: slashes after the name of the directory to
    be created are allowed. *)
Definition mkdir_path (p : str) : M unit := fun w =>
  match resolve w (if forallb (fun c => c =? SEP) p then p else rstrip_sep p)
  with
  | inl e => (Raise (os_error e p), w)
  | inr k =>
      match node_at (fs w) k with
      | Some _ => (Raise (os_error EEXIST p), w)
      | None => (Ok tt, set_fs (<[k := Dir]> (fs w)) w)
      end
  end.

(** [isinstance(e, FileExistsError)] *)
Definition is_FileExistsError (e : exn) : bool :=
  match exn_cls e with FileExistsError => true | _ => false end.

(** [os.makedirs(name, exist_ok=exist_ok)]: the head of the path is made
    first when it does not exist, then the directory itself.  A recursive
    call is on a shorter path, so that [depth] above the length of [name] is
    never used up (see [makedirs_depth]). *)
Fixpoint makedirs_from (depth : nat) (name : str) (exist_ok : bool) : M unit :=
  match depth with
  | 0%nat =>
      raise (Exn OtherException (u "maximum recursion depth exceeded") None)
  | S depth' =>
      let '(head, tail) := path_split name in
      let '(head, tail) :=
        if negb (truthy tail) then path_split head else (head, tail) in
      let! made :=
        (fun w =>
           if truthy head && truthy tail && negb (exists_ head w) then
             (do! try_except (makedirs_from depth' head exist_ok)
                    (fun e => if is_FileExistsError e then ret tt else raise e) in
              ret (bool_decide (tail = [DOT]))) w
           else ret false w) in
      if made : bool then ret tt
      else
        try_except (mkdir_path name)
          (fun e =>
             if is_OSError e then
               fun w => if negb exist_ok || negb (isdir name w) then raise e w
                        else ret tt w
             else raise e)
  end.

Definition makedirs (name : str) (exist_ok : bool) : M unit :=
  makedirs_from (S (length name)) name exist_ok.

End OS.

(** ** pathlib *)

Module Pathlib.

(** A [PurePosixPath]: the root ("", "/" or "//") and the components. *)
Record Path := { root : str; tail : list str }.

(** The components [Path(s)] keeps: not the empty ones, not ".". *)
Definition keep (x : str) : bool :=
  negb (bool_decide (x = []) || bool_decide (x = [OS.DOT])).

(** [Path(s)]: empty components and "." are dropped, ".." is kept. *)
Definition Path_of_str (s : str) : Path :=
  {| root :=
       if startswith [OS.SEP; OS.SEP] s
          && negb (startswith [OS.SEP; OS.SEP; OS.SEP] s)
       then [OS.SEP; OS.SEP]
       else if startswith [OS.SEP] s then [OS.SEP] else [];
     tail := List.filter keep (OS.split OS.SEP s) |}.

(** A component as [pathlib] keeps it: not empty, not ".", without "/". *)
Definition plain (c : str) : Prop := c <> [] /\ c <> [OS.DOT] /\ OS.SEP ∉ c.

(** A path in the form [Path(...)] builds. *)
Definition normal (p : Path) : Prop :=
  (root p = [] \/ root p = [OS.SEP] \/ root p = [OS.SEP; OS.SEP])
  /\ Forall plain (tail p).

(** [str(p)] *)
Definition Path_str (p : Path) : str :=
  match root p, tail p with
  | [], [] => [OS.DOT]
  | r, t => r ++ join [OS.SEP] t
  end.

(** [p / key] *)
Definition truediv (p : Path) (key : str) : Path :=
  if startswith [OS.SEP] key then Path_of_str key
  else {| root := root p; tail := tail p ++ tail (Path_of_str key) |}.

(** [p.is_dir()] *)
Definition is_dir (p : Path) (w : world) : bool := OS.isdir (Path_str p) w.

(** [p.mkdir(parents=False, exist_ok=True)] *)
Definition mkdir_noparents (self : Path) : M unit :=
  try_except (OS.mkdir (Path_str self))
    (fun e =>
       if is_FileNotFoundError e then raise e
       else if is_OSError e then
         fun w => if negb (is_dir self w) then raise e w else ret tt w
       else raise e).

(** [p.mkdir(parents=True, exist_ok=True)], by recursion on the components
    of [p] from the last one: [rtail] is [reversed(p.parts)], so that the
    parent of the path has components [tl rtail], and [p.parent == p] when
    there is none. *)
Fixpoint mkdir_parents (root : str) (rtail : list str) : M unit :=
  let self := {| root := root; tail := rev rtail |} in
  try_except (OS.mkdir (Path_str self))
    (fun e =>
       if is_FileNotFoundError e then
         match rtail with
         | [] => raise e
         | _ :: rparent =>
             do! mkdir_parents root rparent in
             mkdir_noparents self
         end
       else if is_OSError e then
         fun w => if negb (is_dir self w) then raise e w else ret tt w
       else raise e).

Definition Path_mkdir (self : Path) : M unit :=
  mkdir_parents (root self) (rev (tail self)).

(** The state in which a directory has been ensured: [os.mkdir] refuses
    with an error other than [FileNotFoundError], and the path is a
    directory. *)
Definition settled (p : str) (w : world) : Prop :=
  exists e, OS.mkdir p w = (Raise e, w) /\ is_FileNotFoundError e = false
            /\ is_OSError e = true /\ OS.isdir p w = true.

End Pathlib.

(** ** src/file_utils.py *)

Module FileUtils.

Import Pathlib.

(** The body of the inner loop of [get_source_files], for one [file] of the
    directory [root]. *)
Definition keep_source_file (excluded_extensions_lower : list str) (root : str)
    (source_files : list str) (file : str) : list str :=
  let file_extension := lower (OS.splitext file).2 in
  if negb (bool_decide (file_extension ∈ excluded_extensions_lower))
  then source_files ++ [OS.join root file]
  else source_files.

(** [get_source_files]; [order] is the order in which directories list their
    entries. *)
Definition get_source_files (order : OS.listing) (source_dir : str)
    (excluded_extensions : list str) : M (list str) :=
  fun w =>
  if negb (OS.isdir source_dir w) then
    raise (Exn FileNotFoundError
             (u "Source directory '" ++ source_dir ++ u "' not found.") None) w
  else
    let source_files := [] in
    let excluded_extensions_lower := List.map lower excluded_extensions in
    let source_files :=
      foldl (fun source_files (yielded : str * list str * list str) =>
               let '(root, _, files) := yielded in
               foldl (keep_source_file excluded_extensions_lower root)
                 source_files files)
        source_files (OS.os_walk order w source_dir) in
    ret source_files w.

(** [create_target_subdir] *)
Definition create_target_subdir (target_dir subdir_name : str) : M str :=
  let subdir_path := truediv (Path_of_str target_dir) subdir_name in
  do! try_except (Path_mkdir subdir_path)
        (fun e =>
           if is_OSError e then
             do! print (u "Error creating directory " ++ Path_str subdir_path
                        ++ u ": " ++ exn_str e) in
             raise e
           else raise e) in
  ret (Path_str subdir_path).

(** [move_file_to_directory] *)
Definition move_file_to_directory (source_file_path target_dir_path : str)
    : M unit :=
  fun w =>
  if negb (OS.isfile source_file_path w) then
    raise (Exn FileNotFoundError
             (u "Source file '" ++ source_file_path ++ u "' not found.") None) w
  else
    (do! (fun w =>
            if negb (OS.isdir target_dir_path w) then
              try_except
                (do! Path_mkdir (Path_of_str target_dir_path) in
                 print (u "Target directory '" ++ target_dir_path
                        ++ u "' created."))
                (fun e =>
                   if is_OSError e then
                     raise (Exn OtherOSError
                              (u "Target directory '" ++ target_dir_path
                               ++ u "' does not exist and could not be created: "
                               ++ exn_str e) (Some e))
                   else raise e) w
            else ret tt w) in
     let base_filename := OS.basename source_file_path in
     let destination_path := OS.join target_dir_path base_filename in
     try_except
       (let! _ := OS.shutil_move source_file_path destination_path in ret tt)
       (fun e =>
          if is_Exception e then
            do! print (u "Error moving file '" ++ source_file_path ++ u "' to '"
                       ++ destination_path ++ u "': " ++ exn_str e) in
            raise e
          else raise e)) w.

End FileUtils.

(** ** src/text_extractor.py *)

Module TextExtractor.

(** The document libraries ([docx], [pypdf], [openpyxl], [pptx]) are outside
    the repository: each is a function from the bytes of a file to what the
    program reads from the parsed document, or to the exception the library
    raises.
    - [Document]: the texts of [doc.paragraphs];
    - [PdfReader]: for each page of [reader.pages], the outcome of
      [page.extract_text()] (a string, [None], or an exception);
    - [load_workbook]: the sheets with their names, each sheet the rows of
      [iter_rows()], each cell its [value] ([None] for an empty cell);
      [py_str] is [str(cell.value)];
    - [Presentation]: for each slide the shapes, a shape being its [text]
      when it has that attribute. *)
Record libraries := {
  value : Type;
  py_str : value -> str;
  Document : list N -> result (list str);
  PdfReader : list N -> result (list (result (option str)));
  load_workbook : list N -> result (list (str * list (list (option value))));
  Presentation : list N -> result (list (list (option str)))
}.

Definition DOC_EXTENSIONS : list str := [u ".doc"; u ".docx"].
Definition PDF_EXTENSIONS : list str := [u ".pdf"].
Definition EXCEL_EXTENSIONS : list str := [u ".xls"; u ".xlsx"].
Definition POWERPOINT_EXTENSIONS : list str := [u ".ppt"; u ".pptx"].
Definition ALL_SUPPORTED_EXTENSIONS : list str :=
  DOC_EXTENSIONS ++ PDF_EXTENSIONS ++ EXCEL_EXTENSIONS ++ POWERPOINT_EXTENSIONS.

(** [x in extensions] *)
Definition ext_in (x : str) (extensions : list str) : bool :=
  bool_decide (x ∈ extensions).

(** [except Exception as e: raise TextExtractionError(msg e)]: the new
    exception keeps [e] as its context; what is not an [Exception] passes. *)
Definition wrap_extraction_error {A} (message : exn -> str) (e : exn) : M A :=
  if is_Exception e then raise (Exn TextExtractionError (message e) (Some e))
  else raise e.

(** [e] is a [TextExtractionError] raised while handling [cause], and its
    message shows the path and [str(cause)]. *)
Definition wraps (file_path : str) (e cause : exn) : Prop :=
  exn_cls e = TextExtractionError /\ exn_context e = Some cause
  /\ occurs_in file_path (exn_str e) /\ occurs_in (exn_str cause) (exn_str e).

Section Helpers.

Context (L : libraries).

(** [_extract_text_from_docx] *)
Definition _extract_text_from_docx (file_path : str) : M str :=
  try_except
    (let! bytes := OS.read_file file_path in
     let! paragraphs := lift (Document L bytes) in
     let full_text :=
       foldl (fun full_text para => full_text ++ [para]) [] paragraphs in
     ret (join OS.NL full_text))
    (wrap_extraction_error (fun e =>
       u "Failed to extract text from DOCX '" ++ file_path ++ u "': "
       ++ exn_str e)).

(** [page.extract_text() or ""] *)
Definition text_or_empty (t : option str) : str :=
  match t with
  | Some s => if truthy s then s else []
  | None => []
  end.

(** The loop [for page in reader.pages] of [_extract_text_from_pdf]; it
    stops at the first page whose extraction raises. *)
Fixpoint pdf_pages_loop (pages : list (result (option str)))
    (full_text : list str) : result (list str) :=
  match pages with
  | [] => Ok full_text
  | Ok t :: pages' => pdf_pages_loop pages' (full_text ++ [text_or_empty t])
  | Raise e :: _ => Raise e
  end.

(** [_extract_text_from_pdf] *)
Definition _extract_text_from_pdf (file_path : str) : M str :=
  try_except
    (let! bytes := OS.read_file file_path in
     let! pages := lift (PdfReader L bytes) in
     let! full_text := lift (pdf_pages_loop pages []) in
     ret (join OS.NL full_text))
    (wrap_extraction_error (fun e =>
       u "Failed to extract text from PDF '" ++ file_path ++ u "': "
       ++ exn_str e)).

(** [workbook[sheet_name]]: the first sheet with that title. *)
Definition workbook_getitem {V}
    (workbook : list (str * list (list (option V)))) (sheet_name : str)
    : result (list (list (option V))) :=
  match List.find (fun s => bool_decide (s.1 = sheet_name)) workbook with
  | Some s => Ok s.2
  | None =>
      Raise (Exn OtherException
               (u "'Worksheet " ++ sheet_name ++ u " does not exist.'") None)
  end.

(** The loops [for cell in row] and [for row in sheet.iter_rows()] of
    [_extract_text_from_excel]. *)
Definition excel_row_loop (row : list (option (value L))) (full_text : list str)
    : list str :=
  foldl (fun full_text cell =>
           match cell with
           | Some v => full_text ++ [py_str L v]
           | None => full_text
           end) full_text row.

Definition excel_sheet_loop (sheet : list (list (option (value L))))
    (full_text : list str) : list str :=
  foldl (fun full_text row => excel_row_loop row full_text) full_text sheet.

(** The loop [for sheet_name in workbook.sheetnames]. *)
Fixpoint excel_workbook_loop
    (workbook : list (str * list (list (option (value L)))))
    (sheetnames : list str) (full_text : list str) : result (list str) :=
  match sheetnames with
  | [] => Ok full_text
  | sheet_name :: sheetnames' =>
      match workbook_getitem workbook sheet_name with
      | Ok sheet =>
          excel_workbook_loop workbook sheetnames'
            (excel_sheet_loop sheet full_text)
      | Raise e => Raise e
      end
  end.

(** [_extract_text_from_excel] *)
Definition _extract_text_from_excel (file_path : str) : M str :=
  try_except
    (let! bytes := OS.read_file file_path in
     let! workbook := lift (load_workbook L bytes) in
     let! full_text :=
       lift (excel_workbook_loop workbook (List.map fst workbook) []) in
     ret (join OS.NL full_text))
    (wrap_extraction_error (fun e =>
       u "Failed to extract text from Excel '" ++ file_path ++ u "': "
       ++ exn_str e)).

(** [_extract_text_from_pptx] *)
Definition _extract_text_from_pptx (file_path : str) : M str :=
  try_except
    (let! bytes := OS.read_file file_path in
     let! slides := lift (Presentation L bytes) in
     let full_text :=
       foldl (fun full_text slide =>
                foldl (fun full_text shape =>
                         match shape with
                         | Some text => full_text ++ [text]
                         | None => full_text
                         end) full_text slide) [] slides in
     ret (join OS.NL full_text))
    (wrap_extraction_error (fun e =>
       u "Failed to extract text from PowerPoint '" ++ file_path ++ u "': "
       ++ exn_str e)).

(** [os.path.splitext(file_path)[1].lower()] *)
Definition file_extension_of (file_path : str) : str :=
  lower (OS.splitext file_path).2.

(** The body of the [try] statement of [extract_text]: the dispatch on the
    lowercased extension. *)
Definition extract_text_dispatch (file_path file_extension : str)
    : M (option str) :=
  if ext_in file_extension DOC_EXTENSIONS then
    if bool_decide (file_extension = u ".doc") then
      do! print (u "Warning: Basic DOCX extractor cannot process legacy '.doc' files: "
                 ++ file_path ++ u ". Try converting to .docx.") in
      ret None
    else
      let! text := _extract_text_from_docx file_path in ret (Some text)
  else if ext_in file_extension PDF_EXTENSIONS then
    let! text := _extract_text_from_pdf file_path in ret (Some text)
  else if ext_in file_extension EXCEL_EXTENSIONS then
    let! text := _extract_text_from_excel file_path in ret (Some text)
  else if ext_in file_extension POWERPOINT_EXTENSIONS then
    let! text := _extract_text_from_pptx file_path in ret (Some text)
  else if negb (ext_in file_extension ALL_SUPPORTED_EXTENSIONS) then
    do! print (u "Unsupported file type for text extraction: '"
               ++ file_path ++ u "' (extension: " ++ file_extension
               ++ u ")") in
    ret None
  else
    do! print (u "File type '" ++ file_extension
               ++ u "' is listed in a specific group but not ALL_SUPPORTED_EXTENSIONS for '"
               ++ file_path ++ u "'. This is a bug.") in
    ret None.

(** The [except] clauses of [extract_text]. *)
Definition extract_text_handler {A} (file_path : str) (e : exn) : M A :=
  if is_TextExtractionError e then raise e
  else
    wrap_extraction_error (fun e =>
      u "An unexpected error occurred while processing '" ++ file_path
      ++ u "': " ++ exn_str e) e.

(** [extract_text] *)
Definition extract_text (file_path : str) : M (option str) :=
  fun w =>
  if negb (OS.isfile file_path w) then
    raise (Exn FileNotFoundError
             (u "File not found: '" ++ file_path ++ OS.QUOTE) None) w
  else
    let file_extension := file_extension_of file_path in
    try_except (extract_text_dispatch file_path file_extension)
      (extract_text_handler file_path) w.

(** The specification's reading of the extracted text. *)

(** [text.split("\n")]: the newline-separated lines of a text. *)
Definition lines (text : str) : list str := OS.split 0x0A text.

(** PDF: one text per page, in page order, the empty string for a page
    without extractable text. *)
Definition pdf_page_texts (pages : list (option str)) : list str :=
  List.map text_or_empty pages.



(** "The underlying format parser fails with [cause] on these bytes", for
    a file whose lowercased extension is [ext]: the library call of the
    extension's group raises [cause], or, for a PDF, the extraction of a page
    does after the pages before it were extracted. *)
Inductive parser_raises (ext : str) (bytes : list N) (cause : exn) : Prop :=
  | docx_raises :
      ext = u ".docx" -> Document L bytes = Raise cause ->
      parser_raises ext bytes cause
  | pdf_raises :
      ext = u ".pdf" -> PdfReader L bytes = Raise cause ->
      parser_raises ext bytes cause
  | pdf_page_raises pages texts rest :
      ext = u ".pdf" -> PdfReader L bytes = Ok pages ->
      pages = List.map Ok texts ++ Raise cause :: rest ->
      parser_raises ext bytes cause
  | excel_raises :
      ext ∈ EXCEL_EXTENSIONS -> load_workbook L bytes = Raise cause ->
      parser_raises ext bytes cause
  | pptx_raises :
      ext ∈ POWERPOINT_EXTENSIONS -> Presentation L bytes = Raise cause ->
      parser_raises ext bytes cause.

End Helpers.

(** The document libraries raise [Exception]s only (no interrupt arrives
    while they run). *)
Definition raise_exceptions_only (L : libraries) : Prop :=
  (forall b e, Document L b = Raise e -> is_Exception e = true)
  /\ (forall b e, PdfReader L b = Raise e -> is_Exception e = true)
  /\ (forall b pages e, PdfReader L b = Ok pages -> Raise e ∈ pages ->
        is_Exception e = true)
  /\ (forall b e, load_workbook L b = Raise e -> is_Exception e = true)
  /\ (forall b e, Presentation L b = Raise e -> is_Exception e = true).

End TextExtractor.

(** ** src/main_sorter.py: the per-file loop of [process_files] *)

Module MainSorter.

Import TextExtractor Pathlib FileUtils.

(** The branch an iteration of the loop ends in (the states of the
    specification's per-file state machine).  The source returns nothing;
    the value only names the branch, one per logging call that ends an
    iteration. *)
Inductive outcome :=
  | Unsupported                      (* not a supported document type *)
  | EmptyText                        (* extraction gave None or blank text *)
  | ExtractionFailed                 (* an exception during extraction *)
  | NoMatch                          (* could not be categorized *)
  | Moved (category target_category_dir : str)
  | MoveFailed (category : str).     (* an exception during relocation *)

Section Loop.

Context (L : libraries).

(** The block "Text Extraction" of one iteration: [inr text_content] when
    the iteration goes on to categorization, [inl o] when it ends with
    [continue]. *)
Definition extraction_block (file_path file_name file_ext : str)
    : M (outcome + str) :=
  try_except
    (if negb (ext_in file_ext ALL_SUPPORTED_EXTENSIONS) then
       do! logger INFO
             (u "File '" ++ file_name ++ u "' (type: " ++ file_ext
              ++ u ") is not a supported document type for text extraction. Skipping categorization, leaving in source.") in
       ret (inl Unsupported)
     else
       let! text_content := extract_text L file_path in
       match text_content with
       | None =>
           do! logger WARNING
                 (u "Text extraction returned None or empty text for supported file '"
                  ++ file_name ++ u "'. Skipping.") in
           ret (inl EmptyText)
       | Some text =>
           if negb (truthy (strip text)) then
             do! logger WARNING
                   (u "Text extraction returned None or empty text for supported file '"
                    ++ file_name ++ u "'. Skipping.") in
             ret (inl EmptyText)
           else ret (inr text)
       end)
    (fun e =>
       if is_TextExtractionError e then
         do! logger ERROR
               (u "Failed to extract text from '" ++ file_name ++ u "': "
                ++ exn_str e ++ u ". Leaving in source folder.") in
         ret (inl ExtractionFailed)
       else if is_FileNotFoundError e then
         do! logger ERROR
               (u "File '" ++ file_name
                ++ u "' not found during text extraction. This should not happen if previously listed. Leaving in source folder.") in
         ret (inl ExtractionFailed)
       else if is_Exception e then
         do! logger ERROR
               (u "An unexpected error occurred during text extraction for '"
                ++ file_name ++ u "': " ++ exn_str e
                ++ u ". Leaving in source folder.") in
         ret (inl ExtractionFailed)
       else raise e).

(** The block "File Organization" for a category [category]. *)
Definition organization_block (target_dir file_path file_name category : str)
    : M outcome :=
  try_except
    (let! target_category_dir := create_target_subdir target_dir category in
     do! move_file_to_directory file_path target_category_dir in
     do! logger INFO
           (u "Moved '" ++ file_name ++ u "' to '" ++ target_category_dir
            ++ u "'. Category: " ++ category) in
     ret (Moved category target_category_dir))
    (fun e =>
       if is_FileNotFoundError e then
         do! logger ERROR
               (u "File '" ++ file_name
                ++ u "' not found during move operation. File may have been moved or deleted externally.") in
         ret (MoveFailed category)
       else if is_OSError e then
         do! logger ERROR
               (u "OS error while creating subdirectory or moving '" ++ file_name
                ++ u "' to category '" ++ category ++ u "': " ++ exn_str e
                ++ u ". File remains in source.") in
         ret (MoveFailed category)
       else if is_Exception e then
         do! logger ERROR
               (u "Failed to move '" ++ file_name ++ u "' to category '"
                ++ category ++ u "': " ++ exn_str e
                ++ u ". File remains in source.") in
         ret (MoveFailed category)
       else raise e).

Definition processing_message (file_path : str) : log_level * str :=
  (INFO, u "Processing file: " ++ file_path).

(** The body of [for file_path in files_to_process]. *)
Definition process_one_file (categorizer : LLMCategorizer)
    (target_dir file_path : str) : M outcome :=
  do! logger INFO (u "Processing file: " ++ file_path) in
  let file_name := OS.basename file_path in
  let file_ext := lower (OS.splitext file_name).2 in
  let! extracted := extraction_block file_path file_name file_ext in
  match extracted with
  | inl o => ret o
  | inr text_content =>
      let category :=
        categorize_text categorizer text_content PREDEFINED_CATEGORIES in
      match category with
      | Some c =>
          if truthy c then organization_block target_dir file_path file_name c
          else
            do! logger INFO
                  (u "File '" ++ file_name
                   ++ u "' could not be categorized. Leaving in source folder.") in
            ret NoMatch
      | None =>
          do! logger INFO
                (u "File '" ++ file_name
                 ++ u "' could not be categorized. Leaving in source folder.") in
          ret NoMatch
      end
  end.

(** The loop over the discovered files, in discovery order. *)
Fixpoint process_files_loop (categorizer : LLMCategorizer) (target_dir : str)
    (files_to_process : list str) : M (list outcome) :=
  match files_to_process with
  | [] => ret []
  | file_path :: files' =>
      let! o := process_one_file categorizer target_dir file_path in
      let! os := process_files_loop categorizer target_dir files' in
      ret (o :: os)
  end.

(** [process_files] from its loop on (lines 59-104): the checks on the two
    roots and the discovery of [files_to_process] come before. *)
Definition process_files_from (target_dir : str) (files_to_process : list str)
    : M (list outcome) :=
  let categorizer := LLMCategorizer_init None None in
  let! os := process_files_loop categorizer target_dir files_to_process in
  do! logger INFO (u "File sorting process completed.") in
  ret os.

End Loop.

Definition EXCLUDED_FILE_EXTENSIONS : list str :=
  [ u ".jpg"; u ".jpeg"; u ".png"; u ".gif"; u ".bmp"; u ".tiff"; u ".svg";
    u ".zip"; u ".rar"; u ".7z"; u ".tar"; u ".gz";
    u ".mp3"; u ".wav"; u ".aac"; u ".flac";
    u ".mp4"; u ".avi"; u ".mov"; u ".mkv";
    u ".exe"; u ".dll"; u ".so"; u ".dmg"; u ".app";
    u ".iso" ].

(** [str(n)] for a length: its decimal digits. *)
Definition str_of_nat (n : nat) : str :=
  u (NilZero.string_of_uint (Nat.to_uint n)).

Section Batch.

Context (L : libraries) (order : OS.listing).

(** Lines 40-47 of [process_files]: the target directory is made when it
    is missing; [false] when the function returns there. *)
Definition ensure_target_dir (target_dir : str) : M bool :=
  fun w =>
  if negb (OS.isdir target_dir w) then
    (do! logger WARNING
           (u "Target directory '" ++ target_dir
            ++ u "' does not exist. It will be created.") in
     try_except
       (do! OS.makedirs target_dir true in
        do! logger INFO (u "Target directory '" ++ target_dir ++ u "' created.") in
        ret true)
       (fun e =>
          if is_OSError e then
            do! logger ERROR
                  (u "Failed to create target directory '" ++ target_dir
                   ++ u "': " ++ exn_str e ++ u ". Aborting process.") in
            ret false
          else raise e)) w
  else ret true w.

(** Lines 49-57: the discovery of the files; [None] when the function
    returns there. *)
Definition discover_files (source_dir : str) : M (option (list str)) :=
  try_except
    (let! files_to_process :=
       get_source_files order source_dir EXCLUDED_FILE_EXTENSIONS in
     do! logger INFO
           (u "Found " ++ str_of_nat (length files_to_process)
            ++ u " files to process (after exclusions).") in
     ret (Some files_to_process))
    (fun e =>
       if is_FileNotFoundError e then
         do! logger ERROR
               (u "Source directory '" ++ source_dir
                ++ u "' not found during file scan. Aborting.") in
         ret None
       else if is_Exception e then
         do! logger ERROR
               (u "An unexpected error occurred while getting source files: "
                ++ exn_str e ++ u ". Aborting.") in
         ret None
       else raise e).

(** [process_files].  The source returns nothing; the value says how the
    run ended: [None] when it returned before the loop, the branches the
    iterations ended in otherwise. *)
Definition process_files (source_dir target_dir : str)
    : M (option (list outcome)) :=
  do! logger INFO
        (u "Starting file sorting process. Source: '" ++ source_dir
         ++ u "', Target: '" ++ target_dir ++ u "'") in
  fun w =>
  if negb (OS.isdir source_dir w) then
    (do! logger ERROR
           (u "Source directory '" ++ source_dir
            ++ u "' does not exist. Aborting process.") in
     ret None) w
  else
    (let! target_ready := ensure_target_dir target_dir in
     if negb target_ready then ret None
     else
       let! found := discover_files source_dir in
       match found with
       | None => ret None
       | Some files_to_process =>
           let! outcomes := process_files_from L target_dir files_to_process in
           ret (Some outcomes)
       end) w.

End Batch.

(** The files the log says were taken up: the paths of the records
    "Processing file: <path>", in the order they were written. *)
Definition attempts (records : list (log_level * str)) : list str :=
  omap (fun record : log_level * str =>
          match record.1 with
          | INFO =>
              if startswith (u "Processing file: ") record.2
              then Some (drop 17 record.2) else None
          | _ => None
          end) records.

(** The computation writes no "Processing file" record. *)
Definition no_attempt {A} (m : M A) : Prop :=
  forall w r w', m w = (r, w') -> attempts (log w') = attempts (log w).

(** An iteration that ends without touching the file. *)
Definition skipped (o : outcome) : Prop :=
  match o with
  | Unsupported | EmptyText | ExtractionFailed | NoMatch => True
  | Moved _ _ | MoveFailed _ => False
  end.

(** A corrupt file of a supported format: a regular file whose extension
    passes the gate of the loop and on whose bytes the format parser fails
    with an [Exception]. *)
Definition corrupt (L : libraries) (w : world) (file_path : str) : Prop :=
  exists bytes cause,
    OS.stat w file_path = inr (File bytes)
    /\ file_extension_of file_path ∈ ALL_SUPPORTED_EXTENSIONS
    /\ parser_raises L (file_extension_of file_path) bytes cause
    /\ is_Exception cause = true.

(** What an outcome says about the destination: the category is one of
    the predefined ones and has a keyword rule, and the directory of a move
    is [Path(target_dir) / category]. *)
Definition destination_ok (self : LLMCategorizer) (target_dir : str)
    (o : outcome) : Prop :=
  match o with
  | Moved c d =>
      c ∈ PREDEFINED_CATEGORIES /\ is_Some (_category_keywords self !! c)
      /\ d = Path_str (truediv (Path_of_str target_dir) c)
  | MoveFailed c =>
      c ∈ PREDEFINED_CATEGORIES /\ is_Some (_category_keywords self !! c)
  | _ => True
  end.

End MainSorter.

(** ** Concrete inputs *)

Module Examples.

Import TextExtractor.

Definition parse_error (msg : string) : exn := Exn OtherException (u msg) None.

(** A toy family of document libraries: a file is a five-character tag
    followed by its text. *)
Definition toy : libraries :=
  {| value := str;
     py_str := fun v => v;
     Document := fun b =>
       if startswith (u "DOCX:") b then Ok (OS.split 0x0A (drop 5 b))
       else Raise (parse_error "Package not found");
     PdfReader := fun b =>
       if startswith (u "%PDF:") b
       then Ok (List.map (fun t => Ok (if truthy t then Some t else None))
                  (OS.split 0x0C (drop 5 b)))
       else Raise (parse_error "EOF marker not found");
     load_workbook := fun b =>
       if startswith (u "XLSX:") b
       then Ok [(u "Sheet1",
                 List.map (fun row =>
                             List.map (fun c => if truthy c then Some c else None)
                               (OS.split 0x2C row))
                   (OS.split 0x0A (drop 5 b)))]
       else Raise (parse_error "File is not a zip file");
     Presentation := fun b =>
       if startswith (u "PPTX:") b
       then Ok [List.map Some (OS.split 0x0A (drop 5 b))]
       else Raise (parse_error "Package not found") |}.

Definition src (name : string) : list str := [u "src"; u name].

Definition files0 : gmap (list str) node :=
  list_to_map
    [ ([u "src"], Dir);
      ([u "out"], Dir);
      (src "thesis.docx", File (u "DOCX:This is my master's thesis on AI."));
      (src "broken.pdf", File (u "not a pdf"));
      (src "report.pdf", File (u "%PDF:Weekly project report."));
      (src "two-lines.pdf", File (u "%PDF:first" ++ [0x0A] ++ u "second"));
      (src "old.doc", File (u "legacy"));
      (src "archive.zip", File (u "PK"));
      (src "marks.xlsx", File (u "XLSX:name,,grade" ++ [0x0A] ++ u "Ann,A")) ].

Definition world0 : world :=
  {| fs := files0; cwd := []; stdout := []; log := []; reads := [] |}.

(** A source tree with sub-directories, and a target directory in which a
    report of the same name is already filed and a directory has the name
    of a file to come. *)
Definition files1 : gmap (list str) node :=
  list_to_map
    [ ([u "src"], Dir);
      ([u "src"; u "sub"], Dir);
      ([u "src"; u "sub"; u "deep"], Dir);
      ([u "src"; u "sub"; u "deep"; u "quiz.PDF"], File (u "%PDF:A short quiz."));
      ([u "src"; u "sub"; u "photo.JPG"], File (u "JFIF"));
      ([u "src"; u "sub"; u "notes.txt"], File (u "notes"));
      ([u "src"; u "thesis.docx"],
         File (u "DOCX:This is my master's thesis on AI."));
      ([u "src"; u "report.pdf"], File (u "%PDF:Weekly project report."));
      ([u "src"; u "slides.pptx"],
         File (u "PPTX:Here are the slides" ++ [0x0A] ++ u "for my presentation."));
      ([u "src"; u "old.doc"], File (u "legacy"));
      ([u "src"; u ".zip"], File (u "PK"));
      ([u "src"; u "archive.tar.gz"], File (u "PK"));
      ([u "out"], Dir);
      ([u "out"; u "Reports"], Dir);
      ([u "out"; u "Reports"; u "report.pdf"], File (u "%PDF:Last year's report."));
      ([u "out"; u "Tests & Quizzes"], Dir);
      ([u "out"; u "Tests & Quizzes"; u "quiz.PDF"], Dir) ].

Definition world1 : world :=
  {| fs := files1; cwd := []; stdout := []; log := []; reads := [] |}.

End Examples.

(* ================================================================== *)
(** * Properties *)

(** ** Strings: lemmas *)

Section StrLemmas.

Lemma startswith_spec (p s : str) :
  startswith p s = true <-> exists b, s = p ++ b.
Proof.
  revert s. induction p as [|a p IH]; intros s; simpl.
  - split; [intros _; by exists s | done].
  - destruct s as [|b s].
    + split; [done | intros [? ?]; discriminate].
    + rewrite andb_true_iff, N.eqb_eq, IH. split.
      * intros [-> [t ->]]. by exists t.
      * intros [t Ht]. injection Ht as -> ->. eauto.
Qed.

Lemma contains_spec (p s : str) : contains p s = true <-> occurs_in p s.
Proof.
  unfold occurs_in. induction s as [|c s IH]; simpl.
  - rewrite orb_false_r, startswith_spec. split.
    + intros [b Hb]. by exists [], b.
    + intros (a & b & Hab). destruct a; [by exists b|discriminate].
  - rewrite orb_true_iff, startswith_spec, IH. split.
    + intros [[b Hb] | (a & b & ->)]; [by exists [], b | by exists (c :: a), b].
    + intros (a & b & Hab). destruct a as [|c' a]; [left; by exists b|].
      right. injection Hab as -> ->. by exists a, b.
Qed.


Lemma occurs_in_middle (a p b : str) : occurs_in p (a ++ p ++ b).
Proof. by exists a, b. Qed.

Lemma lstrip_nil (s : str) : lstrip s = [] <-> Forall (fun c => isspace c = true) s.
Proof.
  induction s as [|c s IH]; simpl; [by split|].
  destruct (isspace c) eqn:E.
  - rewrite IH. split; [by constructor | by inversion 1].
  - split; [done | inversion 1; congruence].
Qed.

Lemma lstrip_suffix (s : str) : exists a, s = a ++ lstrip s.
Proof.
  induction s as [|c s [a Ha]]; simpl; [by exists []|].
  destruct (isspace c); [|by exists []].
  exists (c :: a). simpl. by f_equal.
Qed.

Lemma strip_nil (s : str) : strip s = [] <-> Forall (fun c => isspace c = true) s.
Proof.
  unfold strip, rstrip. split.
  - intros H. apply (f_equal (@rev N)) in H. rewrite rev_involutive in H.
    simpl in H. apply lstrip_nil in H. apply Forall_rev in H.
    rewrite rev_involutive in H. destruct (lstrip s) eqn:E; [by apply lstrip_nil|].
    exfalso. inversion H as [|? ? Hn Hrest]; subst.
    assert (Hs: lstrip (n :: l) = n :: l).
    { rewrite <- E. clear. induction s as [|c s IH]; simpl; [done|].
      destruct (isspace c) eqn:Ec; [done|]. simpl. by rewrite Ec. }
    simpl in Hs. rewrite Hn in Hs.
    destruct (lstrip_suffix l) as [a Ha]. rewrite Hs in Ha.
    apply (f_equal (@length N)) in Ha. rewrite length_app in Ha. simpl in Ha. lia.
  - intros H. apply lstrip_nil in H as ->. done.
Qed.

(** The guard [not text or not text.strip()]. *)
Lemma blank_guard (text : str) :
  negb (truthy text) || negb (truthy (strip text)) = true
  <-> Forall (fun c => isspace c = true) text.
Proof.
  rewrite <- strip_nil. destruct text as [|c text]; simpl; [by split|].
  destruct (strip (c :: text)); simpl; by split.
Qed.

Lemma isspace_iff (c : N) :
  isspace c = true <->
  (0x09 <= c <= 0x0D) \/ (0x1C <= c <= 0x20) \/ c = 0x85 \/ c = 0xA0
  \/ c = 0x1680 \/ (0x2000 <= c <= 0x200A) \/ c = 0x2028 \/ c = 0x2029
  \/ c = 0x202F \/ c = 0x205F \/ c = 0x3000.
Proof.
  unfold isspace.
  rewrite !orb_true_iff, !andb_true_iff, !N.leb_le, !N.eqb_eq. tauto.
Qed.

Lemma lower_cp_cases (c : N) :
  (0x41 <= c <= 0x5A /\ lower_cp c = c + 0x20)
  \/ (0xC0 <= c <= 0xDE /\ c <> 0xD7 /\ lower_cp c = c + 0x20)
  \/ (c = 0x178 /\ lower_cp c = 0xFF)
  \/ (c = 0x39C /\ lower_cp c = 0x3BC)
  \/ (~ (0x41 <= c <= 0x5A) /\ ~ (0xC0 <= c <= 0xDE /\ c <> 0xD7)
      /\ c <> 0x178 /\ c <> 0x39C /\ lower_cp c = c).
Proof.
  unfold lower_cp.
  destruct (N.leb_spec 0x41 c), (N.leb_spec c 0x5A); simpl; try lia;
  destruct (N.leb_spec 0xC0 c), (N.leb_spec c 0xDE), (N.eqb_spec c 0xD7);
    simpl; try lia;
  destruct (N.eqb_spec c 0x178); try lia;
  destruct (N.eqb_spec c 0x39C); lia.
Qed.



Lemma lower_cp_isspace (c : N) : isspace c = true -> lower_cp c = c.
Proof.
  rewrite isspace_iff. intros Hc.
  destruct (lower_cp_cases c) as [H|[H|[H|[H|H]]]]; destruct_and!; try done; lia.
Qed.






End StrLemmas.

(** ** Categorizer: lemmas *)

Section CategorizerLemmas.

Lemma find_Some_first {A} (f : A -> bool) (l : list A) (x : A) :
  List.find f l = Some x <->
  exists pre post, l = pre ++ x :: post /\ f x = true /\
                   forall y, y ∈ pre -> f y = false.
Proof.
  induction l as [|a l IH]; simpl.
  - split; [done|]. intros (pre & post & H & _). by destruct pre.
  - destruct (f a) eqn:Ea.
    + split.
      * intros [= ->]. exists [], l. split_and!; [done..|]. intros y Hy.
        by apply elem_of_nil in Hy.
      * intros (pre & post & H & Hx & Hpre). destruct pre as [|b pre].
        { by injection H as ->. }
        injection H as -> _. rewrite Hpre in Ea; [done|]. apply elem_of_cons; auto.
    + rewrite IH. split.
      * intros (pre & post & -> & Hx & Hpre). exists (a :: pre), post.
        split_and!; [done..|]. intros y [->|Hy]%elem_of_cons; auto.
      * intros (pre & post & H & Hx & Hpre). destruct pre as [|b pre].
        { injection H as -> _. congruence. }
        injection H as -> ->. exists pre, post. split_and!; [done..|].
        intros y Hy. apply Hpre, elem_of_cons; auto.
Qed.


Lemma any_keyword_matches_spec (keywords : list str) (t : str) :
  any_keyword_matches keywords t = true <->
  exists p, p ∈ keywords /\ occurs_in p t.
Proof.
  induction keywords as [|k ks IH]; simpl.
  - split; [done|]. intros (p & Hp & _). by apply elem_of_nil in Hp.
  - unfold re_search. destruct (contains k t) eqn:E.
    + split; [|done]. intros _. exists k. split; [apply elem_of_cons; auto|].
      by apply contains_spec.
    + rewrite IH. split.
      * intros (p & Hp & Ho). exists p. split; [apply elem_of_cons; auto|done].
      * intros (p & [->|Hp]%elem_of_cons & Ho); [|eauto].
        apply contains_spec in Ho. congruence.
Qed.



(** The two nested loops compute the first category passing the test. *)
Lemma categorize_loop_find (self : LLMCategorizer) (categories : list str)
    (lower_text : str) :
  categorize_loop self categories lower_text
  = List.find (category_matches self lower_text) categories.
Proof.
  induction categories as [|c cs IH]; simpl; [done|].
  unfold category_matches at 1.
  destruct (_category_keywords self !! c) as [kws|]; [|done].
  by destruct (any_keyword_matches kws lower_text).
Qed.

Lemma keyword_table_ok :
  forallb (fun kv => forallb pattern_ok kv.2) category_keywords_items = true.
Proof. vm_compute. reflexivity. Qed.

Lemma keyword_table_lookup ak cfg (c : str) (keywords : list str) :
  _category_keywords (LLMCategorizer_init ak cfg) !! c = Some keywords ->
  (c, keywords) ∈ category_keywords_items.
Proof. intros H. by apply (elem_of_list_to_map_2 category_keywords_items). Qed.

Lemma keyword_pattern_ok ak cfg (c : str) (keywords : list str) (p : str) :
  _category_keywords (LLMCategorizer_init ak cfg) !! c = Some keywords ->
  p ∈ keywords -> pattern_ok p = true.
Proof.
  intros Hc%keyword_table_lookup Hp.
  pose proof keyword_table_ok as H. rewrite forallb_forall in H.
  apply list_elem_of_In, H in Hc. simpl in Hc. rewrite forallb_forall in Hc.
  by apply Hc, list_elem_of_In.
Qed.

(** Every pattern of the table is a literal, so that [re.search] is the
    substring test of [re_search]. *)
Lemma keyword_patterns_literal ak cfg (c : str) (keywords : list str) (p : str) :
  _category_keywords (LLMCategorizer_init ak cfg) !! c = Some keywords ->
  p ∈ keywords -> forall ch, ch ∈ p -> re_special ch = false.
Proof.
  intros Hc Hp ch Hch. pose proof (keyword_pattern_ok _ _ _ _ _ Hc Hp) as H.
  unfold pattern_ok in H. rewrite !andb_true_iff in H. destruct H as [[H _] _].
  rewrite forallb_forall in H. apply list_elem_of_In, H in Hch.
  by apply negb_true_iff.
Qed.



End CategorizerLemmas.

(** ** Categorizer: the specification's claims *)



(** C4.  Whatever the list of allowed categories (and whatever the keyword
    table), [categorize_text] returns [None] when the text is the empty
    string or consists of white space only. *)
Theorem categorize_text_blank (self : LLMCategorizer) (text : str)
    (categories : list str) :
  text = [] \/ Forall (fun c => isspace c = true) text ->
  categorize_text self text categories = None.
Proof.
  intros H. unfold categorize_text.
  assert (Hb : Forall (fun c => isspace c = true) text).
  { destruct H as [->|H]; [constructor|done]. }
  apply blank_guard in Hb. by rewrite Hb.
Qed.

Lemma categorize_text_blank_witness :
  categorize_text default_categorizer [] PREDEFINED_CATEGORIES = None
  /\ categorize_text default_categorizer (u "   ") PREDEFINED_CATEGORIES = None.
Proof.
  split.
  - apply categorize_text_blank. left. reflexivity.
  - apply categorize_text_blank. right. repeat constructor.
Defined.




(** ** Text extraction *)

Import TextExtractor.

Section ExtractorLemmas.
Context (L : libraries).

Lemma ext_in_true (x : str) (l : list str) : ext_in x l = true <-> x ∈ l.
Proof. unfold ext_in. apply bool_decide_eq_true. Qed.

Lemma ext_in_false (x : str) (l : list str) : ext_in x l = false <-> x ∉ l.
Proof. unfold ext_in. apply bool_decide_eq_false. Qed.

Lemma all_supported_groups (x : str) :
  x ∈ ALL_SUPPORTED_EXTENSIONS <->
  x ∈ DOC_EXTENSIONS \/ x ∈ PDF_EXTENSIONS \/ x ∈ EXCEL_EXTENSIONS
  \/ x ∈ POWERPOINT_EXTENSIONS.
Proof. unfold ALL_SUPPORTED_EXTENSIONS. rewrite !elem_of_app. tauto. Qed.

Lemma extract_text_handler_raises {A} (file_path : str) (e : exn) (w : world) :
  exists e', @extract_text_handler A file_path e w = (Raise e', w).
Proof.
  unfold extract_text_handler, wrap_extraction_error, raise.
  destruct (is_TextExtractionError e); [eauto|].
  destruct (is_Exception e); eauto.
Qed.

Lemma helper_result_not_None (m : M str) (file_path : str) (w : world) :
  (try_except (let! text := m in ret (Some text))
    (extract_text_handler file_path) w).1 <> Ok None.
Proof.
  unfold try_except, bind, ret. destruct (m w) as [[text|e] w']; simpl; [done|].
  destruct (extract_text_handler_raises (A := option str) file_path e w') as [e' ->].
  done.
Qed.

Lemma extract_text_existing (file_path : str) (w : world) :
  OS.isfile file_path w = true ->
  extract_text L file_path w
  = try_except (extract_text_dispatch L file_path (file_extension_of file_path))
      (extract_text_handler file_path) w.
Proof. intros H. unfold extract_text. by rewrite H. Qed.

(** C3.  For every path to an existing file, [extract_text] returns [None]
    exactly when the lowercased extension of the file is '.doc' or is
    outside the four supported groups; in both cases it returns normally,
    after printing a diagnostic, and for '.doc' (as for an unsupported
    extension) no file is opened for parsing and nothing else changes. *)
Theorem extract_text_None_iff (file_path : str) (w : world) :
  OS.isfile file_path w = true ->
  let file_extension := file_extension_of file_path in
  ((extract_text L file_path w).1 = Ok None <->
     file_extension = u ".doc" \/ file_extension ∉ ALL_SUPPORTED_EXTENSIONS)
  /\ (file_extension = u ".doc" ->
      extract_text L file_path w
      = (Ok None,
         (print (u "Warning: Basic DOCX extractor cannot process legacy '.doc' files: "
                 ++ file_path ++ u ". Try converting to .docx.") w).2))
  /\ (file_extension ∉ ALL_SUPPORTED_EXTENSIONS ->
      extract_text L file_path w
      = (Ok None,
         (print (u "Unsupported file type for text extraction: '"
                 ++ file_path ++ u "' (extension: " ++ file_extension
                 ++ u ")") w).2))
  /\ ((extract_text L file_path w).1 = Ok None ->
      reads (extract_text L file_path w).2 = reads w
      /\ fs (extract_text L file_path w).2 = fs w).
Proof.
  intros Hfile ext. rewrite (extract_text_existing _ _ Hfile). fold ext.
  assert (Hdoc : ext = u ".doc" ->
    try_except (extract_text_dispatch L file_path ext)
      (extract_text_handler file_path) w
    = (Ok None,
       (print (u "Warning: Basic DOCX extractor cannot process legacy '.doc' files: "
               ++ file_path ++ u ". Try converting to .docx.") w).2)).
  { intros ->. reflexivity. }
  assert (Hunsup : ext ∉ ALL_SUPPORTED_EXTENSIONS ->
    try_except (extract_text_dispatch L file_path ext)
      (extract_text_handler file_path) w
    = (Ok None,
       (print (u "Unsupported file type for text extraction: '"
               ++ file_path ++ u "' (extension: " ++ ext ++ u ")") w).2)).
  { intros Hn. unfold extract_text_dispatch.
    pose proof (all_supported_groups ext) as Hall.
    rewrite (proj2 (ext_in_false ext DOC_EXTENSIONS)) by tauto.
    rewrite (proj2 (ext_in_false ext PDF_EXTENSIONS)) by tauto.
    rewrite (proj2 (ext_in_false ext EXCEL_EXTENSIONS)) by tauto.
    rewrite (proj2 (ext_in_false ext POWERPOINT_EXTENSIONS)) by tauto.
    rewrite (proj2 (ext_in_false ext ALL_SUPPORTED_EXTENSIONS)) by tauto.
    reflexivity. }
  assert (Hiff : (try_except (extract_text_dispatch L file_path ext)
                    (extract_text_handler file_path) w).1 = Ok None ->
                 ext = u ".doc" \/ ext ∉ ALL_SUPPORTED_EXTENSIONS).
  { intros Hres. destruct (decide (ext = u ".doc")) as [|Hnd]; [by left|].
    destruct (decide (ext ∈ ALL_SUPPORTED_EXTENSIONS)) as [Hin|]; [|by right].
    exfalso. revert Hres. unfold extract_text_dispatch.
    destruct (ext_in ext DOC_EXTENSIONS) eqn:E1.
    { rewrite bool_decide_eq_false_2 by done. apply helper_result_not_None. }
    destruct (ext_in ext PDF_EXTENSIONS) eqn:E2; [apply helper_result_not_None|].
    destruct (ext_in ext EXCEL_EXTENSIONS) eqn:E3; [apply helper_result_not_None|].
    destruct (ext_in ext POWERPOINT_EXTENSIONS) eqn:E4; [apply helper_result_not_None|].
    apply ext_in_false in E1, E2, E3, E4. apply all_supported_groups in Hin. tauto. }
  split_and!; [|done..|].
  - split; [done|]. intros [H|H]; [by rewrite Hdoc | by rewrite Hunsup].
  - intros [H|H]%Hiff; [by rewrite Hdoc | by rewrite Hunsup].
Qed.


Lemma wraps_message (a b : str) (file_path : str) (cause : exn) :
  wraps file_path
    (Exn TextExtractionError (a ++ file_path ++ b ++ exn_str cause) (Some cause))
    cause.
Proof.
  split_and!; [done..| |]; simpl.
  - by exists a, (b ++ exn_str cause).
  - exists (a ++ file_path ++ b), []. by rewrite app_nil_r, <- !app_assoc.
Qed.

Lemma wrap_extraction_error_spec {A} (a b file_path : str) (e0 e : exn) (w w' : world) :
  @wrap_extraction_error A (fun e => a ++ file_path ++ b ++ exn_str e) e0 w
  = (Raise e, w') ->
  w' = w /\
  ((is_Exception e0 = true /\ wraps file_path e e0)
   \/ (is_Exception e0 = false /\ e = e0)).
Proof.
  unfold wrap_extraction_error, raise. destruct (is_Exception e0) eqn:E.
  - intros [= <- <-]. split; [done|]. left. split; [done|]. apply wraps_message.
  - intros [= <- <-]. auto.
Qed.

Lemma helper_raises_wrapped {A} (body : M A) (a b file_path : str) (e : exn)
    (w : world) :
  (try_except body
     (wrap_extraction_error (fun e => a ++ file_path ++ b ++ exn_str e)) w).1
  = Raise e ->
  is_Exception e = true -> exists cause, wraps file_path e cause.
Proof.
  unfold try_except. destruct (body w) as [[x|e0] w']; [done|].
  destruct (wrap_extraction_error _ e0 w') as [r w''] eqn:E. simpl. intros ->.
  apply wrap_extraction_error_spec in E as [_ [[_ H]|[H ->]]]; [eauto|congruence].
Qed.

Lemma bind_ret_raises {A B} (m : M A) (f : A -> B) (e : exn) (w : world) :
  ((let! x := m in ret (f x)) w).1 = Raise e -> (m w).1 = Raise e.
Proof. unfold bind, ret. destruct (m w) as [[x|e0] w']; simpl; congruence. Qed.

Lemma dispatch_raises_wrapped (file_path ext : str) (e : exn) (w : world) :
  (extract_text_dispatch L file_path ext w).1 = Raise e ->
  is_Exception e = true -> exists cause, wraps file_path e cause.
Proof.
  unfold extract_text_dispatch.
  repeat match goal with
         | |- context [if ?c then _ else _] => destruct c
         end; simpl; try discriminate;
    intros H%bind_ret_raises; revert H;
    unfold _extract_text_from_docx, _extract_text_from_pdf,
      _extract_text_from_excel, _extract_text_from_pptx;
    apply helper_raises_wrapped.
Qed.


Lemma stat_isfile (file_path : str) (w : world) (bytes : list N) :
  OS.stat w file_path = inr (File bytes) -> OS.isfile file_path w = true.
Proof. unfold OS.isfile. by intros ->. Qed.

Lemma read_file_ok (file_path : str) (w : world) (bytes : list N) :
  OS.stat w file_path = inr (File bytes) ->
  OS.read_file file_path w = (Ok bytes, (record_read file_path w).2).
Proof. unfold OS.read_file. by intros ->. Qed.

Lemma pdf_pages_loop_raises (texts : list (option str)) (cause : exn)
    (rest : list (result (option str))) (full_text : list str) :
  pdf_pages_loop (List.map Ok texts ++ Raise cause :: rest) full_text
  = Raise cause.
Proof.
  revert full_text. induction texts as [|t texts IH]; intros full_text; simpl;
    [done|apply IH].
Qed.

Lemma helper_fails {A} (body : M A) (message : exn -> str) (cause : exn)
    (w w' : world) :
  body w = (Raise cause, w') -> is_Exception cause = true ->
  try_except body (wrap_extraction_error message) w
  = (Raise (Exn TextExtractionError (message cause) (Some cause)), w').
Proof.
  intros Hb Hc. unfold try_except, wrap_extraction_error. by rewrite Hb, Hc.
Qed.

Lemma dispatch_branch_fails (m : M str) (file_path : str) (e : exn)
    (w w' : world) :
  m w = (Raise e, w') -> is_TextExtractionError e = true ->
  try_except (let! text := m in ret (Some text))
    (extract_text_handler file_path) w = (Raise e, w').
Proof.
  intros Hm He. unfold try_except, bind, extract_text_handler.
  by rewrite Hm, He.
Qed.

Lemma extract_text_failures_wrapped (file_path : str) (w : world) :
  OS.isfile file_path w = true ->
  (forall e, (extract_text L file_path w).1 = Raise e ->
     is_Exception e = true -> exists cause, wraps file_path e cause)
  /\ (forall bytes cause,
       OS.stat w file_path = inr (File bytes) ->
       parser_raises L (file_extension_of file_path) bytes cause ->
       is_Exception cause = true ->
       exists e, (extract_text L file_path w).1 = Raise e
                 /\ wraps file_path e cause).
Proof.
  intros Hfile. rewrite (extract_text_existing _ _ Hfile). split.
  - intros e. unfold try_except.
    destruct (extract_text_dispatch L file_path _ w) as [[x|e0] w'] eqn:E;
      [done|].
    unfold extract_text_handler.
    destruct (is_TextExtractionError e0) eqn:Ec.
    + simpl. intros [= <-] He. apply (dispatch_raises_wrapped file_path (file_extension_of file_path) e0 w);
        [by rewrite E|done].
    + intros H He.
      destruct (wrap_extraction_error _ e0 w') as [r w''] eqn:Ew. simpl in H.
      subst r.
      apply (wrap_extraction_error_spec
               (u "An unexpected error occurred while processing '")
               (u "': ")) in Ew as [_ [[_ Hw]|[Hn ->]]]; [eauto|congruence].
  - intros bytes cause Hstat Hp Hc.
    pose proof (read_file_ok _ _ _ Hstat) as Hread.
    set (w' := (record_read file_path w).2) in *.
    assert (Hgoal : forall (m : M str) a b,
      m w = (Raise (Exn TextExtractionError
                      (a ++ file_path ++ b ++ exn_str cause) (Some cause)), w') ->
      exists e, (try_except (let! text := m in ret (Some text))
                   (extract_text_handler file_path) w).1 = Raise e
                /\ wraps file_path e cause).
    { intros m a b Hm. eexists. rewrite (dispatch_branch_fails _ _ _ _ _ Hm eq_refl).
      split; [done|]. apply wraps_message. }
    destruct Hp as [-> Hd| -> Hd|pages texts rest -> Hd ->|He Hd|He Hd].
    + apply (Hgoal _ (u "Failed to extract text from DOCX '") (u "': ")).
      apply (helper_fails _ (fun e => _ ++ file_path ++ _ ++ exn_str e)); [|done].
      unfold bind, lift. by rewrite Hread, Hd.
    + apply (Hgoal _ (u "Failed to extract text from PDF '") (u "': ")).
      apply (helper_fails _ (fun e => _ ++ file_path ++ _ ++ exn_str e)); [|done].
      unfold bind, lift. by rewrite Hread, Hd.
    + apply (Hgoal _ (u "Failed to extract text from PDF '") (u "': ")).
      apply (helper_fails _ (fun e => _ ++ file_path ++ _ ++ exn_str e)); [|done].
      unfold bind, lift. by rewrite Hread, Hd, pdf_pages_loop_raises.
    + unfold extract_text_dispatch.
      assert (ext_in (file_extension_of file_path) DOC_EXTENSIONS = false
              /\ ext_in (file_extension_of file_path) PDF_EXTENSIONS = false
              /\ ext_in (file_extension_of file_path) EXCEL_EXTENSIONS = true)
        as (-> & -> & ->).
      { unfold EXCEL_EXTENSIONS in He. rewrite !elem_of_cons in He.
        destruct He as [->|[->|He]]; [done..|by apply elem_of_nil in He]. }
      apply (Hgoal _ (u "Failed to extract text from Excel '") (u "': ")).
      apply (helper_fails _ (fun e => _ ++ file_path ++ _ ++ exn_str e)); [|done].
      unfold bind, lift. by rewrite Hread, Hd.
    + unfold extract_text_dispatch.
      assert (ext_in (file_extension_of file_path) DOC_EXTENSIONS = false
              /\ ext_in (file_extension_of file_path) PDF_EXTENSIONS = false
              /\ ext_in (file_extension_of file_path) EXCEL_EXTENSIONS = false
              /\ ext_in (file_extension_of file_path) POWERPOINT_EXTENSIONS = true)
        as (-> & -> & -> & ->).
      { unfold POWERPOINT_EXTENSIONS in He. rewrite !elem_of_cons in He.
        destruct He as [->|[->|He]]; [done..|by apply elem_of_nil in He]. }
      apply (Hgoal _ (u "Failed to extract text from PowerPoint '") (u "': ")).
      apply (helper_fails _ (fun e => _ ++ file_path ++ _ ++ exn_str e)); [|done].
      unfold bind, lift. by rewrite Hread, Hd.
Qed.

(** C5.  For every existing file, every [Exception] that leaves
    [extract_text] is a [TextExtractionError] raised while handling a cause
    and showing the path and the cause in its message; and whenever the
    format parser of a supported extension fails on the file with an
    [Exception], [extract_text] raises the [TextExtractionError] that wraps
    this very failure: no exception of a parser library reaches the caller
    as it is. *)
Theorem extract_text_wraps_parser_failures (file_path : str) (w : world) :
  OS.isfile file_path w = true ->
  (forall e, (extract_text L file_path w).1 = Raise e ->
     is_Exception e = true -> exists cause, wraps file_path e cause)
  /\ (forall bytes cause,
       OS.stat w file_path = inr (File bytes) ->
       parser_raises L (file_extension_of file_path) bytes cause ->
       is_Exception cause = true ->
       exists e, (extract_text L file_path w).1 = Raise e
                 /\ wraps file_path e cause).
Proof. apply extract_text_failures_wrapped. Qed.


Lemma split_nonempty (sep : N) (s : str) : OS.split sep s <> [].
Proof.
  destruct s as [|c s]; simpl; [done|].
  destruct (c =? sep); [done|]. by destruct (OS.split sep s).
Qed.

Lemma split_app (sep : N) (a b : str) :
  OS.split sep (a ++ sep :: b) = OS.split sep a ++ OS.split sep b.
Proof.
  induction a as [|c a IH]; simpl.
  - by rewrite N.eqb_refl.
  - destruct (c =? sep); [by rewrite IH|]. rewrite IH.
    pose proof (split_nonempty sep a). by destruct (OS.split sep a).
Qed.

Lemma split_no_sep (sep : N) (s : str) : sep ∉ s -> OS.split sep s = [s].
Proof.
  induction s as [|c s IH]; simpl; [done|]. intros H.
  apply not_elem_of_cons in H as [Hc Hs].
  destruct (N.eqb_spec c sep); [congruence|]. by rewrite IH.
Qed.

Lemma lines_join (parts : list str) :
  parts <> [] -> lines (join OS.NL parts) = List.flat_map lines parts.
Proof.
  unfold lines. induction parts as [|p parts IH]; [done|]. intros _.
  destruct parts as [|q parts].
  - simpl. by rewrite app_nil_r.
  - change (join OS.NL (p :: q :: parts))
      with (p ++ 0x0A :: join OS.NL (q :: parts)).
    rewrite split_app, IH by done. done.
Qed.

Lemma lines_join_plain (parts : list str) :
  parts <> [] -> Forall (fun p => 0x0A ∉ p) parts ->
  lines (join OS.NL parts) = parts.
Proof.
  intros Hne Hall. rewrite lines_join by done. clear Hne.
  induction Hall as [|p parts Hp _ IH]; simpl; [done|].
  unfold lines at 1. by rewrite split_no_sep, IH.
Qed.

Lemma pdf_pages_loop_ok (pages : list (result (option str)))
    (full_text full_text' : list str) :
  pdf_pages_loop pages full_text = Ok full_text' <->
  exists texts, pages = List.map Ok texts
                /\ full_text' = full_text ++ pdf_page_texts texts.
Proof.
  revert full_text. induction pages as [|[t|e] pages IH]; intros acc; simpl.
  - split.
    + intros [= <-]. exists []. by rewrite app_nil_r.
    + intros ([|? ?] & Hp & ->); [by rewrite app_nil_r|discriminate].
  - rewrite IH. split.
    + intros (texts & -> & ->). exists (t :: texts). by rewrite <- app_assoc.
    + intros ([|t' texts] & Hp & ->); [discriminate|]. injection Hp as -> ->.
      exists texts. by rewrite <- app_assoc.
  - split; [done|]. intros ([|? ?] & Hp & _); discriminate.
Qed.

Lemma try_except_ok {A} (body : M A) (handler : exn -> M A) (a : A) (w w' : world) :
  (forall e w1, exists e' w2, handler e w1 = (Raise e', w2)) ->
  try_except body handler w = (Ok a, w') -> body w = (Ok a, w').
Proof.
  intros Hh. unfold try_except. destruct (body w) as [[x|e] w1]; [done|].
  destruct (Hh e w1) as (e' & w2 & ->). done.
Qed.

Lemma wrap_extraction_error_raises {A} (message : exn -> str) (e : exn) (w : world) :
  exists e' w', @wrap_extraction_error A message e w = (Raise e', w').
Proof. unfold wrap_extraction_error, raise. destruct (is_Exception e); eauto. Qed.

Lemma dispatch_branch_ok (m : M str) (file_path : str) (text : str) (w : world) :
  (try_except (let! text := m in ret (Some text))
     (extract_text_handler file_path) w).1 = Ok (Some text) ->
  (m w).1 = Ok text.
Proof.
  unfold try_except, bind, ret. destruct (m w) as [[x|e] w1]; simpl.
  - by intros [= ->].
  - destruct (extract_text_handler_raises (A := option str) file_path e w1)
      as [e' ->]. done.
Qed.

(** C7, as the code has it.  For every PDF document whose extraction
    succeeds, the extracted text is the texts of the pages, in page order,
    joined by newlines, one text per page, a page without extractable text
    giving the empty string rather than being left out; the newline-separated
    lines of the extracted text are the lines of the pages' texts, so that
    their number is the number of pages when there is at least one page and
    no page's text contains a newline. *)
Theorem pdf_text_joins_pages (file_path : str) (w : world) (bytes : list N)
    (text : str) :
  OS.stat w file_path = inr (File bytes) ->
  file_extension_of file_path = u ".pdf" ->
  (extract_text L file_path w).1 = Ok (Some text) ->
  exists texts : list (option str),
    PdfReader L bytes = Ok (List.map Ok texts)
    /\ text = join OS.NL (pdf_page_texts texts)
    /\ length (pdf_page_texts texts) = length texts
    /\ (texts <> [] ->
        lines text = List.flat_map lines (pdf_page_texts texts))
    /\ (texts <> [] -> Forall (fun t => 0x0A ∉ t) (pdf_page_texts texts) ->
        lines text = pdf_page_texts texts
        /\ length (lines text) = length texts).
Proof.
  intros Hstat Hext. rewrite (extract_text_existing _ _ (stat_isfile _ _ _ Hstat)).
  rewrite Hext. intros H%dispatch_branch_ok. revert H.
  unfold _extract_text_from_pdf.
  destruct (try_except _ _ w) as [r w'] eqn:E. simpl. intros ->.
  apply try_except_ok in E; [|apply wrap_extraction_error_raises].
  revert E. unfold bind, lift, ret. rewrite (read_file_ok _ _ _ Hstat).
  destruct (PdfReader L bytes) as [pages|e]; [|done].
  destruct (pdf_pages_loop pages []) as [full_text|e] eqn:Hl; [|done].
  intros [= <- _]. apply pdf_pages_loop_ok in Hl as (texts & -> & ->).
  exists texts. simpl.
  assert (Hlen : length (pdf_page_texts texts) = length texts).
  { unfold pdf_page_texts. apply length_map. }
  assert (Hne : texts <> [] -> pdf_page_texts texts <> []).
  { by destruct texts. }
  split_and!; [done..| |].
  - intros Ht. by apply lines_join, Hne.
  - intros Ht Hall. rewrite lines_join_plain by auto. done.
Qed.








End ExtractorLemmas.


(** ** The file system, [pathlib] and [file_utils] *)

Import Pathlib FileUtils.

Section FileSystemLemmas.

Lemma step_keeps_dirs f f' cur c k :
  OS.keeps_dirs f f' -> OS.step f cur c = inr k -> OS.step f' cur c = inr k.
Proof.
  intros Hk. unfold OS.step.
  destruct (OS.node_at f cur) as [[?|]|] eqn:E; try done.
  by rewrite (Hk _ E).
Qed.

Lemma walk_keeps_dirs f f' cur comps k :
  OS.keeps_dirs f f' -> OS.walk f cur comps = inr k -> OS.walk f' cur comps = inr k.
Proof.
  intros Hk. revert cur. induction comps as [|c comps IH]; intros cur; simpl;
    [done|].
  destruct (OS.step f cur c) as [e|cur'] eqn:E; [done|].
  rewrite (step_keeps_dirs _ _ _ _ _ Hk E). apply IH.
Qed.

Lemma resolve_keeps_dirs w w' p k :
  OS.keeps_dirs (fs w) (fs w') -> cwd w' = cwd w ->
  OS.resolve w p = inr k -> OS.resolve w' p = inr k.
Proof.
  intros Hk Hc. unfold OS.resolve. destruct p; [done|]. rewrite Hc.
  by apply walk_keeps_dirs.
Qed.

Lemma keeps_dirs_insert_fresh f k n :
  OS.node_at f k = None -> OS.keeps_dirs f (<[k := n]> f).
Proof.
  intros Hnone k' Hk'. destruct k' as [|c k']; [done|]. simpl in *.
  destruct (decide (k = c :: k')) as [->|Hne].
  - simpl in *; congruence.
  - by rewrite lookup_insert_ne.
Qed.

Lemma node_at_insert f k n : k <> [] -> OS.node_at (<[k := n]> f) k = Some n.
Proof. intros H. destruct k; [done|]. simpl. by rewrite lookup_insert_eq. Qed.

Lemma node_at_None_nonroot f k : OS.node_at f k = None -> k <> [].
Proof. by destruct k. Qed.

(** [os.mkdir] *)
Lemma mkdir_ok p w w' :
  OS.mkdir p w = (Ok tt, w') ->
  exists k, OS.resolve w p = inr k /\ OS.node_at (fs w) k = None
            /\ w' = set_fs (<[k := Dir]> (fs w)) w.
Proof.
  unfold OS.mkdir. destruct (OS.resolve w p) as [e|k]; [done|].
  destruct (OS.node_at (fs w) k) eqn:E; [done|]. intros [= <-]. eauto.
Qed.

Lemma mkdir_raises p w e w' : OS.mkdir p w = (Raise e, w') -> w' = w.
Proof.
  unfold OS.mkdir. destruct (OS.resolve w p) as [?|k]; [by intros [= _ <-]|].
  destruct (OS.node_at (fs w) k); by intros [= _ <-] || done.
Qed.

Lemma mkdir_again p w w' :
  OS.mkdir p w = (Ok tt, w') ->
  OS.mkdir p w' = (Raise (OS.os_error OS.EEXIST p), w') /\ OS.isdir p w' = true.
Proof.
  intros (k & Hr & Hn & ->)%mkdir_ok.
  assert (Hr' : OS.resolve (set_fs (<[k := Dir]> (fs w)) w) p = inr k).
  { apply (resolve_keeps_dirs w); [|done..]. by apply keeps_dirs_insert_fresh. }
  pose proof (node_at_None_nonroot _ _ Hn) as Hk.
  unfold OS.mkdir, OS.isdir, OS.stat. rewrite Hr'. simpl.
  by rewrite node_at_insert.
Qed.


Lemma mkdir_ok_settled p w w' : OS.mkdir p w = (Ok tt, w') -> settled p w'.
Proof.
  intros [H1 H2]%mkdir_again. exists (OS.os_error OS.EEXIST p). by split_and!.
Qed.

Lemma mkdir_parents_unfold root rtail :
  mkdir_parents root rtail
  = let self := {| root := root; tail := rev rtail |} in
    try_except (OS.mkdir (Path_str self))
      (fun e =>
         if is_FileNotFoundError e then
           match rtail with
           | [] => raise e
           | _ :: rparent =>
               do! mkdir_parents root rparent in mkdir_noparents self
           end
         else if is_OSError e then
           fun w => if negb (is_dir self w) then raise e w else ret tt w
         else raise e).
Proof. by destruct rtail. Qed.

Lemma mkdir_noparents_settles self w w' :
  mkdir_noparents self w = (Ok tt, w') -> settled (Path_str self) w'.
Proof.
  unfold mkdir_noparents, try_except.
  destruct (OS.mkdir (Path_str self) w) as [[[]|e] w1] eqn:E.
  - intros [= <-]. by apply mkdir_ok_settled in E.
  - pose proof (mkdir_raises _ _ _ _ E) as ->.
    destruct (is_FileNotFoundError e) eqn:E1; [done|].
    destruct (is_OSError e) eqn:E2; [|done].
    unfold is_dir. destruct (OS.isdir (Path_str self) w) eqn:E3; [|done].
    intros [= <-]. by exists e.
Qed.

Lemma mkdir_parents_settles root rtail w w' :
  mkdir_parents root rtail w = (Ok tt, w') ->
  settled (Path_str {| root := root; tail := rev rtail |}) w'.
Proof.
  rewrite mkdir_parents_unfold. cbv zeta. unfold try_except.
  set (self := {| root := root; tail := rev rtail |}).
  destruct (OS.mkdir (Path_str self) w) as [[[]|e] w1] eqn:E.
  - intros [= <-]. by apply mkdir_ok_settled in E.
  - pose proof (mkdir_raises _ _ _ _ E) as ->.
    destruct (is_FileNotFoundError e) eqn:E1.
    + destruct rtail as [|c rparent]; [done|]. unfold bind.
      destruct (mkdir_parents root rparent w) as [[[]|e'] w2]; [|done].
      apply mkdir_noparents_settles.
    + destruct (is_OSError e) eqn:E2; [|done].
      unfold is_dir. destruct (OS.isdir (Path_str self) w) eqn:E3; [|done].
      intros [= <-]. by exists e.
Qed.

Lemma settled_mkdir_parents root rtail w :
  settled (Path_str {| root := root; tail := rev rtail |}) w ->
  mkdir_parents root rtail w = (Ok tt, w).
Proof.
  intros (e & Hm & H1 & H2 & H3). rewrite mkdir_parents_unfold. cbv zeta.
  unfold try_except, is_dir. by rewrite Hm, H1, H2, H3.
Qed.

Lemma Path_mkdir_idempotent self w w' :
  Path_mkdir self w = (Ok tt, w') ->
  Path_mkdir self w' = (Ok tt, w') /\ OS.isdir (Path_str self) w' = true.
Proof.
  unfold Path_mkdir. intros H%mkdir_parents_settles.
  rewrite rev_involutive in H. split.
  - apply settled_mkdir_parents. by rewrite rev_involutive.
  - destruct self. by destruct H as (e & _ & _ & _ & H).
Qed.

Lemma create_target_subdir_ok target_dir subdir_name w p w' :
  create_target_subdir target_dir subdir_name w = (Ok p, w') ->
  p = Path_str (truediv (Path_of_str target_dir) subdir_name)
  /\ Path_mkdir (truediv (Path_of_str target_dir) subdir_name) w = (Ok tt, w').
Proof.
  unfold create_target_subdir, bind, try_except, ret.
  destruct (Path_mkdir _ w) as [[[]|e] w1].
  - by intros [= <- <-].
  - destruct (is_OSError e); simpl; [|done]. unfold bind, print, raise. done.
Qed.

Lemma create_target_subdir_twice target_dir subdir_name w p w' :
  create_target_subdir target_dir subdir_name w = (Ok p, w') ->
  create_target_subdir target_dir subdir_name w' = (Ok p, w').
Proof.
  intros [-> H]%create_target_subdir_ok.
  apply Path_mkdir_idempotent in H as [H _].
  unfold create_target_subdir, bind, try_except, ret. by rewrite H.
Qed.


(** [rpartition], [basename], [join] *)
Lemma rpartition_None sep s : OS.rpartition sep s = None <-> sep ∉ s.
Proof.
  induction s as [|c s IH]; simpl.
  - split; [intros _; apply not_elem_of_nil|done].
  - destruct (OS.rpartition sep s) as [[a b]|].
    + split; [done|]. intros H. apply not_elem_of_cons in H as [_ H].
      by apply IH in H.
    + destruct (N.eqb_spec c sep) as [->|Hne].
      * split; [done|]. intros H. exfalso. apply H. by left.
      * split; [|done]. intros _. apply not_elem_of_cons. split; [done|].
        by apply IH.
Qed.

Lemma rpartition_Some sep s a b :
  OS.rpartition sep s = Some (a, b) -> s = a ++ sep :: b /\ sep ∉ b.
Proof.
  revert a. induction s as [|c s IH]; intros a; simpl; [done|].
  destruct (OS.rpartition sep s) as [[a' b']|] eqn:E.
  - intros [= <- <-]. destruct (IH a' eq_refl) as [-> H]. done.
  - destruct (N.eqb_spec c sep) as [->|Hne]; [|done].
    intros [= <- <-]. split; [done|]. by apply rpartition_None.
Qed.

Lemma rpartition_app sep a b :
  sep ∉ b -> OS.rpartition sep (a ++ sep :: b) = Some (a, b).
Proof.
  intros Hb. induction a as [|c a IH]; simpl.
  - apply rpartition_None in Hb as ->. by rewrite N.eqb_refl.
  - by rewrite IH.
Qed.

Lemma basename_no_sep p : OS.SEP ∉ OS.basename p.
Proof.
  unfold OS.basename. destruct (OS.rpartition OS.SEP p) as [[a b]|] eqn:E.
  - by apply rpartition_Some in E as [_ H].
  - by apply rpartition_None.
Qed.

Lemma basename_plain name : OS.SEP ∉ name -> OS.basename name = name.
Proof. intros H. unfold OS.basename. by apply rpartition_None in H as ->. Qed.

Lemma basename_join d name :
  OS.SEP ∉ name -> OS.basename (OS.join d name) = name.
Proof.
  intros Hn. unfold OS.join.
  destruct (startswith [OS.SEP] name) eqn:E1.
  { destruct name as [|c name]; [done|].
    change (startswith [OS.SEP] (c :: name)) with ((OS.SEP =? c) && true) in E1.
    rewrite andb_true_r in E1. apply N.eqb_eq in E1 as <-.
    exfalso. apply Hn. by left. }
  destruct (negb (truthy d) || bool_decide (last d = Some OS.SEP)) eqn:E2.
  - apply orb_true_iff in E2 as [E2|E2].
    + destruct d; [|done]. by apply basename_plain.
    + apply bool_decide_eq_true in E2. apply last_Some in E2 as [d' ->].
      rewrite <- app_assoc. simpl. unfold OS.basename.
      by rewrite rpartition_app.
  - simpl. unfold OS.basename. by rewrite rpartition_app.
Qed.

(** [os.rename] *)
Lemma rename_ok src dst w w' :
  OS.rename src dst w = (Ok tt, w') ->
  exists ksrc kdst content,
    OS.resolve w src = inr ksrc
    /\ OS.node_at (fs w) ksrc = Some (File content)
    /\ OS.resolve w dst = inr kdst
    /\ OS.node_at (fs w) kdst <> Some Dir
    /\ w' = set_fs (<[kdst := File content]> (delete ksrc (fs w))) w.
Proof.
  unfold OS.rename. destruct (OS.resolve w src) as [?|ksrc]; [done|].
  destruct (OS.node_at (fs w) ksrc) as [[content|]|] eqn:E1; try done.
  destruct (OS.resolve w dst) as [?|kdst]; [done|].
  destruct (OS.node_at (fs w) kdst) as [[content'|]|] eqn:E2; try done;
    intros [= <-]; exists ksrc, kdst, content; by rewrite E2.
Qed.

Lemma keeps_dirs_rename f ksrc kdst content :
  OS.node_at f ksrc = Some (File content) -> OS.node_at f kdst <> Some Dir ->
  OS.keeps_dirs f (<[kdst := File content]> (delete ksrc f)).
Proof.
  intros Hs Hd k Hk. destruct k as [|c k]; [done|]. simpl in *.
  rewrite lookup_insert_ne by (intros ->; simpl in Hd; congruence).
  rewrite lookup_delete_ne by (intros ->; simpl in Hs; congruence). done.
Qed.

Lemma rename_moves src dst w w' content :
  OS.stat w src = inr (File content) ->
  OS.rename src dst w = (Ok tt, w') ->
  OS.stat w' dst = inr (File content)
  /\ (OS.resolve w src <> OS.resolve w dst -> OS.exists_ src w' = false).
Proof.
  intros Hstat (ksrc & kdst & content' & Hs & Hn & Hd & Hnd & ->)%rename_ok.
  unfold OS.stat in Hstat. rewrite Hs, Hn in Hstat. injection Hstat as ->.
  pose proof (keeps_dirs_rename _ _ _ _ Hn Hnd) as Hk.
  assert (Hkd : kdst <> []) by (by destruct kdst).
  split.
  - unfold OS.stat.
    rewrite (resolve_keeps_dirs w (set_fs _ w) dst kdst Hk eq_refl Hd). simpl.
    by rewrite node_at_insert.
  - intros Hne. unfold OS.exists_, OS.stat.
    rewrite (resolve_keeps_dirs w (set_fs _ w) src ksrc Hk eq_refl Hs). simpl.
    assert (ksrc <> kdst) by congruence.
    destruct ksrc as [|c ksrc]; [done|]. simpl.
    by rewrite lookup_insert_ne, lookup_delete_eq.
Qed.

Lemma move_file_to_directory_ok file_path d w1 w2 :
  OS.isdir d w1 = true ->
  OS.isdir (OS.join d (OS.basename file_path)) w1 = false ->
  move_file_to_directory file_path d w1 = (Ok tt, w2) ->
  OS.isfile file_path w1 = true
  /\ OS.rename file_path (OS.join d (OS.basename file_path)) w1 = (Ok tt, w2).
Proof.
  intros Hd Hdest. unfold move_file_to_directory.
  destruct (OS.isfile file_path w1); [|done]. simpl.
  unfold bind at 1. rewrite Hd. simpl. unfold ret at 1.
  unfold try_except, bind, OS.shutil_move. rewrite Hdest. unfold bind.
  destruct (OS.rename _ _ w1) as [[[]|e] w'] eqn:E.
  - by intros [= <-].
  - destruct (is_Exception e); simpl; unfold bind, print, raise; done.
Qed.

Lemma relocation_lands target_dir category file_path w d w1 w2 :
  create_target_subdir target_dir category w = (Ok d, w1) ->
  move_file_to_directory file_path d w1 = (Ok tt, w2) ->
  let destination_path := OS.join d (OS.basename file_path) in
  OS.isdir destination_path w1 = false ->
  d = Path_str (truediv (Path_of_str target_dir) category)
  /\ OS.basename destination_path = OS.basename file_path
  /\ exists content,
       OS.stat w1 file_path = inr (File content)
       /\ OS.stat w2 destination_path = inr (File content)
       /\ (OS.resolve w1 file_path <> OS.resolve w1 destination_path ->
           OS.exists_ file_path w2 = false).
Proof.
  intros Hc Hm dest Hdest.
  apply create_target_subdir_ok in Hc as [-> Hmk].
  apply Path_mkdir_idempotent in Hmk as [_ Hd].
  apply move_file_to_directory_ok in Hm as [Hfile Hren]; [|done..].
  split_and!; [done|apply basename_join, basename_no_sep|].
  unfold OS.isfile in Hfile.
  destruct (OS.stat w1 file_path) as [|[content|]] eqn:Hs; try done.
  exists content. split; [done|]. by apply rename_moves.
Qed.

End FileSystemLemmas.

Section PathlibLemmas.

Lemma split_no_sep_elem sep s c : c ∈ OS.split sep s -> sep ∉ c.
Proof.
  revert c. induction s as [|a s IH]; intros c; simpl.
  - intros ->%list_elem_of_singleton. apply not_elem_of_nil.
  - destruct (N.eqb_spec a sep) as [->|Hne].
    + intros [->|H]%elem_of_cons; [apply not_elem_of_nil|by apply IH].
    + pose proof (split_nonempty sep s) as Hn.
      destruct (OS.split sep s) as [|h t] eqn:E; [done|].
      intros [->|H]%elem_of_cons.
      * apply not_elem_of_cons. split; [done|]. apply IH. by left.
      * apply IH. by right.
Qed.

Lemma filter_keep_plain s :
  Forall plain (List.filter keep (OS.split OS.SEP s)).
Proof.
  apply Forall_forall. intros c Hc%list_elem_of_In%filter_In.
  destruct Hc as [Hin Hk]. apply list_elem_of_In, split_no_sep_elem in Hin.
  unfold keep in Hk. apply negb_true_iff, orb_false_iff in Hk as [H1 H2].
  apply bool_decide_eq_false in H1, H2. done.
Qed.

Lemma Path_of_str_normal s : normal (Path_of_str s).
Proof.
  split; [|apply filter_keep_plain]. unfold Path_of_str. cbn [root].
  destruct (startswith [OS.SEP; OS.SEP] s
            && negb (startswith [OS.SEP; OS.SEP; OS.SEP] s)); [auto|].
  destruct (startswith [OS.SEP] s); auto.
Qed.

Lemma truediv_normal p key : normal p -> normal (truediv p key).
Proof.
  intros [Hr Ht]. unfold truediv.
  destruct (startswith [OS.SEP] key); [apply Path_of_str_normal|].
  split; [done|]. simpl. apply Forall_app. split; [done|apply filter_keep_plain].
Qed.

Lemma filter_keep_all t : Forall plain t -> List.filter keep t = t.
Proof.
  induction 1 as [|c t (H1 & H2 & _) _ IH]; simpl; [done|].
  unfold keep at 1.
  rewrite (bool_decide_eq_false_2 _ H1), (bool_decide_eq_false_2 _ H2).
  simpl. by rewrite IH.
Qed.

Lemma split_join t :
  t <> [] -> Forall plain t -> OS.split OS.SEP (join [OS.SEP] t) = t.
Proof.
  induction t as [|c t IH]; [done|]. intros _ Hall.
  apply Forall_cons in Hall as [(_ & _ & Hc) Ht].
  destruct t as [|c' t].
  - simpl. by apply split_no_sep.
  - change (join [OS.SEP] (c :: c' :: t))
      with (c ++ OS.SEP :: join [OS.SEP] (c' :: t)).
    rewrite split_app, split_no_sep, IH by done. done.
Qed.

Lemma join_plain_head t :
  t <> [] -> Forall plain t ->
  exists a rest, join [OS.SEP] t = a :: rest /\ a <> OS.SEP.
Proof.
  destruct t as [|c t]; [done|]. intros _ Hall.
  apply Forall_cons in Hall as [(Hne & _ & Hc) _].
  destruct c as [|a c]; [done|].
  exists a. destruct t; simpl; eexists; (split; [done|]);
    intros ->; apply Hc; by left.
Qed.

Lemma join_ends t c : exists pre, join [OS.SEP] (t ++ [c]) = pre ++ c.
Proof.
  induction t as [|a t [pre IH]]; [by exists []|].
  exists (a ++ OS.SEP :: pre).
  change ((a :: t) ++ [c]) with (a :: (t ++ [c])).
  destruct (t ++ [c]) as [|x l] eqn:E; [by destruct t|].
  change (join [OS.SEP] (a :: x :: l)) with (a ++ OS.SEP :: join [OS.SEP] (x :: l)).
  rewrite IH. by rewrite <- app_assoc.
Qed.

Lemma plain_last c : plain c -> last c <> Some OS.SEP /\ last c <> None.
Proof.
  intros (Hne & _ & Hc). split.
  - intros [l' ->]%last_Some. apply Hc, elem_of_app. right. by left.
  - intros H%last_None. done.
Qed.

Lemma join_plain_last r t :
  t <> [] -> Forall plain t ->
  last (r ++ join [OS.SEP] t) <> Some OS.SEP /\ r ++ join [OS.SEP] t <> [].
Proof.
  intros Hne Hall. destruct t as [|c t _] using rev_ind; [done|].
  apply Forall_app in Hall as [_ Hc]. apply Forall_cons in Hc as [Hc _].
  destruct (join_ends t c) as [pre ->].
  destruct (plain_last c Hc) as [H1 H2]. rewrite !last_app.
  destruct (last c) eqn:E; [|done]. split; [done|].
  destruct c; [done|]. by destruct r, pre.
Qed.

(** Rendering a normal path and reading it back gives the same path. *)
Lemma split_root_join r t :
  (r = [] \/ r = [OS.SEP] \/ r = [OS.SEP; OS.SEP]) -> t <> [] ->
  Forall plain t ->
  List.filter keep (OS.split OS.SEP (r ++ join [OS.SEP] t)) = t.
Proof.
  intros Hr Hne Hall. pose proof (split_join t Hne Hall) as Hs.
  destruct Hr as [-> | [-> | ->]].
  - simpl. rewrite Hs. by apply filter_keep_all.
  - change ([OS.SEP] ++ join [OS.SEP] t) with ([] ++ OS.SEP :: join [OS.SEP] t).
    rewrite split_app, Hs. simpl. by apply filter_keep_all.
  - change ([OS.SEP; OS.SEP] ++ join [OS.SEP] t)
      with ([] ++ OS.SEP :: ([] ++ OS.SEP :: join [OS.SEP] t)).
    rewrite !split_app, Hs. simpl. by apply filter_keep_all.
Qed.


Lemma startswith_sep_false name : OS.SEP ∉ name -> startswith [OS.SEP] name = false.
Proof.
  destruct name as [|c name]; [done|]. intros H.
  change (startswith [OS.SEP] (c :: name)) with ((OS.SEP =? c) && true).
  rewrite andb_true_r. apply N.eqb_neq. intros <-. apply H. by left.
Qed.

Lemma startswith_sep_cons (p s : str) :
  startswith (OS.SEP :: p) (OS.SEP :: s) = startswith p s.
Proof. cbn [startswith]. by rewrite N.eqb_refl. Qed.

Lemma startswith_sep_other (p : str) (a : N) (s : str) :
  a <> OS.SEP -> startswith (OS.SEP :: p) (a :: s) = false.
Proof.
  intros H. cbn [startswith]. apply andb_false_iff. left.
  apply N.eqb_neq. congruence.
Qed.

Lemma filter_keep_name name :
  OS.SEP ∉ name -> tail (Path_of_str name) = List.filter keep [name].
Proof. intros H. unfold Path_of_str. cbn [tail]. by rewrite split_no_sep. Qed.

Lemma Path_of_join p name :
  normal p -> OS.SEP ∉ name ->
  Path_of_str (OS.join (Path_str p) name) = truediv p name.
Proof.
  intros [Hr Ht] Hn. destruct p as [r t]. cbn [root tail] in *.
  unfold truediv. rewrite (startswith_sep_false _ Hn). cbn [root tail].
  rewrite (filter_keep_name _ Hn). unfold OS.join.
  rewrite (startswith_sep_false _ Hn).
  destruct (decide (t = [])) as [->|Hne].
  - destruct Hr as [-> | [-> | ->]].
    + change (Path_str {| root := []; tail := [] |}) with [OS.DOT].
      change (negb (truthy [OS.DOT]) || bool_decide (last [OS.DOT] = Some OS.SEP))
        with false. cbv iota.
      unfold Path_of_str. f_equal.
      change ([OS.DOT] ++ [OS.SEP] ++ name) with ([OS.DOT] ++ OS.SEP :: name).
      rewrite split_app, List.filter_app, (split_no_sep _ name) by done. reflexivity.
    + change (Path_str {| root := [OS.SEP]; tail := [] |}) with [OS.SEP].
      change (negb (truthy [OS.SEP]) || bool_decide (last [OS.SEP] = Some OS.SEP))
        with true. cbv iota.
      unfold Path_of_str. f_equal.
      * change ([OS.SEP] ++ name) with (OS.SEP :: name).
        rewrite !startswith_sep_cons, (startswith_sep_false _ Hn). done.
      * change ([OS.SEP] ++ name) with ([] ++ OS.SEP :: name).
        rewrite split_app, (split_no_sep _ name) by done. reflexivity.
    + change (Path_str {| root := [OS.SEP; OS.SEP]; tail := [] |})
        with [OS.SEP; OS.SEP].
      change (negb (truthy [OS.SEP; OS.SEP])
              || bool_decide (last [OS.SEP; OS.SEP] = Some OS.SEP)) with true.
      cbv iota. unfold Path_of_str. f_equal.
      * change ([OS.SEP; OS.SEP] ++ name) with (OS.SEP :: OS.SEP :: name).
        rewrite !startswith_sep_cons, (startswith_sep_false _ Hn). done.
      * change ([OS.SEP; OS.SEP] ++ name)
          with ([] ++ OS.SEP :: ([] ++ OS.SEP :: name)).
        rewrite !split_app, (split_no_sep _ name) by done. reflexivity.
  - assert (Hstr : Path_str {| root := r; tail := t |} = r ++ join [OS.SEP] t).
    { unfold Path_str. cbn [root tail]. destruct r, t; done. }
    rewrite Hstr.
    destruct (join_plain_last r t Hne Ht) as [Hlast Hnonempty].
    assert (negb (truthy (r ++ join [OS.SEP] t))
            || bool_decide (last (r ++ join [OS.SEP] t) = Some OS.SEP) = false)
      as ->.
    { apply orb_false_iff. split.
      - by destruct (r ++ join [OS.SEP] t).
      - by apply bool_decide_eq_false. }
    unfold Path_of_str. f_equal.
    + destruct (join_plain_head t Hne Ht) as (a & rest & -> & Ha).
      destruct Hr as [-> | [-> | ->]]; cbn [app];
        rewrite ?startswith_sep_cons, ?(startswith_sep_other _ a) by done; done.
    + rewrite <- app_assoc.
      change (r ++ join [OS.SEP] t ++ [OS.SEP] ++ name)
        with (r ++ join [OS.SEP] t ++ OS.SEP :: name).
      rewrite app_assoc, split_app, List.filter_app.
      rewrite split_root_join, (split_no_sep _ name) by done. done.
Qed.

End PathlibLemmas.


(** ** Effects of the pipeline *)

Import MainSorter.

Section Combinators.

Context {A B : Type}.

Lemma only_exceptions_ret (a : A) : only_exceptions (ret a).
Proof. by intros w e w'. Qed.

Lemma only_exceptions_raise (e : exn) :
  is_Exception e = true -> only_exceptions (@raise A e).
Proof. intros He w e' w' [= <- _]. done. Qed.

Lemma only_exceptions_lift (r : result A) :
  (forall e, r = Raise e -> is_Exception e = true) -> only_exceptions (lift r).
Proof. intros H w e w' [= -> _]. by apply H. Qed.

Lemma only_exceptions_bind (m : M A) (k : A -> M B) :
  only_exceptions m -> (forall a, only_exceptions (k a)) ->
  only_exceptions (bind m k).
Proof.
  intros Hm Hk w e w'. unfold bind. destruct (m w) as [[a|e0] w1] eqn:E.
  - apply Hk.
  - intros [= <- <-]. by apply (Hm _ _ _ E).
Qed.

Lemma only_exceptions_bind_lift (r : result A) (k : A -> M B) :
  (forall e, r = Raise e -> is_Exception e = true) ->
  (forall a, r = Ok a -> only_exceptions (k a)) ->
  only_exceptions (bind (lift r) k).
Proof.
  intros Hr Hk w e w'. unfold bind, lift. destruct r as [a|e0].
  - by apply Hk.
  - intros [= <- _]. by apply Hr.
Qed.

Lemma only_exceptions_try (body : M A) (handler : exn -> M A) :
  only_exceptions body ->
  (forall e, is_Exception e = true -> only_exceptions (handler e)) ->
  only_exceptions (try_except body handler).
Proof.
  intros Hb Hh w e w'. unfold try_except.
  destruct (body w) as [[a|e0] w1] eqn:E; [done|].
  apply Hh. by apply (Hb _ _ _ E).
Qed.

Lemma only_exceptions_if (c : world -> bool) (m1 m2 : M A) :
  only_exceptions m1 -> only_exceptions m2 ->
  only_exceptions (fun w => if c w then m1 w else m2 w).
Proof. intros H1 H2 w e w'. destruct (c w); [apply H1|apply H2]. Qed.

Lemma returns_try (body : M A) (handler : exn -> M A) :
  only_exceptions body ->
  (forall e, is_Exception e = true -> returns (handler e)) ->
  returns (try_except body handler).
Proof.
  intros Hb Hh w. unfold try_except.
  destruct (body w) as [[a|e0] w1] eqn:E; [eauto|].
  apply Hh. by apply (Hb _ _ _ E).
Qed.

Lemma returns_bind (m : M A) (k : A -> M B) :
  returns m -> (forall a, returns (k a)) -> returns (bind m k).
Proof.
  intros Hm Hk w. unfold bind. destruct (Hm w) as (a & w1 & ->). apply Hk.
Qed.

Lemma returns_ret (a : A) : returns (ret a).
Proof. intros w. by exists a, w. Qed.

Lemma keeps_fs_ret (a : A) : keeps_fs (ret a).
Proof. by intros w r w' [= _ <-]. Qed.

Lemma keeps_fs_raise (e : exn) : keeps_fs (@raise A e).
Proof. by intros w r w' [= _ <-]. Qed.

Lemma keeps_fs_lift (r : result A) : keeps_fs (lift r).
Proof. by intros w r' w' [= _ <-]. Qed.

Lemma keeps_fs_bind (m : M A) (k : A -> M B) :
  keeps_fs m -> (forall a, keeps_fs (k a)) -> keeps_fs (bind m k).
Proof.
  intros Hm Hk w r w'. unfold bind. destruct (m w) as [[a|e0] w1] eqn:E.
  - intros H. destruct (Hm _ _ _ E) as [<- <-]. by apply (Hk a _ _ _ H).
  - intros [= _ <-]. by apply (Hm _ _ _ E).
Qed.

Lemma keeps_fs_try (body : M A) (handler : exn -> M A) :
  keeps_fs body -> (forall e, keeps_fs (handler e)) ->
  keeps_fs (try_except body handler).
Proof.
  intros Hb Hh w r w'. unfold try_except.
  destruct (body w) as [[a|e0] w1] eqn:E.
  - intros [= _ <-]. by apply (Hb _ _ _ E).
  - intros H. destruct (Hb _ _ _ E) as [<- <-]. by apply (Hh e0 _ _ _ H).
Qed.

Lemma keeps_fs_if (c : world -> bool) (m1 m2 : M A) :
  keeps_fs m1 -> keeps_fs m2 ->
  keeps_fs (fun w => if c w then m1 w else m2 w).
Proof. intros H1 H2 w r w'. destruct (c w); [apply H1|apply H2]. Qed.

Lemma respects_files_ret (a : A) : respects_files (ret a).
Proof. by intros w1 w2 H. Qed.

Lemma respects_files_raise (e : exn) : respects_files (@raise A e).
Proof. by intros w1 w2 H. Qed.

Lemma respects_files_lift (r : result A) : respects_files (lift r).
Proof. by intros w1 w2 H. Qed.

Lemma respects_files_bind (m : M A) (k : A -> M B) :
  respects_files m -> (forall a, respects_files (k a)) ->
  respects_files (bind m k).
Proof.
  intros Hm Hk w1 w2 H. unfold bind. destruct (Hm _ _ H) as [Hr Hw].
  destruct (m w1) as [[a|e] w1'], (m w2) as [[a'|e'] w2']; simpl in *;
    try discriminate.
  - injection Hr as <-. by apply Hk.
  - by injection Hr as <-.
Qed.

Lemma respects_files_try (body : M A) (handler : exn -> M A) :
  respects_files body -> (forall e, respects_files (handler e)) ->
  respects_files (try_except body handler).
Proof.
  intros Hb Hh w1 w2 H. unfold try_except. destruct (Hb _ _ H) as [Hr Hw].
  destruct (body w1) as [[a|e] w1'], (body w2) as [[a'|e'] w2']; simpl in *;
    try discriminate.
  - by injection Hr as <-.
  - injection Hr as <-. by apply Hh.
Qed.

Lemma respects_files_if (c : world -> bool) (m1 m2 : M A) :
  (forall w1 w2, same_files w1 w2 -> c w1 = c w2) ->
  respects_files m1 -> respects_files m2 ->
  respects_files (fun w => if c w then m1 w else m2 w).
Proof.
  intros Hc H1 H2 w1 w2 H. rewrite (Hc _ _ H).
  destruct (c w2); [by apply H1|by apply H2].
Qed.

End Combinators.

Section Primitives.

Lemma os_error_is_Exception (e : OS.errno) (p : str) :
  is_Exception (OS.os_error e p) = true.
Proof. by destruct e. Qed.

Lemma os_error_is_OSError (e : OS.errno) (p : str) :
  is_OSError (OS.os_error e p) = true.
Proof. by destruct e. Qed.

Lemma OSError_is_Exception (e : exn) : is_OSError e = true -> is_Exception e = true.
Proof. destruct e as [[] ? ?]; done. Qed.

Lemma resolve_same_files (w1 w2 : world) (p : str) :
  same_files w1 w2 -> OS.resolve w1 p = OS.resolve w2 p.
Proof. intros [Hf Hc]. unfold OS.resolve. by rewrite Hf, Hc. Qed.

Lemma stat_same_files (w1 w2 : world) (p : str) :
  same_files w1 w2 -> OS.stat w1 p = OS.stat w2 p.
Proof.
  intros H. unfold OS.stat. rewrite (resolve_same_files _ _ _ H).
  destruct H as [-> _]. done.
Qed.

Lemma isfile_same_files (p : str) (w1 w2 : world) :
  same_files w1 w2 -> OS.isfile p w1 = OS.isfile p w2.
Proof. intros H. unfold OS.isfile. by rewrite (stat_same_files _ _ _ H). Qed.

Lemma isdir_same_files (p : str) (w1 w2 : world) :
  same_files w1 w2 -> OS.isdir p w1 = OS.isdir p w2.
Proof. intros H. unfold OS.isdir. by rewrite (stat_same_files _ _ _ H). Qed.

Lemma exists_same_files (p : str) (w1 w2 : world) :
  same_files w1 w2 -> OS.exists_ p w1 = OS.exists_ p w2.
Proof. intros H. unfold OS.exists_. by rewrite (stat_same_files _ _ _ H). Qed.

(** [print], [logger] *)
Lemma print_spec (line : str) :
  returns (print line) /\ keeps_fs (print line) /\ respects_files (print line)
  /\ only_exceptions (print line).
Proof.
  split_and!.
  - intros w. by eexists _, _.
  - by intros w r w' [= _ <-].
  - by intros w1 w2 H.
  - by intros w e w'.
Qed.

Lemma logger_spec (lvl : log_level) (msg : str) :
  returns (logger lvl msg) /\ keeps_fs (logger lvl msg)
  /\ respects_files (logger lvl msg) /\ only_exceptions (logger lvl msg).
Proof.
  split_and!.
  - intros w. by eexists _, _.
  - by intros w r w' [= _ <-].
  - by intros w1 w2 H.
  - by intros w e w'.
Qed.

Lemma read_file_spec (p : str) :
  keeps_fs (OS.read_file p) /\ respects_files (OS.read_file p)
  /\ only_exceptions (OS.read_file p).
Proof.
  unfold OS.read_file. split_and!.
  - intros w r w'. destruct (OS.stat w p) as [e|[c|]]; by intros [= _ <-].
  - intros w1 w2 H. rewrite (stat_same_files _ _ _ H).
    destruct (OS.stat w2 p) as [e|[c|]]; done.
  - intros w e w'. destruct (OS.stat w p) as [e0|[c|]]; [| |];
      intros [= <- _]; first [apply os_error_is_Exception|reflexivity].
Qed.

Lemma mkdir_spec (p : str) :
  respects_files (OS.mkdir p) /\ only_exceptions (OS.mkdir p).
Proof.
  unfold OS.mkdir. split.
  - intros w1 w2 H. rewrite (resolve_same_files _ _ _ H).
    destruct H as [Hf Hc]. rewrite Hf.
    destruct (OS.resolve w2 p) as [e|k]; [done|].
    destruct (OS.node_at (fs w2) k); done.
  - intros w e w'. destruct (OS.resolve w p) as [e0|k].
    + intros [= <- _]. first [apply os_error_is_Exception|reflexivity].
    + destruct (OS.node_at (fs w) k); [|done]. intros [= <- _].
      reflexivity.
Qed.

Lemma rename_spec (src dst : str) :
  respects_files (OS.rename src dst) /\ only_exceptions (OS.rename src dst).
Proof.
  unfold OS.rename. split.
  - intros w1 w2 H. rewrite !(resolve_same_files _ _ _ H).
    destruct H as [Hf Hc]. rewrite Hf.
    destruct (OS.resolve w2 src) as [e|k]; [done|].
    destruct (OS.node_at (fs w2) k) as [[c|]|]; try done.
    destruct (OS.resolve w2 dst) as [e|k']; [done|].
    destruct (OS.node_at (fs w2) k') as [[c'|]|]; done.
  - intros w e w'. destruct (OS.resolve w src) as [e0|k].
    { intros [= <- _]. first [apply os_error_is_Exception|reflexivity]. }
    destruct (OS.node_at (fs w) k) as [[c|]|];
      try (intros [= <- _]; reflexivity).
    destruct (OS.resolve w dst) as [e0|k'].
    { intros [= <- _]. first [apply os_error_is_Exception|reflexivity]. }
    destruct (OS.node_at (fs w) k') as [[c'|]|]; try done.
    intros [= <- _]. reflexivity.
Qed.

End Primitives.

Lemma negb_same_files (c : world -> bool) (w1 w2 : world) :
  c w1 = c w2 -> negb (c w1) = negb (c w2).
Proof. by intros ->. Qed.

Ltac effects_step :=
  first
    [ apply only_exceptions_ret | apply only_exceptions_bind_lift
    | apply only_exceptions_bind
    | apply only_exceptions_try | apply only_exceptions_if
    | apply only_exceptions_raise | apply only_exceptions_lift
    | apply returns_ret | apply returns_bind | apply returns_try
    | apply keeps_fs_ret | apply keeps_fs_raise | apply keeps_fs_lift
    | apply keeps_fs_bind | apply keeps_fs_try | apply keeps_fs_if
    | apply respects_files_ret | apply respects_files_raise
    | apply respects_files_lift | apply respects_files_bind
    | apply respects_files_try | apply respects_files_if
    | apply print_spec | apply logger_spec | apply read_file_spec
    | apply mkdir_spec | apply rename_spec
    | apply negb_same_files
    | apply isfile_same_files | apply isdir_same_files
    | apply exists_same_files
    | apply os_error_is_Exception
    | reflexivity
    | assumption
    | discriminate
    | progress intros
    | match goal with
      | H : is_OSError ?e = true |- is_Exception ?e = true =>
          apply OSError_is_Exception, H
      | H : Raise _ = Raise ?e |- is_Exception ?e = true =>
          injection H as <-; first [reflexivity | assumption]
      | |- context [if ?b then _ else _] => destruct b eqn:?
      | |- context [match ?x with Some _ => _ | None => _ end] =>
          destruct x eqn:?
      end ].

Ltac effects := repeat effects_step.

Section FileUtilsEffects.

Lemma shutil_move_spec (src dst : str) :
  respects_files (OS.shutil_move src dst)
  /\ only_exceptions (OS.shutil_move src dst).
Proof.
  unfold OS.shutil_move. split; effects.
Qed.

Lemma mkdir_noparents_spec (self : Path) :
  respects_files (mkdir_noparents self) /\ only_exceptions (mkdir_noparents self).
Proof. unfold mkdir_noparents, is_dir. split; effects. Qed.

Lemma mkdir_parents_spec (root : str) (rtail : list str) :
  respects_files (mkdir_parents root rtail)
  /\ only_exceptions (mkdir_parents root rtail).
Proof.
  induction rtail as [|c rtail [IH1 IH2]]; rewrite mkdir_parents_unfold;
    unfold is_dir; cbv zeta.
  - split; effects.
  - split; effects; by (apply IH1 || apply IH2 || apply mkdir_noparents_spec).
Qed.

Lemma create_target_subdir_spec (target_dir subdir_name : str) :
  respects_files (create_target_subdir target_dir subdir_name)
  /\ only_exceptions (create_target_subdir target_dir subdir_name).
Proof.
  unfold create_target_subdir, Path_mkdir.
  split; effects; apply mkdir_parents_spec.
Qed.

Lemma move_file_to_directory_spec (source_file_path target_dir_path : str) :
  respects_files (move_file_to_directory source_file_path target_dir_path)
  /\ only_exceptions (move_file_to_directory source_file_path target_dir_path).
Proof.
  unfold move_file_to_directory, Path_mkdir.
  split; effects; try apply mkdir_parents_spec; try apply shutil_move_spec.
Qed.

End FileUtilsEffects.

Section ExtractorEffects.

Context (L : libraries).

Lemma pdf_pages_loop_raises_elem pages full_text e :
  pdf_pages_loop pages full_text = Raise e -> Raise e ∈ pages.
Proof.
  revert full_text. induction pages as [|[t|e'] pages IH]; intros acc; simpl.
  - done.
  - intros H%IH. by right.
  - intros [= ->]. by left.
Qed.

Lemma excel_workbook_loop_raises workbook sheetnames full_text e :
  excel_workbook_loop L workbook sheetnames full_text = Raise e ->
  is_Exception e = true.
Proof.
  revert full_text. induction sheetnames as [|n names IH]; intros acc; simpl.
  - done.
  - unfold workbook_getitem. destruct (List.find _ workbook).
    + apply IH.
    + by intros [= <-].
Qed.

Lemma wrap_extraction_error_keeps_fs {A} message e :
  keeps_fs (@wrap_extraction_error A message e).
Proof. unfold wrap_extraction_error. effects. Qed.

Lemma wrap_extraction_error_respects {A} message e :
  respects_files (@wrap_extraction_error A message e).
Proof. unfold wrap_extraction_error. effects. Qed.

Lemma wrap_extraction_error_only_exceptions {A} message e :
  is_Exception e = true -> only_exceptions (@wrap_extraction_error A message e).
Proof. intros H. unfold wrap_extraction_error. rewrite H. by apply only_exceptions_raise. Qed.

Lemma extract_text_keeps_fs file_path : keeps_fs (extract_text L file_path).
Proof.
  unfold extract_text, extract_text_dispatch, extract_text_handler,
    _extract_text_from_docx, _extract_text_from_pdf, _extract_text_from_excel,
    _extract_text_from_pptx.
  effects; apply wrap_extraction_error_keeps_fs.
Qed.

Lemma extract_text_respects file_path : respects_files (extract_text L file_path).
Proof.
  unfold extract_text, extract_text_dispatch, extract_text_handler,
    _extract_text_from_docx, _extract_text_from_pdf, _extract_text_from_excel,
    _extract_text_from_pptx.
  effects; apply wrap_extraction_error_respects.
Qed.

Lemma extract_text_only_exceptions file_path :
  raise_exceptions_only L -> only_exceptions (extract_text L file_path).
Proof.
  intros (Hdoc & Hpdf & Hpage & Hxl & Hppt).
  unfold extract_text, extract_text_dispatch, extract_text_handler,
    _extract_text_from_docx, _extract_text_from_pdf, _extract_text_from_excel,
    _extract_text_from_pptx.
  effects; try (by apply wrap_extraction_error_only_exceptions);
    eauto using pdf_pages_loop_raises_elem, excel_workbook_loop_raises.
Qed.

End ExtractorEffects.

Section NoAttempt.

Context {A B : Type}.

Lemma no_attempt_ret (a : A) : no_attempt (ret a).
Proof. by intros w r w' [= _ <-]. Qed.

Lemma no_attempt_raise (e : exn) : no_attempt (@raise A e).
Proof. by intros w r w' [= _ <-]. Qed.

Lemma no_attempt_lift (r : result A) : no_attempt (lift r).
Proof. by intros w r' w' [= _ <-]. Qed.

Lemma no_attempt_bind (m : M A) (k : A -> M B) :
  no_attempt m -> (forall a, no_attempt (k a)) -> no_attempt (bind m k).
Proof.
  intros Hm Hk w r w'. unfold bind. destruct (m w) as [[a|e0] w1] eqn:E.
  - intros H. rewrite <- (Hm _ _ _ E). by apply (Hk a _ _ _ H).
  - intros [= _ <-]. by apply (Hm _ _ _ E).
Qed.

Lemma no_attempt_try (body : M A) (handler : exn -> M A) :
  no_attempt body -> (forall e, no_attempt (handler e)) ->
  no_attempt (try_except body handler).
Proof.
  intros Hb Hh w r w'. unfold try_except.
  destruct (body w) as [[a|e0] w1] eqn:E.
  - intros [= _ <-]. by apply (Hb _ _ _ E).
  - intros H. rewrite <- (Hb _ _ _ E). by apply (Hh e0 _ _ _ H).
Qed.

Lemma no_attempt_if (c : world -> bool) (m1 m2 : M A) :
  no_attempt m1 -> no_attempt m2 ->
  no_attempt (fun w => if c w then m1 w else m2 w).
Proof. intros H1 H2 w r w'. destruct (c w); [apply H1|apply H2]. Qed.

(** A computation that leaves the log as it is writes no such record. *)
Lemma no_attempt_same_log (m : M A) :
  (forall w r w', m w = (r, w') -> log w' = log w) -> no_attempt m.
Proof. intros H w r w' E. by rewrite (H _ _ _ E). Qed.

End NoAttempt.

Lemma attempts_app l1 l2 : attempts (l1 ++ l2) = attempts l1 ++ attempts l2.
Proof. unfold attempts. apply omap_app. Qed.

Lemma no_attempt_logger lvl msg :
  startswith (u "Processing file: ") msg = false -> no_attempt (logger lvl msg).
Proof.
  intros H w r w' [= _ <-]. cbn [log]. rewrite attempts_app.
  unfold attempts at 2. cbn -[startswith u drop]. rewrite H.
  destruct lvl; by rewrite app_nil_r.
Qed.

Lemma attempts_processing w file_path :
  attempts (log (logger INFO (u "Processing file: " ++ file_path) w).2)
  = attempts (log w) ++ [file_path].
Proof. cbn [logger snd log]. rewrite attempts_app. done. Qed.

Section NoAttemptPrimitives.

Lemma no_attempt_print line : no_attempt (print line).
Proof. apply no_attempt_same_log. by intros w r w' [= _ <-]. Qed.

Lemma no_attempt_read_file p : no_attempt (OS.read_file p).
Proof.
  apply no_attempt_same_log. intros w r w'. unfold OS.read_file.
  destruct (OS.stat w p) as [e|[c|]]; by intros [= _ <-].
Qed.

Lemma no_attempt_mkdir p : no_attempt (OS.mkdir p).
Proof.
  apply no_attempt_same_log. intros w r w'. unfold OS.mkdir.
  destruct (OS.resolve w p) as [e|k]; [by intros [= _ <-]|].
  destruct (OS.node_at (fs w) k); by intros [= _ <-].
Qed.

Lemma no_attempt_rename src dst : no_attempt (OS.rename src dst).
Proof.
  apply no_attempt_same_log. intros w r w'. unfold OS.rename.
  destruct (OS.resolve w src) as [e|k]; [by intros [= _ <-]|].
  destruct (OS.node_at (fs w) k) as [[c|]|]; try by intros [= _ <-].
  destruct (OS.resolve w dst) as [e|k']; [by intros [= _ <-]|].
  destruct (OS.node_at (fs w) k') as [[c'|]|]; by intros [= _ <-].
Qed.

End NoAttemptPrimitives.

Ltac effects_step ::=
  first
    [ apply only_exceptions_ret | apply only_exceptions_bind_lift
    | apply only_exceptions_bind
    | apply only_exceptions_try | apply only_exceptions_if
    | apply only_exceptions_raise | apply only_exceptions_lift
    | apply returns_ret | apply returns_bind | apply returns_try
    | apply keeps_fs_ret | apply keeps_fs_raise | apply keeps_fs_lift
    | apply keeps_fs_bind | apply keeps_fs_try | apply keeps_fs_if
    | apply respects_files_ret | apply respects_files_raise
    | apply respects_files_lift | apply respects_files_bind
    | apply respects_files_try | apply respects_files_if
    | apply no_attempt_ret | apply no_attempt_raise | apply no_attempt_lift
    | apply no_attempt_bind | apply no_attempt_try | apply no_attempt_if
    | apply no_attempt_print | apply no_attempt_read_file
    | apply no_attempt_mkdir | apply no_attempt_rename
    | apply no_attempt_logger
    | apply print_spec | apply logger_spec | apply read_file_spec
    | apply mkdir_spec | apply rename_spec
    | apply negb_same_files
    | apply isfile_same_files | apply isdir_same_files
    | apply exists_same_files
    | apply os_error_is_Exception
    | reflexivity
    | assumption
    | discriminate
    | progress intros
    | match goal with
      | H : is_OSError ?e = true |- is_Exception ?e = true =>
          apply OSError_is_Exception, H
      | H : Raise _ = Raise ?e |- is_Exception ?e = true =>
          injection H as <-; first [reflexivity | assumption]
      | |- context [if ?b then _ else _] => destruct b eqn:?
      | |- context [match ?x with Some _ => _ | None => _ end] =>
          destruct x eqn:?
      end ].

Ltac effects_using tac := repeat first [tac | effects_step].

Section SorterEffects.

Context (L : libraries).

Lemma no_attempt_mkdir_parents root rtail : no_attempt (mkdir_parents root rtail).
Proof.
  induction rtail as [|c rtail IH]; rewrite mkdir_parents_unfold;
    unfold is_dir, mkdir_noparents; cbv zeta;
    effects_using ltac:(apply IH).
Qed.

Lemma no_attempt_create_target_subdir target_dir subdir_name :
  no_attempt (create_target_subdir target_dir subdir_name).
Proof.
  unfold create_target_subdir, Path_mkdir.
  effects_using ltac:(apply no_attempt_mkdir_parents).
Qed.

Lemma no_attempt_move_file_to_directory src d :
  no_attempt (move_file_to_directory src d).
Proof.
  unfold move_file_to_directory, Path_mkdir, OS.shutil_move.
  effects_using ltac:(apply no_attempt_mkdir_parents).
Qed.

Lemma no_attempt_extract_text file_path : no_attempt (extract_text L file_path).
Proof.
  unfold extract_text, extract_text_dispatch, extract_text_handler,
    _extract_text_from_docx, _extract_text_from_pdf, _extract_text_from_excel,
    _extract_text_from_pptx, wrap_extraction_error.
  effects.
Qed.

(** The block "Text Extraction" *)
Lemma extraction_block_spec file_path file_name file_ext :
  keeps_fs (extraction_block L file_path file_name file_ext)
  /\ respects_files (extraction_block L file_path file_name file_ext)
  /\ no_attempt (extraction_block L file_path file_name file_ext)
  /\ (raise_exceptions_only L ->
      returns (extraction_block L file_path file_name file_ext)).
Proof.
  unfold extraction_block. split_and!.
  - effects_using ltac:(apply extract_text_keeps_fs).
  - effects_using ltac:(apply extract_text_respects).
  - effects_using ltac:(apply no_attempt_extract_text).
  - intros HL. effects_using ltac:(by apply extract_text_only_exceptions).
Qed.

(** The block "File Organization" *)
Lemma organization_block_spec target_dir file_path file_name category :
  respects_files (organization_block target_dir file_path file_name category)
  /\ no_attempt (organization_block target_dir file_path file_name category)
  /\ returns (organization_block target_dir file_path file_name category).
Proof.
  unfold organization_block. split_and!.
  - effects_using ltac:(first [apply create_target_subdir_spec
                               |apply move_file_to_directory_spec]).
  - effects_using ltac:(first [apply no_attempt_create_target_subdir
                               |apply no_attempt_move_file_to_directory]).
  - effects_using ltac:(first [apply create_target_subdir_spec
                               |apply move_file_to_directory_spec]).
Qed.

End SorterEffects.

Section Grows.

Context {A B : Type}.

Lemma keeps_fs_grows (m : M A) : keeps_fs m -> grows m.
Proof. intros H w r w' E. destruct (H _ _ _ E) as [-> ->]. done. Qed.

Lemma grows_bind (m : M A) (k : A -> M B) :
  grows m -> (forall a, grows (k a)) -> grows (bind m k).
Proof.
  intros Hm Hk w r w'. unfold bind. destruct (m w) as [[a|e0] w1] eqn:E.
  - intros H. destruct (Hm _ _ _ E) as [H1 H2], (Hk a _ _ _ H) as [H3 H4].
    split; [by etrans|congruence].
  - intros [= _ <-]. by apply (Hm _ _ _ E).
Qed.

Lemma grows_try (body : M A) (handler : exn -> M A) :
  grows body -> (forall e, grows (handler e)) -> grows (try_except body handler).
Proof.
  intros Hb Hh w r w'. unfold try_except.
  destruct (body w) as [[a|e0] w1] eqn:E.
  - intros [= _ <-]. by apply (Hb _ _ _ E).
  - intros H. destruct (Hb _ _ _ E) as [H1 H2], (Hh e0 _ _ _ H) as [H3 H4].
    split; [by etrans|congruence].
Qed.

Lemma grows_if (c : world -> bool) (m1 m2 : M A) :
  grows m1 -> grows m2 -> grows (fun w => if c w then m1 w else m2 w).
Proof. intros H1 H2 w r w'. destruct (c w); [apply H1|apply H2]. Qed.

End Grows.

Section GrowsFileUtils.

Lemma grows_mkdir p : grows (OS.mkdir p).
Proof.
  intros w r w'. unfold OS.mkdir.
  destruct (OS.resolve w p) as [e|k]; [by intros [= _ <-]|].
  destruct (OS.node_at (fs w) k) eqn:E; intros [= _ <-]; [done|].
  split; [|done]. simpl. apply insert_subseteq.
  destruct k; [done|]. done.
Qed.

Lemma grows_ret {A} (a : A) : grows (ret a).
Proof. apply keeps_fs_grows, keeps_fs_ret. Qed.

Lemma grows_raise {A} (e : exn) : grows (@raise A e).
Proof. apply keeps_fs_grows, keeps_fs_raise. Qed.

Lemma grows_print line : grows (print line).
Proof. apply keeps_fs_grows, print_spec. Qed.

Lemma grows_logger lvl msg : grows (logger lvl msg).
Proof. apply keeps_fs_grows, logger_spec. Qed.

Ltac grows_step :=
  first [ apply grows_ret | apply grows_raise | apply grows_print
        | apply grows_logger | apply grows_mkdir
        | apply grows_bind | apply grows_try | apply grows_if
        | progress intros
        | match goal with
          | |- context [if ?b then _ else _] => destruct b eqn:?
          end ].

Lemma grows_mkdir_noparents self : grows (mkdir_noparents self).
Proof. unfold mkdir_noparents, is_dir. repeat grows_step. Qed.

Lemma grows_mkdir_parents root rtail : grows (mkdir_parents root rtail).
Proof.
  induction rtail as [|c rtail IH]; rewrite mkdir_parents_unfold;
    unfold is_dir; cbv zeta;
    repeat first [apply IH | apply grows_mkdir_noparents | grows_step].
Qed.

Lemma grows_create_target_subdir target_dir subdir_name :
  grows (create_target_subdir target_dir subdir_name).
Proof.
  unfold create_target_subdir, Path_mkdir.
  repeat first [apply grows_mkdir_parents | grows_step].
Qed.

Lemma rename_fails_in_place src dst : fails_in_place (OS.rename src dst).
Proof.
  intros w e w'. unfold OS.rename.
  destruct (OS.resolve w src) as [?|k]; [by intros [= _ <-]|].
  destruct (OS.node_at (fs w) k) as [[c|]|]; try by intros [= _ <-].
  destruct (OS.resolve w dst) as [?|k']; [by intros [= _ <-]|].
  destruct (OS.node_at (fs w) k') as [[c'|]|]; by intros [= _ <-] || done.
Qed.

Lemma shutil_move_fails_in_place src dst : fails_in_place (OS.shutil_move src dst).
Proof.
  intros w e w'. unfold OS.shutil_move, bind, ret.
  destruct (OS.isdir dst w).
  - destruct (OS.exists_ _ w); [by intros [= _ <-]|].
    destruct (OS.rename _ _ w) as [[[]|e0] w1] eqn:E; [done|].
    intros [= _ <-]. by apply (rename_fails_in_place _ _ _ _ _ E).
  - destruct (OS.rename _ _ w) as [[[]|e0] w1] eqn:E; [done|].
    intros [= _ <-]. by apply (rename_fails_in_place _ _ _ _ _ E).
Qed.

Lemma bind_raises_grows {A B} (m : M A) (k : A -> M B) w e w' :
  grows m -> (forall a, fails_in_place (k a)) ->
  bind m k w = (Raise e, w') -> fs w ⊆ fs w' /\ cwd w' = cwd w.
Proof.
  intros Hm Hk. unfold bind. destruct (m w) as [[a|e0] w1] eqn:E.
  - intros H. destruct (Hm _ _ _ E) as [H1 H2], (Hk a _ _ _ H) as [H3 H4].
    rewrite H3, H4. done.
  - intros [= _ <-]. by apply (Hm _ _ _ E).
Qed.

Lemma move_step_fails_in_place src dst (handler_print : exn -> str) :
  fails_in_place
    (try_except (let! _ := OS.shutil_move src dst in ret tt)
       (fun e => if is_Exception e
                 then do! print (handler_print e) in raise e
                 else raise e)).
Proof.
  intros w e w'. unfold try_except, bind, ret.
  destruct (OS.shutil_move src dst w) as [[x|e1] w1] eqn:E; [done|].
  destruct (shutil_move_fails_in_place _ _ _ _ _ E) as [H1 H2].
  destruct (is_Exception e1); unfold print, raise; intros [= _ <-]; done.
Qed.

Lemma move_file_to_directory_raises_grows src d w e w' :
  move_file_to_directory src d w = (Raise e, w') ->
  fs w ⊆ fs w' /\ cwd w' = cwd w.
Proof.
  unfold move_file_to_directory.
  destruct (OS.isfile src w); cbn [negb]; [|by intros [= _ <-]].
  apply bind_raises_grows.
  - unfold Path_mkdir. repeat first [apply grows_mkdir_parents | grows_step].
  - intros _.
    apply (move_step_fails_in_place src (OS.join d (OS.basename src))
             (fun e => u "Error moving file '" ++ src ++ u "' to '"
                       ++ OS.join d (OS.basename src) ++ u "': " ++ exn_str e)).
Qed.

End GrowsFileUtils.

Ltac destruct_sum :=
  match goal with
  | |- context [match ?x with inl _ => _ | inr _ => _ end] => destruct x
  end.

Section SorterLemmas.

Context (L : libraries).

Lemma same_files_refl w : same_files w w.
Proof. done. Qed.

Lemma same_files_trans w1 w2 w3 :
  same_files w1 w2 -> same_files w2 w3 -> same_files w1 w3.
Proof. intros [? ?] [? ?]. split; congruence. Qed.

Lemma same_files_sym w1 w2 : same_files w1 w2 -> same_files w2 w1.
Proof. intros [? ?]. by split. Qed.

Lemma logger_same_files lvl msg w : same_files w (logger lvl msg w).2.
Proof. done. Qed.

Lemma stat_subseteq w w' p n :
  fs w ⊆ fs w' -> cwd w' = cwd w ->
  OS.stat w p = inr n -> OS.stat w' p = inr n.
Proof.
  intros Hsub Hcwd. unfold OS.stat.
  destruct (OS.resolve w p) as [e|k] eqn:E; [done|].
  assert (Hnode : forall k n, OS.node_at (fs w) k = Some n ->
                              OS.node_at (fs w') k = Some n).
  { intros [|c k'] n'; [done|]. simpl. intros H.
    by apply (lookup_weaken (fs w)). }
  rewrite (resolve_keeps_dirs w w' p k); [|by intros k'; apply Hnode|done..].
  destruct (OS.node_at (fs w) k) eqn:E2; [|done].
  intros [= <-]. by rewrite (Hnode _ _ E2).
Qed.

Lemma splitext_basename p : (OS.splitext (OS.basename p)).2 = (OS.splitext p).2.
Proof.
  unfold OS.splitext at 2, OS.basename.
  destruct (OS.rpartition OS.SEP p) as [[head name]|] eqn:E.
  - apply rpartition_Some in E as [_ Hn]. apply rpartition_None in Hn.
    unfold OS.splitext. rewrite Hn. by destruct (OS.splitext_name name).
  - unfold OS.splitext. by rewrite E.
Qed.

Lemma organization_block_inv target_dir file_path file_name category w o w' :
  organization_block target_dir file_path file_name category w = (Ok o, w') ->
  (exists d w1 w2,
      create_target_subdir target_dir category w = (Ok d, w1)
      /\ move_file_to_directory file_path d w1 = (Ok tt, w2)
      /\ o = Moved category d /\ same_files w2 w')
  \/ (o = MoveFailed category /\ fs w ⊆ fs w' /\ cwd w' = cwd w).
Proof.
  unfold organization_block, try_except. unfold bind at 1.
  destruct (create_target_subdir target_dir category w) as [[d|e] w1] eqn:Ec.
  - unfold bind at 1.
    destruct (move_file_to_directory file_path d w1) as [[[]|e] w2] eqn:Em.
    + unfold bind, logger, ret. intros [= <- <-]. left. by exists d, w1, w2.
    + destruct (grows_create_target_subdir _ _ _ _ _ Ec) as [H1 H2].
      destruct (move_file_to_directory_raises_grows _ _ _ _ _ Em) as [H3 H4].
      assert (fs w ⊆ fs w2) by (by etrans).
      assert (cwd w2 = cwd w) by congruence.
      destruct (is_FileNotFoundError e), (is_OSError e), (is_Exception e);
        unfold bind, logger, ret, raise; intros [= <- <-]; right; done.
  - destruct (grows_create_target_subdir _ _ _ _ _ Ec) as [H1 H2].
    destruct (is_FileNotFoundError e), (is_OSError e), (is_Exception e);
      unfold bind, logger, ret, raise; intros [= <- <-]; right; done.
Qed.

Lemma extraction_block_inl file_path file_name file_ext w o w' :
  extraction_block L file_path file_name file_ext w = (Ok (inl o), w') ->
  skipped o.
Proof.
  unfold extraction_block, try_except.
  destruct (negb (ext_in file_ext ALL_SUPPORTED_EXTENSIONS)).
  { unfold bind, logger, ret. by intros [= <- _]. }
  unfold bind at 1.
  destruct (extract_text L file_path w) as [[[text|]|e] w1].
  - destruct (negb (truthy (strip text)));
      unfold bind, logger, ret; by intros [= <- _].
  - unfold bind, logger, ret; by intros [= <- _].
  - destruct (is_TextExtractionError e), (is_FileNotFoundError e),
      (is_Exception e); unfold bind, logger, ret, raise; try done;
      by intros [= <- _].
Qed.

Lemma process_one_file_inv categorizer target_dir file_path w o w' :
  process_one_file L categorizer target_dir file_path w = (Ok o, w') ->
  (skipped o /\ same_files w w')
  \/ (exists text c wa,
        categorize_text categorizer text PREDEFINED_CATEGORIES = Some c
        /\ same_files w wa
        /\ organization_block target_dir file_path (OS.basename file_path) c wa
           = (Ok o, w')).
Proof.
  unfold process_one_file. unfold bind at 1. unfold logger at 1.
  set (w0 := {| fs := fs w; cwd := cwd w; stdout := stdout w;
                log := log w ++ [(INFO, u "Processing file: " ++ file_path)];
                reads := reads w |}).
  unfold bind at 1.
  destruct (extraction_block L file_path _ _ w0) as [[[o'|text]|e] wa] eqn:E;
    [| |done].
  - intros [= <- <-]. left. split; [by apply extraction_block_inl in E|].
    by destruct (proj1 (extraction_block_spec L _ _ _) _ _ _ E).
  - assert (Hsame : same_files w wa).
    { by destruct (proj1 (extraction_block_spec L _ _ _) _ _ _ E). }
    destruct (categorize_text categorizer text PREDEFINED_CATEGORIES)
      as [c|] eqn:Ec.
    + destruct (truthy c).
      * intros H. right. by exists text, c, wa.
      * unfold bind, logger, ret. intros [= <- <-]. left. by split.
    + unfold bind, logger, ret. intros [= <- <-]. left. by split.
Qed.

Lemma process_one_file_respects categorizer target_dir file_path :
  respects_files (process_one_file L categorizer target_dir file_path).
Proof.
  unfold process_one_file.
  effects_using ltac:(first [apply extraction_block_spec
                            |apply organization_block_spec
                            |destruct_sum]).
Qed.

Lemma process_one_file_returns categorizer target_dir file_path :
  raise_exceptions_only L ->
  returns (process_one_file L categorizer target_dir file_path).
Proof.
  intros HL. unfold process_one_file.
  effects_using ltac:(first [by apply extraction_block_spec
                            |apply organization_block_spec
                            |destruct_sum]).
Qed.

Lemma attempt_then {A} (file_path : str) (k : M A) w r w' :
  no_attempt k ->
  (do! logger INFO (u "Processing file: " ++ file_path) in k) w = (r, w') ->
  attempts (log w') = attempts (log w) ++ [file_path].
Proof.
  intros Hk. unfold bind at 1. rewrite <- attempts_processing.
  destruct (logger INFO _ w) as [[[]|e] w0] eqn:E; [|done]. apply Hk.
Qed.

Lemma process_one_file_attempt categorizer target_dir file_path w r w' :
  process_one_file L categorizer target_dir file_path w = (r, w') ->
  attempts (log w') = attempts (log w) ++ [file_path].
Proof.
  unfold process_one_file. apply attempt_then. cbv zeta.
  effects_using ltac:(first [apply extraction_block_spec
                            |apply organization_block_spec
                            |destruct_sum]).
Qed.

End SorterLemmas.

Section LoopLemmas.

Context (L : libraries).

Lemma categorize_text_Some_elem self text categories c :
  categorize_text self text categories = Some c ->
  c ∈ categories /\ is_Some (_category_keywords self !! c).
Proof.
  unfold categorize_text.
  destruct (negb (truthy text) || negb (truthy (strip text))); [done|].
  rewrite categorize_loop_find. intros H%find_Some_first.
  destruct H as (pre & post & -> & Hm & _). split.
  - apply elem_of_app. right. by left.
  - unfold category_matches in Hm.
    by destruct (_category_keywords self !! c).
Qed.

Lemma process_one_file_destination categorizer target_dir file_path w o w' :
  process_one_file L categorizer target_dir file_path w = (Ok o, w') ->
  destination_ok categorizer target_dir o.
Proof.
  intros [[Hs _]|(text & c & wa & Hc & _ & Hb)]%process_one_file_inv.
  - by destruct o.
  - apply categorize_text_Some_elem in Hc as [Hc1 Hc2].
    apply organization_block_inv in Hb
      as [(d & w1 & w2 & Hd & _ & -> & _)|[-> _]]; simpl; [|done].
    apply create_target_subdir_ok in Hd as [-> _]. done.
Qed.

Lemma process_one_file_in_place categorizer target_dir file_path w o w' :
  process_one_file L categorizer target_dir file_path w = (Ok o, w') ->
  (skipped o -> same_files w w')
  /\ (forall c, o = MoveFailed c ->
        forall p content, OS.stat w p = inr (File content) ->
                          OS.stat w' p = inr (File content)).
Proof.
  intros [[Hs Hw]|(text & c & wa & Hc & Hw & Hb)]%process_one_file_inv.
  - split; [done|]. intros c ->. done.
  - apply organization_block_inv in Hb
      as [(d & w1 & w2 & _ & _ & -> & _)|(-> & Hsub & Hcwd)].
    + split; [done|]. intros c' [=].
    + split; [done|]. intros c' _ p content Hp.
      apply (stat_subseteq wa); [done..|].
      by rewrite <- (stat_same_files w wa).
Qed.

Lemma extract_text_parser_failure file_path w bytes cause :
  OS.stat w file_path = inr (File bytes) ->
  parser_raises L (file_extension_of file_path) bytes cause ->
  is_Exception cause = true ->
  exists e, (extract_text L file_path w).1 = Raise e /\ wraps file_path e cause.
Proof.
  intros Hstat Hp Hc.
  destruct (extract_text_failures_wrapped L file_path w
              (stat_isfile _ _ _ Hstat)) as [_ H]. eauto.
Qed.

Lemma corrupt_outcome categorizer target_dir file_path w :
  corrupt L w file_path ->
  exists w', process_one_file L categorizer target_dir file_path w
             = (Ok ExtractionFailed, w') /\ same_files w w'.
Proof.
  intros (bytes & cause & Hstat & Hext & Hp & Hc).
  assert (exists w', process_one_file L categorizer target_dir file_path w
                     = (Ok ExtractionFailed, w')) as [w' Hw'].
  { unfold process_one_file. unfold bind at 1.
    destruct (logger INFO (u "Processing file: " ++ file_path) w)
      as [[[]|?] w0] eqn:E0; [|done].
    assert (Hs0 : same_files w w0) by (by injection E0 as <-).
    rewrite (stat_same_files _ _ file_path Hs0) in Hstat.
    destruct (extract_text_parser_failure _ _ _ _ Hstat Hp Hc)
      as (e & He & Hcls & _).
    unfold bind at 1, extraction_block, try_except.
    rewrite splitext_basename. fold (file_extension_of file_path).
    rewrite (proj2 (ext_in_true _ _) Hext). cbn [negb]. unfold bind at 1.
    destruct (extract_text L file_path w0) as [r w1]. simpl in He. subst r.
    unfold is_TextExtractionError. rewrite Hcls.
    unfold bind, logger, ret. eauto. }
  exists w'. split; [done|].
  by apply (process_one_file_in_place _ _ _ _ _ _ Hw').
Qed.

Lemma process_files_loop_app categorizer target_dir l1 l2 w os1 w1 os2 w2 :
  process_files_loop L categorizer target_dir l1 w = (Ok os1, w1) ->
  process_files_loop L categorizer target_dir l2 w1 = (Ok os2, w2) ->
  process_files_loop L categorizer target_dir (l1 ++ l2) w
  = (Ok (os1 ++ os2), w2).
Proof.
  revert w os1. induction l1 as [|f l1 IH]; intros w os1; simpl.
  - by intros [= <- <-].
  - unfold bind, ret.
    destruct (process_one_file L categorizer target_dir f w) as [[o|e] w0];
      [|done].
    destruct (process_files_loop L categorizer target_dir l1 w0)
      as [[os|e] w0'] eqn:E; [|done].
    intros [= <- <-] H2. by rewrite (IH _ _ E H2).
Qed.

Lemma process_files_loop_respects categorizer target_dir files :
  respects_files (process_files_loop L categorizer target_dir files).
Proof.
  induction files as [|f files IH]; simpl;
    effects_using ltac:(first [apply IH | apply process_one_file_respects]).
Qed.

Lemma process_files_loop_returns categorizer target_dir files w :
  raise_exceptions_only L ->
  exists outcomes w',
    process_files_loop L categorizer target_dir files w = (Ok outcomes, w')
    /\ length outcomes = length files
    /\ attempts (log w') = attempts (log w) ++ files.
Proof.
  intros HL. revert w. induction files as [|f files IH]; intros w; simpl.
  - exists [], w. by rewrite app_nil_r.
  - unfold bind at 1.
    destruct (process_one_file_returns L categorizer target_dir f HL w)
      as (o & w0 & E). rewrite E.
    apply process_one_file_attempt in E.
    destruct (IH w0) as (os & w' & E' & Hlen & Hat). unfold bind, ret.
    rewrite E'. exists (o :: os), w'. split_and!; [done|simpl; lia|].
    by rewrite Hat, E, <- app_assoc.
Qed.

Lemma process_files_loop_Forall categorizer target_dir (P : outcome -> Prop) :
  (forall file_path w o w',
     process_one_file L categorizer target_dir file_path w = (Ok o, w') -> P o) ->
  forall files w outcomes w',
    process_files_loop L categorizer target_dir files w = (Ok outcomes, w') ->
    Forall P outcomes.
Proof.
  intros HP files. induction files as [|f files IH]; intros w os w'; simpl.
  - by intros [= <- _].
  - unfold bind at 1.
    destruct (process_one_file L categorizer target_dir f w) as [[o|e] w0] eqn:E;
      [|done].
    unfold bind at 1.
    destruct (process_files_loop L categorizer target_dir files w0)
      as [[os'|e] w0'] eqn:E'; [|done].
    intros [= <- _]. constructor; eauto.
Qed.

End LoopLemmas.

(** ** Progress and locality of one iteration

    A file that can be read, whose text a category matches and whose
    destination is free, is moved; and a move touches the moved file and
    its destination only. *)

Section Progress.

Context (L : libraries).

Lemma walk_app f cur l1 l2 :
  OS.walk f cur (l1 ++ l2)
  = match OS.walk f cur l1 with
    | inl e => inl e
    | inr k => OS.walk f k l2
    end.
Proof.
  revert cur. induction l1 as [|c l1 IH]; intros cur; simpl; [done|].
  destruct (OS.step f cur c); [done|apply IH].
Qed.

Lemma split_snoc_sep d :
  OS.split OS.SEP (d ++ [OS.SEP]) = OS.split OS.SEP d ++ [[]].
Proof. by rewrite split_app. Qed.

Lemma step_plain f cur name :
  OS.node_at f cur = Some Dir -> exists k, OS.step f cur name = inr k.
Proof.
  intros H. unfold OS.step. rewrite H.
  destruct (bool_decide (name = []) || bool_decide (name = [OS.DOT])); [eauto|].
  destruct (bool_decide (name = [OS.DOT; OS.DOT])); eauto.
Qed.

Lemma step_empty_inv f cur k :
  OS.step f cur [] = inr k -> k = cur /\ OS.node_at f cur = Some Dir.
Proof.
  unfold OS.step. destruct (OS.node_at f cur) as [[?|]|]; try done.
  simpl. by intros [= <-].
Qed.

Lemma resolve_nonempty w p :
  p <> [] ->
  OS.resolve w p
  = OS.walk (fs w) (if startswith [OS.SEP] p then [] else cwd w)
      (OS.split OS.SEP p).
Proof. by destruct p. Qed.

(** Under an existing directory every name resolves. *)
Lemma resolve_join d name w :
  OS.isdir d w = true -> OS.SEP ∉ name ->
  exists k, OS.resolve w (OS.join d name) = inr k.
Proof.
  intros Hd Hn. unfold OS.isdir, OS.stat in Hd.
  destruct (OS.resolve w d) as [e|kd] eqn:Er; [done|].
  destruct (OS.node_at (fs w) kd) as [[c|]|] eqn:En; try done.
  assert (Hne : d <> []) by (by destruct d).
  rewrite (resolve_nonempty _ _ Hne) in Er.
  unfold OS.join. rewrite (startswith_sep_false _ Hn).
  assert (negb (truthy d) = false) as -> by (by destruct d). cbn [orb].
  destruct (bool_decide (last d = Some OS.SEP)) eqn:El.
  - apply bool_decide_eq_true in El. apply last_Some in El as [d' ->].
    rewrite split_snoc_sep, walk_app in Er.
    assert (Hstart : startswith [OS.SEP] ((d' ++ [OS.SEP]) ++ name)
                     = startswith [OS.SEP] (d' ++ [OS.SEP])).
    { by destruct d'. }
    rewrite resolve_nonempty by (by destruct d'). rewrite Hstart.
    rewrite <- app_assoc. change ([OS.SEP] ++ name) with (OS.SEP :: name).
    rewrite split_app, walk_app, (split_no_sep _ name Hn).
    destruct (OS.walk (fs w) _ (OS.split OS.SEP d')) as [e|k0]; [done|].
    simpl in Er. destruct (OS.step (fs w) k0 []) as [e|k1] eqn:Es; [done|].
    apply step_empty_inv in Es as [-> Hk0]. simpl.
    destruct (step_plain (fs w) k0 name Hk0) as [k ->]. eauto.
  - assert (Hstart : startswith [OS.SEP] (d ++ [OS.SEP] ++ name)
                     = startswith [OS.SEP] d) by (by destruct d).
    rewrite resolve_nonempty by (by destruct d). rewrite Hstart.
    change ([OS.SEP] ++ name) with (OS.SEP :: name).
    rewrite split_app, walk_app, Er, (split_no_sep _ name Hn). simpl.
    destruct (step_plain (fs w) kd name En) as [k ->]. eauto.
Qed.

(** Renaming a regular file to a free name of an existing directory
    succeeds. *)
Lemma rename_succeeds src dst w content :
  OS.stat w src = inr (File content) -> OS.SEP ∉ OS.basename src ->
  forall d, dst = OS.join d (OS.basename src) -> OS.isdir d w = true ->
  OS.isdir dst w = false ->
  exists w', OS.rename src dst w = (Ok tt, w').
Proof.
  intros Hs Hn d -> Hd Hdst.
  destruct (resolve_join d (OS.basename src) w Hd Hn) as [k Hk].
  unfold OS.stat in Hs. unfold OS.isdir, OS.stat in Hdst. unfold OS.rename.
  destruct (OS.resolve w src) as [e|ksrc]; [done|].
  destruct (OS.node_at (fs w) ksrc) as [[c|]|]; try done.
  rewrite Hk in Hdst |- *.
  destruct (OS.node_at (fs w) k) as [[c'|]|]; try done; eauto.
Qed.

Lemma organization_block_moves target_dir file_path file_name category w d w1
    content :
  create_target_subdir target_dir category w = (Ok d, w1) ->
  OS.stat w file_path = inr (File content) ->
  OS.isdir (OS.join d (OS.basename file_path)) w1 = false ->
  exists w',
    organization_block target_dir file_path file_name category w
    = (Ok (Moved category d), w')
    /\ OS.stat w' (OS.join d (OS.basename file_path)) = inr (File content).
Proof.
  intros Hc Hs Hdest.
  destruct (grows_create_target_subdir _ _ _ _ _ Hc) as [Hsub Hcwd].
  pose proof (stat_subseteq _ _ _ _ Hsub Hcwd Hs) as Hs1.
  pose proof (create_target_subdir_ok _ _ _ _ _ Hc) as [Hd Hmk].
  apply Path_mkdir_idempotent in Hmk as [_ Hisdir]. rewrite <- Hd in Hisdir.
  destruct (rename_succeeds file_path _ w1 content Hs1 (basename_no_sep _) d
              eq_refl Hisdir Hdest) as [w2 Hren].
  assert (Hm : move_file_to_directory file_path d w1 = (Ok tt, w2)).
  { unfold move_file_to_directory.
    rewrite (stat_isfile _ _ _ Hs1). cbn [negb]. unfold bind at 1.
    rewrite Hisdir. cbn [negb]. unfold ret at 1.
    unfold try_except, bind, OS.shutil_move. rewrite Hdest. unfold bind.
    by rewrite Hren. }
  unfold organization_block, try_except, bind. rewrite Hc, Hm.
  unfold logger, ret. eexists. split; [reflexivity|].
  destruct (rename_moves _ _ _ _ _ Hs1 Hren) as [H _].
  rewrite <- H. by apply stat_same_files.
Qed.

Lemma predefined_truthy c : c ∈ PREDEFINED_CATEGORIES -> truthy c = true.
Proof.
  unfold PREDEFINED_CATEGORIES. rewrite !elem_of_cons.
  intros H. repeat (destruct H as [->|H]; [done|]). by apply elem_of_nil in H.
Qed.

(** Progress: a readable file of a supported format, with a text that a
    category matches, is moved when its destination is free. *)
Lemma process_one_file_moves target_dir file_path w text content c d w1 :
  let categorizer := LLMCategorizer_init None None in
  OS.stat w file_path = inr (File content) ->
  file_extension_of file_path ∈ ALL_SUPPORTED_EXTENSIONS ->
  (extract_text L file_path w).1 = Ok (Some text) ->
  strip text <> [] ->
  categorize_text categorizer text PREDEFINED_CATEGORIES = Some c ->
  create_target_subdir target_dir c w = (Ok d, w1) ->
  OS.isdir (OS.join d (OS.basename file_path)) w1 = false ->
  exists w',
    process_one_file L categorizer target_dir file_path w
    = (Ok (Moved c d), w')
    /\ OS.stat w' (OS.join d (OS.basename file_path)) = inr (File content).
Proof.
  intros categorizer Hs Hext Htext Hstrip Hcat Hc Hdest.
  unfold process_one_file. unfold bind at 1.
  destruct (logger INFO (u "Processing file: " ++ file_path) w)
    as [[[]|?] w0] eqn:E0; [|done].
  assert (Hs0 : same_files w w0) by (by injection E0 as <-).
  destruct (extract_text_respects L file_path w w0 Hs0) as [Hr Hw].
  rewrite Htext in Hr.
  destruct (extract_text L file_path w0) as [r wa] eqn:Ee. simpl in Hr, Hw.
  subst r.
  assert (Hsa : same_files w wa).
  { apply (same_files_trans _ w0); [done|].
    by destruct (extract_text_keeps_fs L file_path _ _ _ Ee). }
  unfold bind at 1, extraction_block, try_except.
  rewrite splitext_basename. fold (file_extension_of file_path).
  rewrite (proj2 (ext_in_true _ _) Hext). cbn [negb]. unfold bind at 1.
  rewrite Ee.
  assert (negb (truthy (strip text)) = false) as ->.
  { by destruct (strip text). }
  unfold ret at 1. rewrite Hcat.
  rewrite (predefined_truthy c)
    by (by apply categorize_text_Some_elem in Hcat as [? _]).
  destruct (proj1 (create_target_subdir_spec target_dir c) w wa Hsa)
    as [Hcr Hcw].
  rewrite Hc in Hcr, Hcw. simpl in Hcr, Hcw.
  destruct (create_target_subdir target_dir c wa) as [r w1'] eqn:Ec'.
  simpl in Hcr, Hcw. subst r.
  apply (organization_block_moves _ _ _ _ _ _ _ content Ec').
  - by rewrite <- (stat_same_files w wa).
  - by rewrite <- (isdir_same_files _ w1 w1').
Qed.

Lemma move_file_to_directory_inv file_path d w1 w2 :
  OS.isdir d w1 = true ->
  move_file_to_directory file_path d w1 = (Ok tt, w2) ->
  let destination_path := OS.join d (OS.basename file_path) in
  OS.rename file_path destination_path w1 = (Ok tt, w2)
  \/ (OS.exists_ (OS.join destination_path (OS.basename file_path)) w1 = false
      /\ OS.rename file_path
           (OS.join destination_path (OS.basename file_path)) w1 = (Ok tt, w2)).
Proof.
  intros Hd. unfold move_file_to_directory.
  destruct (OS.isfile file_path w1); [|done]. cbn [negb].
  unfold bind at 1. rewrite Hd. cbn [negb]. unfold ret at 1.
  unfold try_except, bind, OS.shutil_move.
  destruct (OS.isdir (OS.join d (OS.basename file_path)) w1).
  - destruct (OS.exists_ _ w1) eqn:Ex.
    + unfold is_Exception, exn_cls, bind, print, raise. done.
    + unfold bind. destruct (OS.rename _ _ w1) as [[[]|e] w'] eqn:E.
      * intros [= <-]. right. done.
      * destruct (is_Exception e); unfold bind, print, raise; done.
  - unfold bind. destruct (OS.rename _ _ w1) as [[[]|e] w'] eqn:E.
    + intros [= <-]. by left.
    + destruct (is_Exception e); unfold bind, print, raise; done.
Qed.

(** A rename touches its source and its destination only. *)
Lemma rename_other_files src dst w w' p content :
  OS.rename src dst w = (Ok tt, w') ->
  OS.stat w p = inr (File content) ->
  OS.stat w' p = inr (File content)
  \/ OS.resolve w' p = OS.resolve w' src
  \/ (OS.resolve w' p = OS.resolve w' dst /\ OS.exists_ dst w = true).
Proof.
  intros (ksrc & kdst & content' & Hs & Hn & Hd & Hnd & ->)%rename_ok Hp.
  pose proof (keeps_dirs_rename _ _ _ _ Hn Hnd) as Hk.
  unfold OS.stat in Hp.
  destruct (OS.resolve w p) as [e|kp] eqn:Ep; [done|].
  destruct (OS.node_at (fs w) kp) as [n|] eqn:Enp; [|done].
  injection Hp as ->.
  rewrite (resolve_keeps_dirs w (set_fs _ w) p kp Hk eq_refl Ep).
  rewrite (resolve_keeps_dirs w (set_fs _ w) src ksrc Hk eq_refl Hs).
  rewrite (resolve_keeps_dirs w (set_fs _ w) dst kdst Hk eq_refl Hd).
  destruct (decide (kp = ksrc)) as [->|Hne1]; [by right; left|].
  destruct (decide (kp = kdst)) as [->|Hne2].
  { right. right. split; [done|]. unfold OS.exists_, OS.stat.
    by rewrite Hd, Enp. }
  left. unfold OS.stat.
  rewrite (resolve_keeps_dirs w (set_fs _ w) p kp Hk eq_refl Ep). simpl.
  destruct kp as [|c kp]; [done|]. simpl in *.
  by rewrite lookup_insert_ne, lookup_delete_ne, Enp.
Qed.

(** Locality: an iteration keeps every regular file except, when it
    moves, the moved file and what was at its destination. *)
Lemma process_one_file_other_files categorizer target_dir file_path w o w' p
    content :
  process_one_file L categorizer target_dir file_path w = (Ok o, w') ->
  OS.stat w p = inr (File content) ->
  OS.stat w' p = inr (File content)
  \/ exists c d,
       o = Moved c d
       /\ (OS.resolve w' p = OS.resolve w' file_path
           \/ OS.resolve w' p
              = OS.resolve w' (OS.join d (OS.basename file_path))).
Proof.
  intros [[Hs Hw]|(text & c & wa & Hc & Hw & Hb)]%process_one_file_inv Hp.
  { left. by rewrite <- (stat_same_files w w'). }
  rewrite (stat_same_files w wa _ Hw) in Hp.
  apply organization_block_inv in Hb
    as [(d & w1 & w2 & Hcr & Hm & -> & Hw2)|(-> & Hsub & Hcwd)].
  - destruct (grows_create_target_subdir _ _ _ _ _ Hcr) as [Hsub Hcwd].
    pose proof (stat_subseteq _ _ _ _ Hsub Hcwd Hp) as Hp1.
    pose proof (create_target_subdir_ok _ _ _ _ _ Hcr) as [Hd Hmk].
    apply Path_mkdir_idempotent in Hmk as [_ Hisdir]. rewrite <- Hd in Hisdir.
    assert (Hto : forall q, OS.resolve w2 q = OS.resolve w' q).
    { intros q. by apply resolve_same_files. }
    rewrite <- (stat_same_files w2 w' _ Hw2).
    destruct (move_file_to_directory_inv _ _ _ _ Hisdir Hm) as [Hr|[Hex Hr]].
    + destruct (rename_other_files _ _ _ _ _ _ Hr Hp1) as [H|[H|[H _]]];
        [by left|right; exists c, d; (split; [done|]); rewrite <- !Hto; auto..].
    + destruct (rename_other_files _ _ _ _ _ _ Hr Hp1) as [H|[H|[_ H]]];
        [by left|right; exists c, d; (split; [done|]); rewrite <- !Hto; auto
        |congruence].
  - left. by apply (stat_subseteq wa).
Qed.

End Progress.

(** ** Relocation and the batch: the specification's claims *)

Import Examples.

Lemma pair_eta {A B} (x : A * B) (a : A) : x.1 = a -> x = (a, x.2).
Proof. intros <-. by destruct x. Qed.

Lemma truediv_plain (p : Path) (c : str) :
  plain c -> truediv p c = {| root := root p; tail := tail p ++ [c] |}.
Proof.
  intros (H1 & H2 & H3). unfold truediv.
  rewrite (startswith_sep_false _ H3), (filter_keep_name _ H3). simpl.
  unfold keep.
  by rewrite (bool_decide_eq_false_2 _ H1), (bool_decide_eq_false_2 _ H2).
Qed.

(** C6.  Ensuring a category sub-directory is idempotent: when
    [create_target_subdir] has returned a path, calling it again with the
    same arguments returns the same path, raises nothing and changes
    nothing.  The path is [Path(target_dir) / category], and the destination
    of the move is that path joined with the original file name: as a path
    it is [Path(target_dir) / category / file name]; when the move succeeds
    (and no directory of that name is in the way) the file is found there
    with its content, under its original name, and no longer at its old
    place. *)
Theorem create_target_subdir_idempotent target_dir category file_path w d w1 :
  create_target_subdir target_dir category w = (Ok d, w1) ->
  let destination_path := OS.join d (OS.basename file_path) in
  create_target_subdir target_dir category w1 = (Ok d, w1)
  /\ d = Path_str (truediv (Path_of_str target_dir) category)
  /\ OS.basename destination_path = OS.basename file_path
  /\ Path_of_str destination_path
     = truediv (truediv (Path_of_str target_dir) category)
         (OS.basename file_path)
  /\ (plain category -> plain (OS.basename file_path) ->
      Path_of_str destination_path
      = {| root := root (Path_of_str target_dir);
           tail := tail (Path_of_str target_dir)
                   ++ [category; OS.basename file_path] |})
  /\ (forall w2,
        move_file_to_directory file_path d w1 = (Ok tt, w2) ->
        OS.isdir destination_path w1 = false ->
        exists content,
          OS.stat w1 file_path = inr (File content)
          /\ OS.stat w2 destination_path = inr (File content)
          /\ (OS.resolve w1 file_path <> OS.resolve w1 destination_path ->
              OS.exists_ file_path w2 = false)).
Proof.
  intros Hc dest.
  pose proof (create_target_subdir_twice _ _ _ _ _ Hc) as Htwice.
  pose proof (create_target_subdir_ok _ _ _ _ _ Hc) as [Hd _].
  assert (Hpath : Path_of_str dest
                  = truediv (truediv (Path_of_str target_dir) category)
                      (OS.basename file_path)).
  { unfold dest. rewrite Hd. apply Path_of_join; [|apply basename_no_sep].
    apply truediv_normal, Path_of_str_normal. }
  split_and!; [done|done|apply basename_join, basename_no_sep|done| |].
  - intros Hcat Hname. rewrite Hpath, (truediv_plain _ _ Hcat).
    rewrite (truediv_plain _ _ Hname). simpl. by rewrite <- app_assoc.
  - intros w2 Hm Hdest.
    by destruct (relocation_lands _ _ _ _ _ _ _ Hc Hm Hdest) as (_ & _ & H).
Qed.

Lemma create_target_subdir_idempotent_witness :
  let w1 := (create_target_subdir (u "/out") (u "Reports") world0).2 in
  create_target_subdir (u "/out") (u "Reports") w1 = (Ok (u "/out/Reports"), w1)
  /\ OS.stat (move_file_to_directory (u "/src/report.pdf") (u "/out/Reports") w1).2
       (OS.join (u "/out/Reports") (OS.basename (u "/src/report.pdf")))
     = inr (File (u "%PDF:Weekly project report.")).
Proof.
  intros w1.
  assert (Hc : create_target_subdir (u "/out") (u "Reports") world0
               = (Ok (u "/out/Reports"), w1)).
  { apply pair_eta. vm_compute. reflexivity. }
  destruct (create_target_subdir_idempotent _ _ (u "/src/report.pdf") _ _ _ Hc)
    as (Htwice & _ & _ & _ & _ & Hmove).
  split; [exact Htwice|].
  destruct (Hmove (move_file_to_directory (u "/src/report.pdf")
                     (u "/out/Reports") w1).2) as (content & Hs & Hd & _).
  - apply pair_eta. vm_compute. reflexivity.
  - vm_compute. reflexivity.
  - rewrite Hd. f_equal. f_equal.
    assert (OS.stat w1 (u "/src/report.pdf")
            = inr (File (u "%PDF:Weekly project report."))) as Hs'
      by (vm_compute; reflexivity).
    rewrite Hs' in Hs. by injection Hs as <-.
Defined.

(** C2.  When the document libraries raise [Exception]s only, the loop of
    [process_files] returns for every list of discovered files, with one
    outcome per file, and the log shows every file taken up exactly once, in
    discovery order.  An iteration that ends without a move leaves the file
    system as it was, and one whose move or directory creation failed leaves
    every regular file where it was, with its content.  A valid file (a
    regular file of a supported format whose text is extracted, is not blank
    and is matched by a category, whose category directory can be made and
    whose destination is not a directory) is moved and found at its
    destination with its content; and an iteration keeps every other regular
    file: only the moved file and its destination change.  A corrupt file of
    a supported format ends its iteration as an extraction failure with the
    file system unchanged, and the other files of the batch are processed as
    if it were not in the batch: same outcomes, same resulting files. *)
Theorem process_files_isolates_failures (L : libraries) (target_dir : str) :
  raise_exceptions_only L ->
  let categorizer := LLMCategorizer_init None None in
  (forall files w,
     exists outcomes w',
       process_files_from L target_dir files w = (Ok outcomes, w')
       /\ length outcomes = length files
       /\ attempts (log w') = attempts (log w) ++ files)
  /\ (forall file_path w o w',
        process_one_file L categorizer target_dir file_path w = (Ok o, w') ->
        (skipped o -> same_files w w')
        /\ (forall c, o = MoveFailed c ->
              forall p content, OS.stat w p = inr (File content) ->
                                OS.stat w' p = inr (File content)))
  /\ (forall file_path w text content c d w1,
        OS.stat w file_path = inr (File content) ->
        file_extension_of file_path ∈ ALL_SUPPORTED_EXTENSIONS ->
        (extract_text L file_path w).1 = Ok (Some text) ->
        strip text <> [] ->
        categorize_text categorizer text PREDEFINED_CATEGORIES = Some c ->
        create_target_subdir target_dir c w = (Ok d, w1) ->
        OS.isdir (OS.join d (OS.basename file_path)) w1 = false ->
        exists w',
          process_one_file L categorizer target_dir file_path w
          = (Ok (Moved c d), w')
          /\ OS.stat w' (OS.join d (OS.basename file_path))
             = inr (File content))
  /\ (forall file_path w o w' p content,
        process_one_file L categorizer target_dir file_path w = (Ok o, w') ->
        OS.stat w p = inr (File content) ->
        OS.stat w' p = inr (File content)
        \/ exists c d,
             o = Moved c d
             /\ (OS.resolve w' p = OS.resolve w' file_path
                 \/ OS.resolve w' p
                    = OS.resolve w' (OS.join d (OS.basename file_path))))
  /\ (forall bad w,
        corrupt L w bad ->
        exists w', process_one_file L categorizer target_dir bad w
                   = (Ok ExtractionFailed, w')
                   /\ same_files w w')
  /\ (forall before bad after w outcomes1 w1 outcomes2 w2,
        process_files_loop L categorizer target_dir before w = (Ok outcomes1, w1) ->
        corrupt L w1 bad ->
        process_files_loop L categorizer target_dir after w1 = (Ok outcomes2, w2) ->
        process_files_loop L categorizer target_dir (before ++ after) w
        = (Ok (outcomes1 ++ outcomes2), w2)
        /\ exists w2',
             process_files_loop L categorizer target_dir
               (before ++ bad :: after) w
             = (Ok (outcomes1 ++ ExtractionFailed :: outcomes2), w2')
             /\ same_files w2 w2'
             /\ OS.stat w2' bad = OS.stat w2 bad).
Proof.
  intros HL categorizer. split_and!.
  - intros files w. unfold process_files_from.
    destruct (process_files_loop_returns L categorizer target_dir files w HL)
      as (os & w' & E & Hlen & Hat).
    unfold bind at 1. fold categorizer. rewrite E.
    eexists os, _. split; [reflexivity|]. split; [done|].
    cbn [logger snd log]. rewrite attempts_app, Hat. unfold attempts at 2.
    cbn -[startswith u drop].
    by rewrite (eq_refl : startswith (u "Processing file: ")
                            (u "File sorting process completed.") = false),
      app_nil_r.
  - intros file_path w o w'. apply process_one_file_in_place.
  - intros file_path w text content c d w1. apply process_one_file_moves.
  - intros file_path w o w' p content. apply process_one_file_other_files.
  - intros bad w. apply corrupt_outcome.
  - intros before bad after w os1 w1 os2 w2 H1 Hbad H2. split.
    + by apply (process_files_loop_app L _ _ _ _ _ _ w1).
    + destruct (corrupt_outcome L categorizer target_dir bad w1 Hbad)
        as (w1' & Hb & Hsame).
      destruct (process_files_loop_respects L categorizer target_dir after
                  w1 w1' Hsame) as [Hr Hw].
      rewrite H2 in Hr, Hw. simpl in Hr, Hw.
      destruct (process_files_loop L categorizer target_dir after w1')
        as [r w2'] eqn:E. simpl in Hr, Hw. subst r.
      exists w2'. split_and!; [|done|by apply stat_same_files, same_files_sym].
      apply (process_files_loop_app L _ _ _ _ _ _ w1); [done|].
      simpl. unfold bind at 1. rewrite Hb. unfold bind, ret. by rewrite E.
Qed.

Lemma toy_raise_exceptions_only : raise_exceptions_only toy.
Proof.
  unfold raise_exceptions_only, toy;
    cbn [Document PdfReader load_workbook Presentation]. split_and!.
  - intros b e. destruct (startswith (u "DOCX:") b); [done|]. by intros [= <-].
  - intros b e. destruct (startswith (u "%PDF:") b); [done|]. by intros [= <-].
  - intros b pages e. destruct (startswith (u "%PDF:") b); [|done].
    intros [= <-] H.
    apply list_elem_of_In, in_map_iff in H as (t & Ht & _). done.
  - intros b e. destruct (startswith (u "XLSX:") b); [done|]. by intros [= <-].
  - intros b e. destruct (startswith (u "PPTX:") b); [done|]. by intros [= <-].
Qed.

Lemma broken_pdf_corrupt (w : world) :
  OS.stat w (u "/src/broken.pdf") = inr (File (u "not a pdf")) ->
  corrupt toy w (u "/src/broken.pdf").
Proof.
  intros H. exists (u "not a pdf"), (parse_error "EOF marker not found").
  split_and!; [done| |by apply pdf_raises|done].
  vm_compute. repeat constructor.
Qed.

Lemma process_files_isolates_failures_witness :
  let categorizer := LLMCategorizer_init None None in
  let w1 := (process_files_loop toy categorizer (u "/out")
               [u "/src/thesis.docx"] world0).2 in
  let w2 := (process_files_loop toy categorizer (u "/out")
               [u "/src/report.pdf"] w1).2 in
  exists w',
    process_files_loop toy categorizer (u "/out")
      ([u "/src/thesis.docx"] ++ u "/src/broken.pdf" :: [u "/src/report.pdf"])
      world0
    = (Ok ([Moved (u "Theses & Dissertations") (u "/out/Theses & Dissertations")]
           ++ ExtractionFailed :: [Moved (u "Reports") (u "/out/Reports")]), w')
    /\ same_files w2 w'
    /\ OS.stat w' (u "/src/broken.pdf") = inr (File (u "not a pdf"))
    /\ OS.stat w2 (u "/out/Theses & Dissertations/thesis.docx")
       = inr (File (u "DOCX:This is my master's thesis on AI."))
    /\ OS.stat w2 (u "/out/Reports/report.pdf")
       = inr (File (u "%PDF:Weekly project report.")).
Proof.
  intros categorizer w1 w2.
  destruct (proj2 (proj2 (proj2 (proj2 (proj2
              (process_files_isolates_failures toy (u "/out")
                 toy_raise_exceptions_only)))))
              [u "/src/thesis.docx"] (u "/src/broken.pdf") [u "/src/report.pdf"]
              world0
              [Moved (u "Theses & Dissertations") (u "/out/Theses & Dissertations")]
              w1 [Moved (u "Reports") (u "/out/Reports")] w2)
    as (_ & w2' & Hrun & Hsame & Hbad).
  - unfold w1. apply pair_eta. vm_compute. reflexivity.
  - apply broken_pdf_corrupt. vm_compute. reflexivity.
  - unfold w2. apply pair_eta. vm_compute. reflexivity.
  - exists w2'. split; [exact Hrun|]. split; [exact Hsame|]. split_and!.
    + rewrite Hbad. vm_compute. reflexivity.
    + vm_compute. reflexivity.
    + vm_compute. reflexivity.
Defined.

(** C10.  The result of [categorize_text] is [None] or an element of the
    caller's list that is a key of the keyword table; hence every
    destination sub-directory the loop of [process_files] asks for is named
    by one of the ten predefined categories: the category of every move,
    done or failed, is predefined and the directory of a move is
    [Path(target_dir) / category], and an iteration without a category
    leaves the file system as it was. *)
Theorem destination_is_predefined_category :
  (forall self text categories c,
     categorize_text self text categories = Some c ->
     c ∈ categories /\ is_Some (_category_keywords self !! c))
  /\ (forall L target_dir files w outcomes w',
        process_files_from L target_dir files w = (Ok outcomes, w') ->
        Forall (destination_ok (LLMCategorizer_init None None) target_dir)
          outcomes)
  /\ (forall L target_dir file_path w o w',
        process_one_file L (LLMCategorizer_init None None) target_dir
          file_path w = (Ok o, w') ->
        destination_ok (LLMCategorizer_init None None) target_dir o
        /\ (skipped o -> same_files w w')).
Proof.
  split_and!.
  - apply categorize_text_Some_elem.
  - intros L target_dir files w os w'. unfold process_files_from, bind.
    destruct (process_files_loop L _ target_dir files w) as [[os'|e] w0] eqn:E;
      [|done].
    unfold logger, ret. intros [= <- _].
    apply (process_files_loop_Forall L _ target_dir
             (destination_ok (LLMCategorizer_init None None) target_dir)) in E;
      [done|].
    intros f w1 o w1'. apply process_one_file_destination.
  - intros L target_dir file_path w o w' H. split.
    + by apply process_one_file_destination in H.
    + apply process_one_file_in_place in H as [H _]. exact H.
Qed.

Lemma destination_is_predefined_category_witness :
  u "Reports" ∈ PREDEFINED_CATEGORIES
  /\ is_Some (_category_keywords default_categorizer !! u "Reports").
Proof.
  apply (proj1 destination_is_predefined_category default_categorizer
           (u "Weekly project report.") PREDEFINED_CATEGORIES (u "Reports")).
  vm_compute. reflexivity.
Defined.

Lemma extract_text_None_iff_witness :
  (extract_text toy (u "/src/old.doc") world0).1 = Ok None
  /\ (extract_text toy (u "/src/archive.zip") world0).1 = Ok None
  /\ (extract_text toy (u "/src/report.pdf") world0).1 <> Ok None.
Proof.
  split_and!.
  - apply (proj1 (extract_text_None_iff toy (u "/src/old.doc") world0
                    ltac:(vm_compute; reflexivity))).
    left. vm_compute. reflexivity.
  - apply (proj1 (extract_text_None_iff toy (u "/src/archive.zip") world0
                    ltac:(vm_compute; reflexivity))).
    right. apply (proj1 (ext_in_false _ _)). vm_compute. reflexivity.
  - intros H.
    apply (proj1 (extract_text_None_iff toy (u "/src/report.pdf") world0
                    ltac:(vm_compute; reflexivity))) in H.
    destruct H as [H|H].
    + vm_compute in H. discriminate H.
    + apply (proj2 (ext_in_false _ _)) in H. vm_compute in H. discriminate H.
Defined.

Lemma extract_text_wraps_parser_failures_witness :
  exists e,
    (extract_text toy (u "/src/broken.pdf") world0).1 = Raise e
    /\ wraps (u "/src/broken.pdf") e (parse_error "EOF marker not found").
Proof.
  apply (proj2 (extract_text_wraps_parser_failures toy (u "/src/broken.pdf")
                  world0 ltac:(vm_compute; reflexivity))
           (u "not a pdf")).
  - vm_compute. reflexivity.
  - apply pdf_raises; vm_compute; reflexivity.
  - reflexivity.
Defined.

Lemma pdf_text_joins_pages_witness :
  exists texts : list (option str),
    PdfReader toy (u "%PDF:Weekly project report.") = Ok (List.map Ok texts)
    /\ u "Weekly project report." = join OS.NL (pdf_page_texts texts).
Proof.
  destruct (pdf_text_joins_pages toy (u "/src/report.pdf") world0
              (u "%PDF:Weekly project report.") (u "Weekly project report."))
    as (texts & H1 & H2 & _).
  - vm_compute. reflexivity.
  - vm_compute. reflexivity.
  - vm_compute. reflexivity.
  - exists texts. split; [exact H1|exact H2].
Defined.

(** C7 as stated fails: the one page of this document has a text of two
    lines, and the extracted text has two lines for one page. *)
Lemma pdf_lines_exceed_pages :
  let text := u "first" ++ [0x0A] ++ u "second" in
  let bytes := u "%PDF:first" ++ [0x0A] ++ u "second" in
  OS.stat world0 (u "/src/two-lines.pdf") = inr (File bytes)
  /\ PdfReader toy bytes = Ok [Ok (Some text)]
  /\ (extract_text toy (u "/src/two-lines.pdf") world0).1 = Ok (Some text)
  /\ lines text = [u "first"; u "second"]
  /\ length (lines text) <> length [Ok (Some text)].
Proof. vm_compute. split_and!; try reflexivity. discriminate. Qed.


(** ** The self-test of [categorizer.py]

    The texts of [sample_texts] with the category the code returns for the
    predefined list.  The ninth text mentions both "study guide" and "exam":
    the list puts "Tests & Quizzes" before "Learning Materials & Study
    Guides", so the first match is "Tests & Quizzes" (the self-test expects
    the other one there). *)
Example sample_texts :
  List.map (fun text =>
              categorize_text default_categorizer (u text) PREDEFINED_CATEGORIES)
    [ "This is my master's thesis on AI.";
      "Please find attached the certificate of completion.";
      "Here are the slides for my presentation.";
      "Weekly project report.";
      "Solutions for chapter 5 exercises.";
      "A short quiz about historical dates.";
      "Term paper on climate change.";
      "Textbook for Introduction to Physics.";
      "My study guide for the upcoming exam.";
      "An official letter from the university.";
      "This document is completely unrelated.";
      "" ]%string
  = [ Some (u "Theses & Dissertations");
      Some (u "Certificates & Diplomas");
      Some (u "Presentations");
      Some (u "Reports");
      Some (u "Answer Keys & Solutions");
      Some (u "Tests & Quizzes");
      Some (u "Coursework & Term Papers");
      Some (u "Books & Textbooks");
      Some (u "Tests & Quizzes");
      Some (u "Formal Documents & Correspondence");
      None;
      None ].
Proof. vm_compute. reflexivity. Qed.

Example sample_custom_categories :
  categorize_text default_categorizer (u "This is a thesis.")
    [u "Custom Category A"; u "Theses & Dissertations"]
  = Some (u "Theses & Dissertations")
  /\ categorize_text default_categorizer (u "This is a thesis.")
       [u "Random Category"] = None.
Proof. vm_compute. split; reflexivity. Qed.

(* ================================================================== *)
(** * Further properties of the code *)

(** ** The categorizer *)

Section CategorizerMore.

Lemma categorize_loop_app self cs1 cs2 t :
  categorize_loop self (cs1 ++ cs2) t
  = match categorize_loop self cs1 t with
    | Some c => Some c
    | None => categorize_loop self cs2 t
    end.
Proof.
  induction cs1 as [|c cs1 IH]; simpl; [done|].
  destruct (_category_keywords self !! c) as [kws|]; [|done].
  by destruct (any_keyword_matches kws t).
Qed.

(** X1.  Category lists compose: on the concatenation of two lists the
    answer is the answer on the first list when there is one, and the answer
    on the second list otherwise. *)
Theorem categorize_text_app (self : LLMCategorizer) (text : str)
    (categories1 categories2 : list str) :
  categorize_text self text (categories1 ++ categories2)
  = match categorize_text self text categories1 with
    | Some c => Some c
    | None => categorize_text self text categories2
    end.
Proof.
  unfold categorize_text.
  destruct (negb (truthy text) || negb (truthy (strip text))); [done|].
  apply categorize_loop_app.
Qed.

(** X2.  Categories without an entry in the keyword table are passed over:
    removing them from the list, wherever they stand, never changes the
    answer; and a list of such categories only gives [None]. *)
Theorem categorize_text_skips_unknown (self : LLMCategorizer) (text : str)
    (categories : list str) :
  categorize_text self text categories
  = categorize_text self text
      (List.filter (fun c => bool_decide (is_Some (_category_keywords self !! c)))
         categories)
  /\ (Forall (fun c => _category_keywords self !! c = None) categories ->
      categorize_text self text categories = None).
Proof.
  unfold categorize_text.
  destruct (negb (truthy text) || negb (truthy (strip text))); [done|].
  split.
  - induction categories as [|c cs IH]; simpl; [done|].
    destruct (_category_keywords self !! c) as [kws|] eqn:E; simpl; [|done].
    rewrite E. by destruct (any_keyword_matches kws (lower text)).
  - induction 1 as [|c cs Hc _ IH]; simpl; [done|]. by rewrite Hc.
Qed.

Lemma categorize_text_skips_unknown_witness :
  categorize_text default_categorizer (u "This is a thesis.")
    [u "Random Category"] = None.
Proof.
  apply (categorize_text_skips_unknown default_categorizer).
  repeat constructor.
Defined.

Lemma contains_trans (p q s : str) :
  occurs_in p q -> contains q s = true -> contains p s = true.
Proof.
  intros (a & b & ->) (a' & b' & ->)%contains_spec. apply contains_spec.
  exists (a' ++ a), (b ++ b'). by rewrite <- !app_assoc.
Qed.

Lemma any_keyword_matches_filter (keep : str -> bool) (keywords : list str) t :
  (forall q, q ∈ keywords -> keep q = false ->
     exists p, p ∈ keywords /\ keep p = true /\ occurs_in p q) ->
  any_keyword_matches (List.filter keep keywords) t
  = any_keyword_matches keywords t.
Proof.
  intros H. apply eq_true_iff_eq. rewrite !any_keyword_matches_spec. split.
  - intros (p & Hp & Ho). exists p. split; [|done].
    apply list_elem_of_In, filter_In in Hp as [Hp _]. by apply list_elem_of_In.
  - intros (q & Hq & Ho). destruct (keep q) eqn:E.
    + exists q. split; [|done]. apply list_elem_of_In, filter_In.
      split; [by apply list_elem_of_In|done].
    + destruct (H q Hq E) as (p & Hp & Hk & Hpq). exists p. split.
      * apply list_elem_of_In, filter_In. split; [by apply list_elem_of_In|done].
      * destruct Hpq as (a & b & ->). destruct Ho as (a' & b' & ->).
        exists (a' ++ a), (b ++ b'). by rewrite <- !app_assoc.
Qed.

Lemma shadowed_keywords_checked :
  let shadowed := [u "final exam"; u "solutions manual"; u "memorandum";
                   u "textbook"; u "e-book"] in
  let keep := fun p : str => negb (bool_decide (p ∈ shadowed)) in
  forallb (fun kv : str * list str =>
             forallb (fun q => keep q
                               || existsb (fun p => keep p && contains p q) kv.2)
               kv.2) category_keywords_items = true.
Proof. vm_compute. reflexivity. Qed.

(** X3.  Five patterns of the keyword table never decide an answer: each of
    "final exam", "solutions manual", "memorandum", "textbook" and "e-book"
    contains another pattern of its own category ("exam", "solution", "memo",
    "book"), so that the categorizer answers the same without them. *)
Theorem shadowed_keywords_never_decide ak cfg (text : str)
    (categories : list str) :
  let shadowed := [u "final exam"; u "solutions manual"; u "memorandum";
                   u "textbook"; u "e-book"] in
  let keep := fun p : str => negb (bool_decide (p ∈ shadowed)) in
  let trimmed :=
    {| api_key := ak; config := cfg;
       _category_keywords :=
         list_to_map (prod_map id (List.filter keep) <$> category_keywords_items) |} in
  categorize_text (LLMCategorizer_init ak cfg) text categories
  = categorize_text trimmed text categories.
Proof.
  intros shadowed keep trimmed. unfold categorize_text.
  destruct (negb (truthy text) || negb (truthy (strip text))); [done|].
  induction categories as [|c cs IH]; [done|].
  cbn [categorize_loop]. rewrite IH.
  assert (Hl : _category_keywords trimmed !! c
               = List.filter keep
                   <$> ((list_to_map category_keywords_items
                         : gmap str (list str)) !! c)).
  { unfold trimmed. cbn [_category_keywords].
    by rewrite list_to_map_fmap, lookup_fmap. }
  rewrite Hl. cbn [_category_keywords LLMCategorizer_init].
  destruct ((list_to_map category_keywords_items : gmap str (list str)) !! c)
    as [kws|] eqn:E; cbn [fmap option_fmap option_map]; [|done].
  rewrite any_keyword_matches_filter; [done|].
  intros q Hq Hk.
  apply (elem_of_list_to_map_2 category_keywords_items) in E.
  pose proof shadowed_keywords_checked as H. cbv zeta in H.
  rewrite forallb_forall in H. apply list_elem_of_In, H in E.
  rewrite forallb_forall in E. apply list_elem_of_In, E in Hq.
  change (keep q || existsb (fun p => keep p && contains p q) kws = true) in Hq.
  rewrite Hk in Hq. cbn [orb] in Hq.
  apply existsb_exists in Hq as (p & Hp & [Hkp Hc]%andb_true_iff).
  exists p. split_and!; [by apply list_elem_of_In|done|by apply contains_spec].
Qed.

(** X4.  No predefined category is shadowed by the ones before it: for each
    of the ten there is a text that [categorize_text] puts in it. *)
Theorem every_predefined_category_is_reached :
  Forall (fun c => exists text,
            categorize_text default_categorizer text PREDEFINED_CATEGORIES
            = Some c) PREDEFINED_CATEGORIES.
Proof.
  unfold PREDEFINED_CATEGORIES. repeat apply Forall_cons_2; [..|by apply Forall_nil].
  - by exists (u "thesis").
  - by exists (u "essay").
  - by exists (u "diploma").
  - by exists (u "quiz").
  - by exists (u "solution").
  - by exists (u "slides").
  - by exists (u "letter").
  - by exists (u "book").
  - by exists (u "notes").
  - by exists (u "report").
Qed.









End CategorizerMore.

(** ** Text extraction: the other formats, missing files, reads *)

Section ExtractorMore.

Context (L : libraries).

Lemma foldl_snoc {A} (l acc : list A) :
  foldl (fun acc x => acc ++ [x]) acc l = acc ++ l.
Proof.
  revert acc. induction l as [|x l IH]; intros acc; simpl.
  - by rewrite app_nil_r.
  - by rewrite IH, <- app_assoc.
Qed.

Lemma helper_not_ok {A} (body : M A) (message : exn -> str) (cause : exn)
    (w w' : world) (a : A) :
  body w = (Raise cause, w') ->
  (try_except body (wrap_extraction_error message) w).1 <> Ok a.
Proof.
  intros H. unfold try_except. rewrite H.
  by destruct (wrap_extraction_error_raises (A:=A) message cause w')
    as (e' & w'' & ->).
Qed.

Lemma docx_dispatch (file_path : str) :
  file_extension_of file_path = u ".docx" ->
  extract_text_dispatch L file_path (file_extension_of file_path)
  = (let! text := _extract_text_from_docx L file_path in ret (Some text)).
Proof. by intros ->. Qed.

(** X6.  For a [.docx] file the text is the texts of the paragraphs of the
    document, in order, joined by newlines; the file is read once. *)
Theorem docx_text_joins_paragraphs (file_path : str) (w : world)
    (bytes : list N) :
  OS.stat w file_path = inr (File bytes) ->
  file_extension_of file_path = u ".docx" ->
  (forall paragraphs,
     Document L bytes = Ok paragraphs ->
     extract_text L file_path w
     = (Ok (Some (join OS.NL paragraphs)), (record_read file_path w).2))
  /\ (forall text,
        (extract_text L file_path w).1 = Ok (Some text) ->
        exists paragraphs,
          Document L bytes = Ok paragraphs /\ text = join OS.NL paragraphs).
Proof.
  intros Hstat Hext.
  rewrite (extract_text_existing _ _ _ (stat_isfile _ _ _ Hstat)).
  rewrite (docx_dispatch _ Hext).
  assert (Hok : forall paragraphs,
            Document L bytes = Ok paragraphs ->
            try_except
              (let! text := _extract_text_from_docx L file_path in ret (Some text))
              (extract_text_handler file_path) w
            = (Ok (Some (join OS.NL paragraphs)), (record_read file_path w).2)).
  { intros paragraphs Hdoc.
    unfold try_except, bind, _extract_text_from_docx, try_except, bind, lift, ret.
    rewrite (read_file_ok _ _ _ Hstat), Hdoc. by rewrite foldl_snoc. }
  split; [done|]. intros text Htext.
  destruct (Document L bytes) as [paragraphs|cause] eqn:Hdoc.
  - exists paragraphs. split; [done|]. rewrite (Hok _ eq_refl) in Htext.
    by injection Htext as <-.
  - exfalso. apply dispatch_branch_ok in Htext. revert Htext.
    apply helper_not_ok with (cause := cause) (w' := (record_read file_path w).2).
    unfold bind, lift. by rewrite (read_file_ok _ _ _ Hstat), Hdoc.
Qed.

(** The texts of the shapes of a presentation that have a text, slide by
    slide. *)
Lemma pptx_loops (slides : list (list (option str))) (full_text : list str) :
  foldl (fun full_text slide =>
           foldl (fun full_text shape =>
                    match shape with
                    | Some text => full_text ++ [text]
                    | None => full_text
                    end) full_text slide) full_text slides
  = full_text ++ List.flat_map (omap id) slides.
Proof.
  revert full_text. induction slides as [|slide slides IH]; intros full_text;
    simpl; [by rewrite app_nil_r|].
  rewrite IH, app_assoc. f_equal.
  clear. revert full_text. induction slide as [|[t|] slide IH];
    intros full_text; simpl; [by rewrite app_nil_r| |apply IH].
  by rewrite IH, <- app_assoc.
Qed.

Lemma pptx_dispatch (file_path : str) :
  file_extension_of file_path ∈ POWERPOINT_EXTENSIONS ->
  extract_text_dispatch L file_path (file_extension_of file_path)
  = (let! text := _extract_text_from_pptx L file_path in ret (Some text)).
Proof.
  unfold POWERPOINT_EXTENSIONS. rewrite !elem_of_cons.
  intros [->|[->|He]]; [done..|by apply elem_of_nil in He].
Qed.

(** X7.  For a [.ppt] or [.pptx] file the text is the texts of the shapes
    that have a text, slide by slide and shape by shape, joined by newlines;
    shapes without a text attribute leave no trace, not even an empty
    line. *)
Theorem pptx_text_joins_shapes (file_path : str) (w : world) (bytes : list N) :
  OS.stat w file_path = inr (File bytes) ->
  file_extension_of file_path ∈ POWERPOINT_EXTENSIONS ->
  (forall slides,
     Presentation L bytes = Ok slides ->
     extract_text L file_path w
     = (Ok (Some (join OS.NL (List.flat_map (omap id) slides))),
        (record_read file_path w).2))
  /\ (forall text,
        (extract_text L file_path w).1 = Ok (Some text) ->
        exists slides,
          Presentation L bytes = Ok slides
          /\ text = join OS.NL (List.flat_map (omap id) slides)).
Proof.
  intros Hstat Hext.
  rewrite (extract_text_existing _ _ _ (stat_isfile _ _ _ Hstat)).
  rewrite (pptx_dispatch _ Hext).
  assert (Hok : forall slides,
            Presentation L bytes = Ok slides ->
            try_except
              (let! text := _extract_text_from_pptx L file_path in ret (Some text))
              (extract_text_handler file_path) w
            = (Ok (Some (join OS.NL (List.flat_map (omap id) slides))),
               (record_read file_path w).2)).
  { intros slides Hp.
    unfold try_except, bind, _extract_text_from_pptx, try_except, bind, lift, ret.
    rewrite (read_file_ok _ _ _ Hstat), Hp. by rewrite pptx_loops. }
  split; [done|]. intros text Htext.
  destruct (Presentation L bytes) as [slides|cause] eqn:Hp.
  - exists slides. split; [done|]. rewrite (Hok _ eq_refl) in Htext.
    by injection Htext as <-.
  - exfalso. apply dispatch_branch_ok in Htext. revert Htext.
    apply helper_not_ok with (cause := cause) (w' := (record_read file_path w).2).
    unfold bind, lift. by rewrite (read_file_ok _ _ _ Hstat), Hp.
Qed.

Lemma handler_never_FileNotFound {A} (file_path : str) (e e' : exn) (w w' : world) :
  @extract_text_handler A file_path e w = (Raise e', w') ->
  is_FileNotFoundError e = true -> is_FileNotFoundError e' = false.
Proof.
  unfold extract_text_handler, wrap_extraction_error, raise.
  destruct e as [[] msg ctx]; simpl; try done. by intros [= <- _].
Qed.

(** X8.  [extract_text] raises [FileNotFoundError] exactly when the path is
    not a regular file; it does so before looking at the extension, without
    reading or printing anything.  A file that is there never gives a
    [FileNotFoundError], whatever the document libraries raise. *)
Theorem extract_text_FileNotFoundError_iff (file_path : str) (w : world) :
  (OS.isfile file_path w = false ->
   extract_text L file_path w
   = (Raise (Exn FileNotFoundError
               (u "File not found: '" ++ file_path ++ OS.QUOTE) None), w))
  /\ (forall e, (extract_text L file_path w).1 = Raise e ->
        is_FileNotFoundError e = true <-> OS.isfile file_path w = false).
Proof.
  split.
  - intros H. unfold extract_text. by rewrite H.
  - intros e He. destruct (OS.isfile file_path w) eqn:Hf.
    + split; [|done]. intros Hfnf. exfalso.
      rewrite (extract_text_existing _ _ _ Hf) in He. revert He.
      unfold try_except.
      destruct (extract_text_dispatch L file_path _ w) as [[r|e0] w0]; [done|].
      unfold extract_text_handler, wrap_extraction_error, raise.
      destruct e0 as [[] msg ctx]; simpl; intros [= <-]; done.
    + split; [done|]. intros _. revert He. unfold extract_text. rewrite Hf.
      simpl. by intros [= <-].
Qed.

Lemma helper_world {A} (file_path : str) (k : list N -> M A)
    (message : exn -> str) (w : world) :
  (forall bytes w0, (k bytes w0).2 = w0) ->
  let w' := (try_except (let! bytes := OS.read_file file_path in k bytes)
               (wrap_extraction_error message) w).2 in
  w' = w \/ w' = (record_read file_path w).2.
Proof.
  intros Hk. unfold try_except, bind, OS.read_file.
  destruct (OS.stat w file_path) as [e|[content|]].
  - left. unfold wrap_extraction_error. by destruct (is_Exception _).
  - right. unfold bind, ret. cbn [record_read fst snd].
    pose proof (Hk content (record_read file_path w).2) as Hw.
    cbn [record_read snd] in Hw.
    destruct (k content _) as [[a|e] w1]; simpl in Hw; subst w1; [done|].
    unfold wrap_extraction_error. by destruct (is_Exception _).
  - left. unfold wrap_extraction_error. by destruct (is_Exception _).
Qed.

Lemma dispatch_branch_world (m : M str) (file_path : str) (w : world) :
  (try_except (let! text := m in ret (Some text))
     (extract_text_handler file_path) w).2 = (m w).2.
Proof.
  unfold try_except, bind, ret. destruct (m w) as [[text|e] w1]; [done|].
  by destruct (extract_text_handler_raises (A:=option str) file_path e w1)
    as [e' ->].
Qed.

Lemma lift_world {A B} (r : result A) (k : A -> M B) (w : world) :
  (forall a w0, (k a w0).2 = w0) -> ((let! a := lift r in k a) w).2 = w.
Proof. intros Hk. unfold bind, lift. destruct r; [apply Hk|done]. Qed.

(** X9.  [extract_text] opens no other file than the one it is given, and
    that one at most once; it changes neither the file system nor the log. *)
Theorem extract_text_reads_only_its_file (file_path : str) (w : world) :
  let w' := (extract_text L file_path w).2 in
  fs w' = fs w /\ cwd w' = cwd w /\ log w' = log w
  /\ (reads w' = reads w \/ reads w' = reads w ++ [file_path]).
Proof.
  assert (Hread : forall w', w' = w \/ w' = (record_read file_path w).2 ->
            fs w' = fs w /\ cwd w' = cwd w /\ log w' = log w
            /\ (reads w' = reads w \/ reads w' = reads w ++ [file_path])).
  { intros w' [->| ->]; cbn [record_read snd fs cwd log reads]; auto. }
  unfold extract_text. destruct (OS.isfile file_path w); [|by auto].
  cbn [negb]. unfold extract_text_dispatch.
  repeat match goal with
         | |- context [if ?b then _ else _] => destruct b
         end;
    try (unfold try_except, bind, print, ret; cbn [snd fs cwd log reads]; by auto);
    cbv zeta; rewrite dispatch_branch_world; apply Hread.
  - apply helper_world. intros bytes w0. by apply lift_world.
  - apply helper_world. intros bytes w0. apply lift_world.
    intros pages w1. by apply lift_world.
  - apply helper_world. intros bytes w0. apply lift_world.
    intros wb w1. by apply lift_world.
  - apply helper_world. intros bytes w0. by apply lift_world.
Qed.

End ExtractorMore.

(** ** Steps of computations *)

Section Steps.

Context (R : world -> world -> Prop) `{!PreOrder R}.
Context {A B : Type}.

Lemma steps_ret (a : A) : steps R (ret a).
Proof. by intros w r w' [= _ <-]. Qed.

Lemma steps_raise (e : exn) : steps R (@raise A e).
Proof. by intros w r w' [= _ <-]. Qed.

Lemma steps_lift (r : result A) : steps R (lift r).
Proof. by intros w r' w' [= _ <-]. Qed.

Lemma steps_bind (m : M A) (k : A -> M B) :
  steps R m -> (forall a, steps R (k a)) -> steps R (bind m k).
Proof.
  intros Hm Hk w r w'. unfold bind.
  destruct (m w) as [[a|e] w1] eqn:E.
  - intros H. by etrans; [apply (Hm _ _ _ E)|apply (Hk _ _ _ _ H)].
  - intros [= _ <-]. apply (Hm _ _ _ E).
Qed.

Lemma steps_try (body : M A) (handler : exn -> M A) :
  steps R body -> (forall e, steps R (handler e)) ->
  steps R (try_except body handler).
Proof.
  intros Hm Hk w r w'. unfold try_except.
  destruct (body w) as [[a|e] w1] eqn:E.
  - intros [= _ <-]. apply (Hm _ _ _ E).
  - intros H. by etrans; [apply (Hm _ _ _ E)|apply (Hk _ _ _ _ H)].
Qed.

Lemma steps_if (c : world -> bool) (m1 m2 : M A) :
  steps R m1 -> steps R m2 -> steps R (fun w => if c w then m1 w else m2 w).
Proof. intros H1 H2 w r w'. destruct (c w); [apply H1|apply H2]. Qed.

End Steps.

#[global]
Instance silent_preorder : PreOrder silent.
Proof.
  split.
  - by intros w.
  - intros w1 w2 w3 (? & ? & ?) (? & ? & ?). unfold silent. by split_and!; etrans.
Qed.

#[global]
Instance dirs_added_preorder : PreOrder dirs_added.
Proof.
  split.
  - intros w. split_and!; [done..|]. intros k n H1 H2. congruence.
  - intros w1 w2 w3 (Ha & Hb & Hc) (Ha' & Hb' & Hc'). split_and!.
    + by etrans.
    + congruence.
    + intros k n H3 H1. destruct (fs w2 !! k) as [n2|] eqn:E2.
      * rewrite (lookup_weaken _ _ _ _ E2 Ha') in H3. injection H3 as <-.
        by apply (Hc k).
      * by apply (Hc' k).
Qed.

#[global]
Instance kept_preorder (P : world -> Prop) : PreOrder (kept P).
Proof. split; unfold kept; [by intros w|intros w1 w2 w3; tauto]. Qed.

Ltac steps_step :=
  first
    [ lazymatch goal with |- PreOrder _ => apply _ end
    | apply steps_ret | apply steps_raise | apply steps_lift
    | apply steps_bind | apply steps_try | apply steps_if
    | assumption
    | progress intros
    | match goal with
      | |- steps _ (if ?b then _ else _) => destruct b
      | |- steps _ (match ?x with Some _ => _ | None => _ end) => destruct x
      | |- steps _ (match ?x with inl _ => _ | inr _ => _ end) => destruct x
      end ].

Ltac steps_using tac := repeat first [tac | steps_step].

Section StepsPrimitives.

Lemma silent_mkdir p : steps silent (OS.mkdir p).
Proof.
  intros w r w'. unfold OS.mkdir.
  destruct (OS.resolve w p); [by intros [= _ <-]|].
  destruct (OS.node_at _ _); by intros [= _ <-].
Qed.

Lemma silent_rename src dst : steps silent (OS.rename src dst).
Proof.
  intros w r w'. unfold OS.rename.
  repeat match goal with
         | |- context [match ?x with _ => _ end] => destruct x
         end; by intros [= _ <-].
Qed.

Lemma dirs_added_mkdir p : steps dirs_added (OS.mkdir p).
Proof.
  intros w r w'. unfold OS.mkdir.
  destruct (OS.resolve w p) as [e|k]; [by intros [= _ <-]|].
  destruct (OS.node_at (fs w) k) as [n|] eqn:E; intros [= _ <-]; [done|].
  pose proof (node_at_None_nonroot _ _ E) as Hk.
  destruct k as [|c k]; [done|]. simpl in E.
  split_and!; simpl.
  - by apply insert_subseteq.
  - done.
  - intros k' n [[_ <-]|[_ H1]]%lookup_insert_Some H2; [done|congruence].
Qed.

Lemma dirs_added_keeps_fs {A} (m : M A) : keeps_fs m -> steps dirs_added m.
Proof.
  intros H w r w' E. destruct (H _ _ _ E) as [Hf Hc].
  split_and!; [by rewrite Hf|done|]. intros k n. rewrite Hf. congruence.
Qed.

End StepsPrimitives.

(** ** The shape of the file system *)

Section Shape.

Lemma last_split (p : str) : last (OS.split OS.SEP p) = Some (OS.basename p).
Proof.
  unfold OS.basename. destruct (OS.rpartition OS.SEP p) as [[a b]|] eqn:E.
  - apply rpartition_Some in E as [-> Hb].
    by rewrite split_app, (split_no_sep _ b Hb), last_snoc.
  - apply rpartition_None in E. by rewrite (split_no_sep _ p E).
Qed.

Lemma step_cases f cur c k :
  OS.step f cur c = inr k ->
  OS.node_at f cur = Some Dir
  /\ (((c = [] \/ c = [OS.DOT]) /\ k = cur)
      \/ (c = [OS.DOT; OS.DOT] /\ k = removelast cur)
      \/ (c <> [] /\ c <> [OS.DOT] /\ c <> [OS.DOT; OS.DOT] /\ k = cur ++ [c])).
Proof.
  unfold OS.step. destruct (OS.node_at f cur) as [[?|]|]; [done| |done].
  intros H. split; [done|]. revert H.
  destruct (bool_decide (c = [])) eqn:E1; simpl.
  { apply bool_decide_eq_true in E1. intros [= <-]. left. auto. }
  destruct (bool_decide (c = [OS.DOT])) eqn:E2; simpl.
  { apply bool_decide_eq_true in E2. intros [= <-]. left. auto. }
  destruct (bool_decide (c = [OS.DOT; OS.DOT])) eqn:E3; simpl.
  { apply bool_decide_eq_true in E3. intros [= <-]. right. left. auto. }
  apply bool_decide_eq_false in E1, E2, E3. intros [= <-]. right. right. auto.
Qed.

Lemma resolve_last_step w p k :
  OS.resolve w p = inr k ->
  exists cur, OS.step (fs w) cur (OS.basename p) = inr k.
Proof.
  intros H. assert (p <> []) as Hp by (by destruct p).
  rewrite (resolve_nonempty _ _ Hp) in H.
  pose proof (last_split p) as Hl.
  apply last_Some in Hl as [init Hl]. rewrite Hl, walk_app in H.
  destruct (OS.walk (fs w) _ init) as [e|cur]; [done|]. simpl in H.
  exists cur. by destruct (OS.step (fs w) cur (OS.basename p)).
Qed.

Lemma tree_parent f k n :
  OS.tree f -> OS.node_at f k = Some n ->
  OS.node_at f (removelast k) = Some Dir.
Proof.
  unfold OS.tree, map_Forall. intros Ht H. destruct k as [|c k]; [done|].
  by apply (Ht _ _ H).
Qed.

Lemma basename_filename p :
  OS.basename p <> [] -> OS.basename p <> [OS.DOT] ->
  OS.basename p <> [OS.DOT; OS.DOT] -> OS.filename (OS.basename p).
Proof. intros. split_and!; [done..|apply basename_no_sep]. Qed.

(** What a path names, when it is not a directory, lies in a directory
    under the last component of the path. *)
Lemma resolve_not_dir w p k :
  OS.tree (fs w) -> OS.resolve w p = inr k ->
  OS.node_at (fs w) k <> Some Dir ->
  exists cur, k = cur ++ [OS.basename p]
              /\ OS.node_at (fs w) cur = Some Dir
              /\ OS.filename (OS.basename p).
Proof.
  intros Ht [cur Hs]%resolve_last_step Hk.
  apply step_cases in Hs as [Hcur [[_ ->]|[[_ ->]|(H1 & H2 & H3 & ->)]]].
  - done.
  - by rewrite (tree_parent _ _ _ Ht Hcur) in Hk.
  - exists cur. split_and!; [done..|]. by apply basename_filename.
Qed.


Lemma node_at_snoc f cur c : OS.node_at f (cur ++ [c]) = f !! (cur ++ [c]).
Proof. by destruct cur. Qed.

Lemma tree_insert f cur c n :
  OS.tree f -> OS.node_at f cur = Some Dir ->
  n = Dir \/ f !! (cur ++ [c]) <> Some Dir ->
  OS.tree (<[cur ++ [c] := n]> f).
Proof.
  unfold OS.tree, map_Forall.
  intros Ht Hcur Hn k' n' [[<- _]|[Hne H]]%lookup_insert_Some.
  - rewrite removelast_last.
    destruct cur as [|c0 cur]; [done|]. simpl in *.
    rewrite lookup_insert_ne; [done|].
    intros E. apply (f_equal length) in E. simpl in E.
    rewrite length_app in E. simpl in E. lia.
  - pose proof (Ht _ _ H) as Hp. simpl in Hp.
    destruct (removelast k') as [|c0 k0] eqn:Er; [done|]. simpl in *.
    destruct (decide (cur ++ [c] = c0 :: k0)) as [E|E].
    + rewrite E in *. rewrite lookup_insert_eq.
      destruct Hn as [->|Hn]; [done|]. by rewrite Hp in Hn.
    + by rewrite lookup_insert_ne.
Qed.

Lemma tree_delete f k content :
  OS.tree f -> f !! k = Some (File content) -> OS.tree (delete k f).
Proof.
  unfold OS.tree, map_Forall.
  intros Ht Hk k' n' [Hne H]%lookup_delete_Some.
  pose proof (Ht _ _ H) as Hp. simpl in Hp.
  destruct (removelast k') as [|c0 k0] eqn:Er; [done|]. simpl in *.
  rewrite lookup_delete_ne; [done|]. intros ->. congruence.
Qed.

Lemma proper_insert f cur c n :
  OS.proper f -> OS.node_at f cur = Some Dir -> OS.filename c ->
  OS.proper (<[cur ++ [c] := n]> f).
Proof.
  unfold OS.proper, map_Forall.
  intros Hp Hcur Hc k' n' [[<- _]|[Hne H]]%lookup_insert_Some.
  - apply Forall_app. split; [|by apply Forall_singleton].
    destruct cur as [|c0 cur]; [by apply Forall_nil|]. by apply (Hp _ _ Hcur).
  - by apply (Hp _ _ H).
Qed.

Lemma proper_delete f k : OS.proper f -> OS.proper (delete k f).
Proof.
  unfold OS.proper, map_Forall.
  intros Hp k' n' [_ H]%lookup_delete_Some. by apply (Hp _ _ H).
Qed.

End Shape.

(** ** What the operations keep *)

Section Kept.

Local Abbreviation tree_kept := (kept (fun w : world => OS.tree (fs w))).

Lemma kept_keeps_fs {A : Type} (Q : gmap (list str) node -> Prop) (m : M A) :
  keeps_fs m -> steps (kept (fun w : world => Q (fs w))) m.
Proof.
  intros H w r w' E. destruct (H _ _ _ E) as [Hf _]. unfold kept.
  by rewrite Hf.
Qed.


Lemma tree_kept_rename src dst : steps tree_kept (OS.rename src dst).
Proof.
  intros w r w' E Ht. destruct r as [[]|e].
  - apply rename_ok in E as (ksrc & kdst & content & Hs & Hns & Hd & Hnd & ->).
    simpl.
    destruct (resolve_not_dir w dst kdst Ht Hd Hnd) as (cur & -> & Hcur & _).
    assert (Hks : fs w !! ksrc = Some (File content)) by (by destruct ksrc).
    apply tree_insert.
    + by apply (tree_delete _ _ content).
    + destruct cur as [|c0 cur]; [done|]. simpl in *.
      rewrite lookup_delete_ne; [done|]. intros ->. congruence.
    + right. intros [_ H]%lookup_delete_Some.
      by rewrite node_at_snoc in Hnd.
  - by destruct (rename_fails_in_place _ _ _ _ _ E) as [-> _].
Qed.

Lemma tree_kept_shutil_move src dst : steps tree_kept (OS.shutil_move src dst).
Proof.
  assert (Hr : forall real_dst,
            steps tree_kept (do! OS.rename src real_dst in ret real_dst)).
  { intros real_dst. steps_using ltac:(apply tree_kept_rename). }
  intros w r w'. unfold OS.shutil_move.
  destruct (OS.isdir dst w); [|apply Hr].
  destruct (OS.exists_ _ w); [by intros [= _ <-]|apply Hr].
Qed.

End Kept.

(** ** A relation every primitive steps along is one the pipeline steps
    along *)

Section Pipeline.

Context (R : world -> world -> Prop) `{!PreOrder R}.
Hypothesis R_mkdir : forall p, steps R (OS.mkdir p).
Hypothesis R_rename : forall src dst, steps R (OS.rename src dst).
Hypothesis R_print : forall line, steps R (print line).
Hypothesis R_logger : forall lvl msg, steps R (logger lvl msg).
Hypothesis R_read_file : forall p, steps R (OS.read_file p).

Lemma steps_mkdir_noparents self : steps R (mkdir_noparents self).
Proof. unfold mkdir_noparents. steps_using ltac:(apply R_mkdir). Qed.

Lemma steps_mkdir_parents root rtail : steps R (mkdir_parents root rtail).
Proof.
  induction rtail as [|c rtail IH]; rewrite mkdir_parents_unfold; cbv zeta;
    steps_using ltac:(first [apply R_mkdir | apply steps_mkdir_noparents]).
Qed.

Lemma steps_create_target_subdir target_dir subdir_name :
  steps R (create_target_subdir target_dir subdir_name).
Proof.
  unfold create_target_subdir, Path_mkdir.
  steps_using ltac:(first [apply steps_mkdir_parents | apply R_print]).
Qed.

Lemma steps_shutil_move src dst : steps R (OS.shutil_move src dst).
Proof.
  assert (Hr : forall real_dst,
            steps R (do! OS.rename src real_dst in ret real_dst)).
  { intros real_dst. steps_using ltac:(apply R_rename). }
  intros w r w'. unfold OS.shutil_move.
  destruct (OS.isdir dst w); [|apply Hr].
  destruct (OS.exists_ _ w); [by intros [= _ <-]|apply Hr].
Qed.

Lemma steps_move_file_to_directory src d : steps R (move_file_to_directory src d).
Proof.
  unfold move_file_to_directory, Path_mkdir.
  steps_using ltac:(first [apply steps_mkdir_parents | apply R_print
                          | apply steps_shutil_move]).
Qed.

Lemma steps_organization_block target_dir file_path file_name category :
  steps R (organization_block target_dir file_path file_name category).
Proof.
  unfold organization_block.
  steps_using ltac:(first [apply steps_create_target_subdir
                          | apply steps_move_file_to_directory
                          | apply R_logger]).
Qed.

Context (L : libraries).

Lemma steps_extract_text file_path : steps R (extract_text L file_path).
Proof.
  unfold extract_text, extract_text_dispatch, extract_text_handler,
    wrap_extraction_error,
    _extract_text_from_docx, _extract_text_from_pdf, _extract_text_from_excel,
    _extract_text_from_pptx, wrap_extraction_error.
  steps_using ltac:(first [apply R_print | apply R_read_file]).
Qed.

Lemma steps_extraction_block file_path file_name file_ext :
  steps R (extraction_block L file_path file_name file_ext).
Proof.
  unfold extraction_block.
  steps_using ltac:(first [apply steps_extract_text | apply R_logger]).
Qed.

Lemma steps_process_one_file categorizer target_dir file_path :
  steps R (process_one_file L categorizer target_dir file_path).
Proof.
  unfold process_one_file.
  steps_using ltac:(first [apply steps_extraction_block
                          | apply steps_organization_block | apply R_logger]).
Qed.

Lemma steps_process_files_loop categorizer target_dir files :
  steps R (process_files_loop L categorizer target_dir files).
Proof.
  induction files as [|f files IH]; simpl;
    steps_using ltac:(apply steps_process_one_file).
Qed.

Lemma steps_process_files_from target_dir files :
  steps R (process_files_from L target_dir files).
Proof.
  unfold process_files_from.
  steps_using ltac:(first [apply steps_process_files_loop | apply R_logger]).
Qed.

End Pipeline.

(** ** Files the loop does not name *)

Section Others.

Context (L : libraries).

Local Abbreviation tree_kept := (kept (fun w : world => OS.tree (fs w))).





Lemma basename_basename p : OS.basename (OS.basename p) = OS.basename p.
Proof. apply basename_plain, basename_no_sep. Qed.



(** What an iteration that goes on to relocation has established. *)
Lemma process_one_file_relocates categorizer target_dir file_path w o w' c :
  process_one_file L categorizer target_dir file_path w = (Ok o, w') ->
  o = MoveFailed c \/ (exists d, o = Moved c d) ->
  file_extension_of file_path ∈ ALL_SUPPORTED_EXTENSIONS
  /\ OS.isfile file_path w = true
  /\ exists text,
       (extract_text L file_path w).1 = Ok (Some text)
       /\ strip text <> []
       /\ categorize_text categorizer text PREDEFINED_CATEGORIES = Some c.
Proof.
  unfold process_one_file. unfold bind at 1. unfold logger at 1.
  set (w0 := {| fs := fs w; cwd := cwd w; stdout := stdout w;
                log := log w ++ [(INFO, u "Processing file: " ++ file_path)];
                reads := reads w |}).
  assert (Hsame : same_files w w0) by done.
  destruct (extract_text_respects L file_path w w0 Hsame) as [Hres _].
  rewrite (isfile_same_files file_path w w0 Hsame). rewrite Hres.
  unfold bind at 1, extraction_block, try_except.
  rewrite splitext_basename. fold (file_extension_of file_path).
  destruct (ext_in (file_extension_of file_path) ALL_SUPPORTED_EXTENSIONS)
    eqn:Hext; cbn [negb].
  2:{ unfold bind, logger, ret. intros [= <- _] [?|[? ?]]; done. }
  apply ext_in_true in Hext. unfold bind at 1.
  destruct (extract_text L file_path w0) as [[[text|]|e] wa] eqn:Ee.
  - destruct (truthy (strip text)) eqn:Hs; cbn [negb].
    2:{ unfold bind, logger, ret. intros [= <- _] [?|[? ?]]; done. }
    unfold ret at 1.
    destruct (categorize_text categorizer text PREDEFINED_CATEGORIES)
      as [c'|] eqn:Ec.
    2:{ unfold bind, logger, ret. intros [= <- _] [?|[? ?]]; done. }
    destruct (truthy c').
    2:{ unfold bind, logger, ret. intros [= <- _] [?|[? ?]]; done. }
    intros Hb Ho.
    assert (c' = c) as ->.
    { apply organization_block_inv in Hb
        as [(d & w1 & w2 & _ & _ & -> & _)|[-> _]];
        destruct Ho as [?|[? ?]]; congruence. }
    split; [done|]. split.
    { unfold extract_text in Ee. by destruct (OS.isfile file_path w0). }
    exists text. split_and!; [done| |done]. by destruct (strip text).
  - unfold bind, logger, ret. intros [= <- _] [?|[? ?]]; done.
  - destruct (is_TextExtractionError e), (is_FileNotFoundError e),
      (is_Exception e); unfold bind, logger, ret, raise; try done;
      intros [= <- _] [?|[? ?]]; done.
Qed.



End Others.

(** ** [file_utils.py] and the iteration *)

Section FileUtilsMore.




Lemma silent_mkdir_parents root rtail : steps silent (mkdir_parents root rtail).
Proof. apply steps_mkdir_parents; [apply _|apply silent_mkdir]. Qed.

Lemma dirs_added_mkdir_parents root rtail :
  steps dirs_added (mkdir_parents root rtail).
Proof. apply steps_mkdir_parents; [apply _|apply dirs_added_mkdir]. Qed.


(** X11.  When [create_target_subdir] returns, the path it returns is a
    directory; nothing was printed; every node of the file system is still
    there, and what is new are directories. *)
Theorem create_target_subdir_success target_dir subdir_name w d w' :
  create_target_subdir target_dir subdir_name w = (Ok d, w') ->
  OS.isdir d w' = true /\ silent w w' /\ dirs_added w w'.
Proof.
  intros H. pose proof (create_target_subdir_ok _ _ _ _ _ H) as [-> Hmk].
  split_and!.
  - by apply Path_mkdir_idempotent in Hmk as [_ ?].
  - by apply (silent_mkdir_parents _ _ _ _ _ Hmk).
  - by apply (dirs_added_mkdir_parents _ _ _ _ _ Hmk).
Qed.

Lemma move_with_directory src d w :
  OS.isfile src w = true -> OS.isdir d w = true ->
  move_file_to_directory src d w
  = (let destination_path := OS.join d (OS.basename src) in
     try_except
       (let! _ := OS.shutil_move src destination_path in ret tt)
       (fun e =>
          if is_Exception e then
            do! print (u "Error moving file '" ++ src ++ u "' to '"
                       ++ destination_path ++ u "': " ++ exn_str e) in
            raise e
          else raise e)) w.
Proof.
  intros Hs Hd. unfold move_file_to_directory. rewrite Hs. cbn [negb].
  unfold bind at 1. rewrite Hd. cbn [negb]. by unfold ret at 1.
Qed.

Lemma stat_not_isdir w p content :
  OS.stat w p = inr (File content) -> OS.isdir p w = false.
Proof. unfold OS.isdir. by intros ->. Qed.

(** X12.  A regular file that is already at the destination is replaced
    without notice: [move_file_to_directory] returns, nothing is printed, and
    the destination then holds the content of the moved file. *)
Theorem move_file_replaces_existing_file src d w content old :
  OS.stat w src = inr (File content) ->
  OS.isdir d w = true ->
  OS.stat w (OS.join d (OS.basename src)) = inr (File old) ->
  exists w',
    move_file_to_directory src d w = (Ok tt, w')
    /\ OS.stat w' (OS.join d (OS.basename src)) = inr (File content)
    /\ silent w w'.
Proof.
  intros Hs Hd Hold.
  pose proof (stat_not_isdir _ _ _ Hold) as Hnd.
  destruct (rename_succeeds src _ w content Hs (basename_no_sep _) d eq_refl
              Hd Hnd) as [w' Hren].
  exists w'. rewrite (move_with_directory _ _ _ (stat_isfile _ _ _ Hs) Hd).
  cbv zeta. unfold try_except, bind, OS.shutil_move. rewrite Hnd.
  unfold bind. rewrite Hren. unfold ret. split_and!; [done| |].
  - by destruct (rename_moves _ _ _ _ _ Hs Hren).
  - by apply (silent_rename _ _ _ _ _ Hren).
Qed.

(** X13.  When the destination is a directory (a directory with the name of
    the file, in the category directory), the file is moved into it, under
    its own name; unless that name is taken there: then the move is refused
    with an error, a line is printed and the file system is left as it
    was. *)
Theorem move_file_onto_directory src d w content :
  OS.stat w src = inr (File content) ->
  OS.isdir d w = true ->
  let destination_path := OS.join d (OS.basename src) in
  let inside := OS.join destination_path (OS.basename src) in
  OS.isdir destination_path w = true ->
  (OS.exists_ inside w = false ->
   exists w', move_file_to_directory src d w = (Ok tt, w')
              /\ OS.stat w' inside = inr (File content))
  /\ (OS.exists_ inside w = true ->
      exists e w', move_file_to_directory src d w = (Raise e, w')
                   /\ is_OSError e = true /\ same_files w w'
                   /\ stdout w'
                      = stdout w
                        ++ [u "Error moving file '" ++ src ++ u "' to '"
                            ++ destination_path ++ u "': " ++ exn_str e]).
Proof.
  intros Hs Hd dest inside Hdd.
  rewrite (move_with_directory _ _ _ (stat_isfile _ _ _ Hs) Hd).
  cbv zeta. fold dest. unfold try_except, bind, OS.shutil_move.
  rewrite Hdd. fold inside. split; intros Hex; rewrite Hex.
  - assert (Hni : OS.isdir inside w = false).
    { revert Hex. unfold OS.exists_, OS.isdir. by destruct (OS.stat w inside). }
    destruct (rename_succeeds src inside w content Hs (basename_no_sep _) dest
                eq_refl Hdd Hni) as [w' Hren].
    exists w'. unfold bind. rewrite Hren. unfold ret. split; [done|].
    by destruct (rename_moves _ _ _ _ _ Hs Hren).
  - eexists _, _. cbn [is_Exception exn_cls]. unfold print, raise.
    split_and!; [reflexivity|done..].
Qed.

End FileUtilsMore.

Section SorterMore.

Context (L : libraries).

(** X14.  A legacy [.doc] file is never relocated, although its extension is
    listed as supported: the iteration ends with the warning for an empty
    text, the file is not opened, and the file system stays as it was. *)
Theorem legacy_doc_is_never_moved categorizer target_dir file_path w :
  OS.isfile file_path w = true ->
  file_extension_of file_path = u ".doc" ->
  exists w',
    process_one_file L categorizer target_dir file_path w = (Ok EmptyText, w')
    /\ same_files w w' /\ reads w' = reads w
    /\ log w'
       = log w
         ++ [(INFO, u "Processing file: " ++ file_path);
             (WARNING,
              u "Text extraction returned None or empty text for supported file '"
              ++ OS.basename file_path ++ u "'. Skipping.")].
Proof.
  intros Hfile Hext. unfold process_one_file. unfold bind at 1, logger at 1.
  unfold bind at 1, extraction_block, try_except.
  rewrite splitext_basename. fold (file_extension_of file_path). rewrite Hext.
  assert (ext_in (u ".doc") ALL_SUPPORTED_EXTENSIONS = true) as -> by done.
  cbn [negb]. unfold bind at 1.
  match goal with
  | |- context [extract_text L file_path ?w0] =>
      assert (Hf0 : OS.isfile file_path w0 = true) by done;
      destruct (extract_text_None_iff L file_path w0 Hf0) as (_ & Hdoc & _);
      rewrite (Hdoc Hext)
  end.
  unfold bind, logger, ret, print. cbn [fst snd].
  eexists. split; [reflexivity|]. cbn [fs cwd log reads].
  split_and!; [done|done|]. by rewrite <- app_assoc.
Qed.

Lemma extraction_block_supported file_path file_name file_ext w r w' :
  ext_in file_ext ALL_SUPPORTED_EXTENSIONS = true ->
  extraction_block L file_path file_name file_ext w = (r, w') ->
  r <> Ok (inl Unsupported).
Proof.
  intros Hext. unfold extraction_block, try_except. rewrite Hext. cbn [negb].
  unfold bind at 1.
  destruct (extract_text L file_path w) as [[[text|]|e] wa].
  - destruct (negb (truthy (strip text))); unfold bind, logger, ret;
      by intros [= <- _].
  - unfold bind, logger, ret. by intros [= <- _].
  - destruct (is_TextExtractionError e), (is_FileNotFoundError e),
      (is_Exception e); unfold bind, logger, ret, raise; by intros [= <- _].
Qed.

(** X15.  An iteration ends as "not a supported document type" exactly
    when the lowercased extension of the file is not one of the supported
    ones; such a file is not even looked for: nothing is opened or printed,
    the file system stays as it was, and the log gets the two records of the
    iteration. *)
Theorem unsupported_file_is_not_opened categorizer target_dir file_path w :
  (file_extension_of file_path ∉ ALL_SUPPORTED_EXTENSIONS ->
   exists w',
     process_one_file L categorizer target_dir file_path w = (Ok Unsupported, w')
     /\ same_files w w' /\ reads w' = reads w /\ stdout w' = stdout w
     /\ log w'
        = log w
          ++ [(INFO, u "Processing file: " ++ file_path);
              (INFO,
               u "File '" ++ OS.basename file_path ++ u "' (type: "
               ++ file_extension_of file_path
               ++ u ") is not a supported document type for text extraction. Skipping categorization, leaving in source.")])
  /\ (forall w',
        process_one_file L categorizer target_dir file_path w
        = (Ok Unsupported, w') ->
        file_extension_of file_path ∉ ALL_SUPPORTED_EXTENSIONS).
Proof.
  split.
  - intros Hext%ext_in_false. unfold process_one_file.
    unfold bind at 1, logger at 1. unfold bind at 1, extraction_block, try_except.
    rewrite splitext_basename. fold (file_extension_of file_path).
    rewrite Hext. cbn [negb]. unfold bind, logger, ret. cbn [fst snd].
    eexists. split; [reflexivity|]. cbn [fs cwd log reads stdout].
    split_and!; [done..|]. by rewrite <- app_assoc.
  - intros w' H Hext%ext_in_true. revert H. unfold process_one_file.
    unfold bind at 1, logger at 1. unfold bind at 1.
    rewrite splitext_basename. fold (file_extension_of file_path).
    destruct (extraction_block L file_path _ _ _) as [[[o|text]|e] wa] eqn:E;
      [| |done].
    + apply (extraction_block_supported _ _ _ _ _ _ Hext) in E.
      unfold ret. intros [= -> _]. done.
    + destruct (categorize_text categorizer text PREDEFINED_CATEGORIES)
        as [c|]; [|unfold bind, logger, ret; by intros [= ? _]].
      destruct (truthy c); [|unfold bind, logger, ret; by intros [= ? _]].
      intros [(d & w1 & w2 & _ & _ & ? & _)|[? _]]%organization_block_inv;
        done.
Qed.

(** X16.  A file is relocated (or its relocation is attempted and fails)
    only as the categorizer says: it is a regular file with a supported
    extension, [extract_text] returned a text that is not blank, and the
    category of the move is the answer of [categorize_text] on that text for
    the predefined categories. *)
Theorem relocation_follows_categorization categorizer target_dir file_path
    w o w' c :
  process_one_file L categorizer target_dir file_path w = (Ok o, w') ->
  o = MoveFailed c \/ (exists d, o = Moved c d) ->
  file_extension_of file_path ∈ ALL_SUPPORTED_EXTENSIONS
  /\ OS.isfile file_path w = true
  /\ exists text,
       (extract_text L file_path w).1 = Ok (Some text)
       /\ strip text <> []
       /\ categorize_text categorizer text PREDEFINED_CATEGORIES = Some c.
Proof. apply process_one_file_relocates. Qed.

End SorterMore.

(** ** Directory listings and the walk *)

Section Listing.

Lemma elem_of_children f k name n :
  (name, n) ∈ OS.children f k <-> f !! (k ++ [name]) = Some n.
Proof.
  unfold OS.children. rewrite list_elem_of_omap. split.
  - intros ([k' n'] & Hin & H). apply elem_of_map_to_list in Hin.
    simpl in H. destruct (last k') as [name'|]; [|done].
    case_bool_decide as E; [|done]. injection H as -> ->. by rewrite <- E.
  - intros H. exists (k ++ [name], n). split; [by apply elem_of_map_to_list|].
    simpl. rewrite last_snoc. by rewrite bool_decide_eq_true_2.
Qed.

Lemma NoDup_children f k : NoDup (OS.children f k).*1.
Proof.
  unfold OS.children.
  pose proof (NoDup_fst_map_to_list f) as Hnd.
  induction (map_to_list f) as [|[k' n'] l IH]; simpl; [constructor|].
  apply NoDup_cons in Hnd as [Hk' Hnd]. specialize (IH Hnd).
  destruct (last k') as [name|] eqn:El; [|done].
  case_bool_decide as E; [|done]. simpl. apply NoDup_cons. split; [|done].
  intros ([name' n''] & -> & Hin)%list_elem_of_fmap. simpl in *.
  apply list_elem_of_omap in Hin as ([k2 n2] & Hin2 & H2). simpl in H2.
  destruct (last k2) as [name2|]; [|done].
  case_bool_decide as E2; [|done]. injection H2 as -> ->.
  apply Hk'. apply list_elem_of_fmap. exists (k2, n''). split; [|done].
  simpl. congruence.
Qed.

Context (order : OS.listing).

Lemma elem_of_entries f k name n :
  (name, n) ∈ OS.entries order f k <-> f !! (k ++ [name]) = Some n.
Proof. by rewrite (OS.entries_children order f k), elem_of_children. Qed.

Lemma NoDup_entries f k : NoDup (OS.entries order f k).*1.
Proof. rewrite (OS.entries_children order f k). apply NoDup_children. Qed.

Lemma elem_of_List_filter {A} (P : A -> bool) (l : list A) (x : A) :
  x ∈ List.filter P l <-> x ∈ l /\ P x = true.
Proof. by rewrite !list_elem_of_In, filter_In. Qed.

Lemma NoDup_List_filter_fst {A B} (P : A * B -> bool) (l : list (A * B)) :
  NoDup l.*1 -> NoDup (List.filter P l).*1.
Proof.
  induction l as [|x l IH]; simpl; [done|]. intros [Hx Hl]%NoDup_cons.
  destruct (P x); simpl; [|by apply IH]. apply NoDup_cons. split; [|by apply IH].
  intros (y & Hy & Hin)%list_elem_of_fmap. apply Hx.
  apply list_elem_of_fmap. exists y. split; [done|].
  by apply elem_of_List_filter in Hin as [? _].
Qed.

Lemma elem_of_dirs f k name :
  name ∈ (List.filter OS.entry_is_dir (OS.entries order f k)).*1
  <-> f !! (k ++ [name]) = Some Dir.
Proof.
  rewrite list_elem_of_fmap. split.
  - intros ([name' n] & -> & [Hin Hd]%elem_of_List_filter).
    apply elem_of_entries in Hin. simpl. by destruct n.
  - intros H. exists (name, Dir). split; [done|].
    apply elem_of_List_filter. split; [by apply elem_of_entries|done].
Qed.

Lemma elem_of_nondirs f k name :
  name ∈ (List.filter (fun entry => negb (OS.entry_is_dir entry))
            (OS.entries order f k)).*1
  <-> exists content, f !! (k ++ [name]) = Some (File content).
Proof.
  rewrite list_elem_of_fmap. split.
  - intros ([name' n] & -> & [Hin Hd]%elem_of_List_filter).
    apply elem_of_entries in Hin. simpl. destruct n; [eauto|done].
  - intros [content H]. exists (name, File content). split; [done|].
    apply elem_of_List_filter. split; [by apply elem_of_entries|done].
Qed.

End Listing.

Section Joining.

Lemma startswith_join d name :
  d <> [] -> OS.SEP ∉ name ->
  startswith [OS.SEP] (OS.join d name) = startswith [OS.SEP] d.
Proof.
  intros Hd Hn. unfold OS.join. rewrite (startswith_sep_false _ Hn).
  destruct d as [|c d]; [done|]. cbn [truthy negb orb].
  by destruct (bool_decide _).
Qed.

Lemma step_empty f cur : OS.step f cur [] = match OS.node_at f cur with
                                            | None => inl OS.ENOENT
                                            | Some (File _) => inl OS.ENOTDIR
                                            | Some Dir => inr cur
                                            end.
Proof. done. Qed.

(** Resolving [os.path.join(d, name)] is resolving [d] and one step more. *)
Lemma resolve_join_step w d name :
  d <> [] -> OS.SEP ∉ name ->
  OS.resolve w (OS.join d name)
  = match OS.resolve w d with
    | inl e => inl e
    | inr k => OS.step (fs w) k name
    end.
Proof.
  intros Hd Hn.
  assert (Hj : OS.join d name <> []).
  { unfold OS.join. rewrite (startswith_sep_false _ Hn).
    destruct d; [done|]. cbn [truthy negb orb]. by destruct (bool_decide _). }
  rewrite (resolve_nonempty _ _ Hj), (resolve_nonempty _ _ Hd).
  rewrite (startswith_join _ _ Hd Hn).
  set (start := if startswith [OS.SEP] d then [] else cwd w).
  unfold OS.join. rewrite (startswith_sep_false _ Hn).
  assert (negb (truthy d) = false) as -> by (by destruct d). cbn [orb].
  destruct (bool_decide (last d = Some OS.SEP)) eqn:El.
  - apply bool_decide_eq_true in El. apply last_Some in El as [d' ->].
    rewrite split_snoc_sep, walk_app. rewrite <- app_assoc.
    change ([OS.SEP] ++ name) with (OS.SEP :: name).
    rewrite split_app, walk_app, (split_no_sep _ name Hn).
    destruct (OS.walk (fs w) start (OS.split OS.SEP d')) as [e|k0]; [done|].
    cbn [OS.walk]. rewrite step_empty.
    destruct (OS.node_at (fs w) k0) as [[?|]|] eqn:E;
      [by unfold OS.step; rewrite E| |by unfold OS.step; rewrite E].
    by destruct (OS.step (fs w) k0 name).
  - change ([OS.SEP] ++ name) with (OS.SEP :: name).
    rewrite split_app, walk_app, (split_no_sep _ name Hn).
    destruct (OS.walk (fs w) start (OS.split OS.SEP d)) as [e|k0]; [done|].
    cbn [OS.walk]. by destruct (OS.step (fs w) k0 name).
Qed.

Lemma step_filename f cur name :
  OS.node_at f cur = Some Dir -> OS.filename name ->
  OS.step f cur name = inr (cur ++ [name]).
Proof.
  intros Hc (H1 & H2 & H3 & _). unfold OS.step. rewrite Hc.
  by rewrite !bool_decide_eq_false_2.
Qed.


Lemma resolve_child w top k name :
  OS.resolve w top = inr k -> OS.node_at (fs w) k = Some Dir ->
  OS.filename name ->
  OS.resolve w (OS.join top name) = inr (k ++ [name]).
Proof.
  intros Hr Hk Hn. assert (top <> []) by (by destruct top).
  rewrite resolve_join_step by (done || apply Hn). rewrite Hr.
  by apply step_filename.
Qed.

End Joining.

Section Walk.

Context (order : OS.listing) (w : world).

Local Abbreviation dirs_at k :=
  (List.filter OS.entry_is_dir (OS.entries order (fs w) k)).*1.
Local Abbreviation nondirs_at k :=
  (List.filter (fun entry => negb (OS.entry_is_dir entry))
     (OS.entries order (fs w) k)).*1.

Lemma os_walk_from_unfold depth top k :
  OS.resolve w top = inr k -> OS.node_at (fs w) k = Some Dir ->
  OS.os_walk_from (S depth) order w top
  = (top, dirs_at k, nondirs_at k)
    :: List.flat_map
         (fun dirname => OS.os_walk_from depth order w (OS.join top dirname))
         (dirs_at k).
Proof. intros Hr Hk. simpl. unfold OS.scandir. by rewrite Hr, Hk. Qed.

Lemma os_walk_from_fails depth top :
  (forall k, OS.resolve w top = inr k -> OS.node_at (fs w) k <> Some Dir) ->
  OS.os_walk_from depth order w top = [].
Proof.
  intros H. destruct depth as [|depth]; [done|]. simpl. unfold OS.scandir.
  destruct (OS.resolve w top) as [e|k]; [done|].
  specialize (H k eq_refl). by destruct (OS.node_at (fs w) k) as [[?|]|].
Qed.

Lemma elem_of_flat_map {A B} (f : A -> list B) (l : list A) (y : B) :
  y ∈ List.flat_map f l <-> exists x, x ∈ l /\ y ∈ f x.
Proof.
  rewrite list_elem_of_In, in_flat_map.
  by setoid_rewrite list_elem_of_In.
Qed.

Lemma flat_map_ext_elem {A B} (f g : A -> list B) (l : list A) :
  (forall x, x ∈ l -> f x = g x) -> List.flat_map f l = List.flat_map g l.
Proof.
  induction l as [|x l IH]; intros H; simpl; [done|].
  rewrite (H x) by left. rewrite IH; [done|]. intros y Hy. apply H. by right.
Qed.

Hypothesis Hproper : OS.proper (fs w).

Lemma proper_child k name n :
  fs w !! (k ++ [name]) = Some n -> OS.filename name.
Proof.
  intros H. pose proof (Hproper _ _ H) as Hf. simpl in Hf.
  apply Forall_app in Hf as [_ Hf]. by inversion Hf.
Qed.

Lemma key_height k n : fs w !! k = Some n -> (length k <= OS.height (fs w))%nat.
Proof.
  intros H. unfold OS.height. apply max_list_elem_of_le.
  apply list_elem_of_fmap. exists k. split; [done|].
  apply list_elem_of_fmap. exists (k, n). split; [done|].
  by apply elem_of_map_to_list.
Qed.

(** What the walk yields: for the directory some names below the top, its
    path, its sub-directories and its files. *)
Lemma os_walk_from_sound depth top k t :
  OS.resolve w top = inr k -> OS.node_at (fs w) k = Some Dir ->
  t ∈ OS.os_walk_from depth order w top ->
  exists names,
    t = (foldl OS.join top names, dirs_at (k ++ names), nondirs_at (k ++ names))
    /\ OS.resolve w (foldl OS.join top names) = inr (k ++ names)
    /\ OS.node_at (fs w) (k ++ names) = Some Dir
    /\ Forall OS.filename names.
Proof.
  revert top k. induction depth as [|depth IH]; intros top k Hr Hk;
    [by intros ?%elem_of_nil|].
  rewrite (os_walk_from_unfold _ _ _ Hr Hk).
  intros [->|(dirname & Hd & Ht)%elem_of_flat_map]%elem_of_cons.
  - exists []. rewrite app_nil_r. by split_and!.
  - apply elem_of_dirs in Hd. pose proof (proper_child _ _ _ Hd) as Hn.
    destruct (IH (OS.join top dirname) (k ++ [dirname])) with (1 := resolve_child _ _ _ _ Hr Hk Hn)
      as (names & -> & Hr' & Hk' & Hf); [by rewrite node_at_snoc|done|].
    exists (dirname :: names). rewrite <- !app_assoc in *. simpl in *.
    split_and!; [done..|by constructor].
Qed.


(** More depth than the file system has changes nothing. *)
Lemma os_walk_from_depth d1 d2 top k :
  OS.resolve w top = inr k -> OS.node_at (fs w) k = Some Dir ->
  (OS.height (fs w) < d1 + length k)%nat ->
  (OS.height (fs w) < d2 + length k)%nat ->
  OS.os_walk_from d1 order w top = OS.os_walk_from d2 order w top.
Proof.
  revert d2 top k. induction d1 as [|d1 IH]; intros d2 top k Hr Hk H1 H2.
  - exfalso. destruct k as [|c k]; [simpl in H1; lia|].
    apply key_height in Hk. simpl in *. lia.
  - destruct d2 as [|d2].
    { exfalso. destruct k as [|c k]; [simpl in H2; lia|].
      apply key_height in Hk. simpl in *. lia. }
    rewrite !(os_walk_from_unfold _ _ _ Hr Hk). f_equal.
    apply flat_map_ext_elem. intros dirname Hd%elem_of_dirs.
    pose proof (proper_child _ _ _ Hd) as Hn.
    apply (IH _ _ (k ++ [dirname])).
    + by apply resolve_child.
    + by rewrite node_at_snoc.
    + rewrite length_app. simpl. lia.
    + rewrite length_app. simpl. lia.
Qed.

Lemma os_walk_depth depth top :
  (OS.height (fs w) < depth)%nat ->
  OS.os_walk_from depth order w top = OS.os_walk order w top.
Proof.
  intros Hd. unfold OS.os_walk.
  destruct (OS.resolve w top) as [e|k] eqn:Hr.
  { rewrite !os_walk_from_fails; [done|by rewrite Hr..]. }
  destruct (OS.node_at (fs w) k) as [[content|]|] eqn:Hk.
  - rewrite !os_walk_from_fails; [done|rewrite Hr; intros ? [= <-]; by rewrite Hk..].
  - apply (os_walk_from_depth _ _ _ k); [done..|lia|lia].
  - rewrite !os_walk_from_fails; [done|rewrite Hr; intros ? [= <-]; by rewrite Hk..].
Qed.

End Walk.

Section WalkOnce.

Context (order : OS.listing) (w : world).
Hypothesis Hproper : OS.proper (fs w).

Lemma flat_map_bind {A B} (f : A -> list B) (l : list A) :
  List.flat_map f l = l ≫= f.
Proof. induction l as [|x l IH]; [done|]. simpl. by rewrite IH. Qed.

Lemma fmap_flat_map {A B C} (h : B -> C) (f : A -> list B) (l : list A) :
  h <$> List.flat_map f l = List.flat_map (fun x => h <$> f x) l.
Proof.
  induction l as [|x l IH]; [done|]. simpl. by rewrite fmap_app, IH.
Qed.

Lemma NoDup_flat_map {A B} (f : A -> list B) (l : list A) :
  (forall x1 x2 y, x1 ∈ l -> x2 ∈ l -> y ∈ f x1 -> y ∈ f x2 -> x1 = x2) ->
  (forall x, x ∈ l -> NoDup (f x)) -> NoDup l -> NoDup (List.flat_map f l).
Proof. rewrite flat_map_bind. apply NoDup_bind. Qed.

Lemma NoDup_fmap_eq {A B} (f : A -> B) (l : list A) (x y : A) :
  NoDup (f <$> l) -> x ∈ l -> y ∈ l -> f x = f y -> x = y.
Proof.
  induction l as [|a l IH]; [by intros _ ?%elem_of_nil|].
  rewrite fmap_cons. intros [Ha Hl]%NoDup_cons.
  intros [->|Hx]%elem_of_cons [->|Hy]%elem_of_cons E; [done| | |by apply IH].
  - exfalso. apply Ha. rewrite E. apply list_elem_of_fmap. by exists y.
  - exfalso. apply Ha. rewrite <- E. apply list_elem_of_fmap. by exists x.
Qed.

(** The walk comes to every directory once. *)
Lemma os_walk_from_once depth top k :
  OS.resolve w top = inr k -> OS.node_at (fs w) k = Some Dir ->
  NoDup ((fun t : str * list str * list str => OS.resolve w t.1.1)
           <$> OS.os_walk_from depth order w top).
Proof.
  revert top k. induction depth as [|depth IH]; intros top k Hr Hk;
    [constructor|].
  rewrite (os_walk_from_unfold _ _ _ _ _ Hr Hk). rewrite fmap_cons.
  apply NoDup_cons. cbn [fst]. split.
  - intros (t & Ht & (dirname & Hd & Hin)%elem_of_flat_map)%list_elem_of_fmap.
    apply elem_of_dirs in Hd.
    pose proof (proper_child w Hproper _ _ _ Hd) as Hn.
    assert (Hkd : OS.node_at (fs w) (k ++ [dirname]) = Some Dir)
      by (by rewrite node_at_snoc).
    destruct (os_walk_from_sound order w Hproper _ _ _ _
                (resolve_child _ _ _ _ Hr Hk Hn) Hkd Hin)
      as (names & -> & Hr' & _).
    cbn [fst] in Ht. rewrite Hr', Hr in Ht. injection Ht as Ht.
    apply (f_equal length) in Ht. rewrite !length_app in Ht. simpl in Ht. lia.
  - rewrite fmap_flat_map. apply NoDup_flat_map.
    + intros d1 d2 y Hd1%elem_of_dirs Hd2%elem_of_dirs
        (t1 & -> & H1)%list_elem_of_fmap (t2 & E & H2)%list_elem_of_fmap.
      pose proof (proper_child w Hproper _ _ _ Hd1) as Hn1.
      pose proof (proper_child w Hproper _ _ _ Hd2) as Hn2.
      assert (Hk1 : OS.node_at (fs w) (k ++ [d1]) = Some Dir)
        by (by rewrite node_at_snoc).
      assert (Hk2 : OS.node_at (fs w) (k ++ [d2]) = Some Dir)
        by (by rewrite node_at_snoc).
      destruct (os_walk_from_sound order w Hproper _ _ _ _
                  (resolve_child _ _ _ _ Hr Hk Hn1) Hk1 H1)
        as (names1 & -> & Hr1 & _).
      destruct (os_walk_from_sound order w Hproper _ _ _ _
                  (resolve_child _ _ _ _ Hr Hk Hn2) Hk2 H2)
        as (names2 & -> & Hr2 & _).
      cbn [fst] in E. rewrite Hr1, Hr2 in E. injection E as E.
      rewrite <- !app_assoc in E. apply app_inv_head in E. by injection E.
    + intros dirname Hd%elem_of_dirs.
      pose proof (proper_child w Hproper _ _ _ Hd) as Hn.
      apply (IH _ (k ++ [dirname])); [by apply resolve_child|].
      by rewrite node_at_snoc.
    + apply NoDup_List_filter_fst, NoDup_entries.
Qed.

End WalkOnce.

(** ** [get_source_files] *)

Section DiscoveryLemmas.

Context (order : OS.listing).

(** The files of one directory that the function keeps. *)
Lemma keep_source_file_loop (ex : list str) (root : str)
    (source_files files : list str) :
  foldl (keep_source_file ex root) source_files files
  = source_files
    ++ (OS.join root
          <$> List.filter
                (fun file => negb (bool_decide (lower (OS.splitext file).2 ∈ ex)))
                files).
Proof.
  revert source_files. induction files as [|file files IH];
    intros source_files; simpl; [by rewrite app_nil_r|].
  rewrite IH. unfold keep_source_file.
  destruct (negb _); simpl; [by rewrite <- app_assoc|done].
Qed.

Lemma get_source_files_loops (ex : list str) (source_files : list str)
    (walk : list (str * list str * list str)) :
  foldl (fun source_files (yielded : str * list str * list str) =>
           let '(root, _, files) := yielded in
           foldl (keep_source_file ex root) source_files files)
    source_files walk
  = source_files
    ++ List.flat_map
         (fun t : str * list str * list str =>
            OS.join t.1.1
              <$> List.filter
                    (fun file =>
                       negb (bool_decide (lower (OS.splitext file).2 ∈ ex)))
                    t.2) walk.
Proof.
  revert source_files. induction walk as [|[[root dirs] files] walk IH];
    intros source_files; simpl; [by rewrite app_nil_r|].
  by rewrite IH, keep_source_file_loop, <- app_assoc.
Qed.

Lemma get_source_files_inv source_dir excluded w r w' :
  get_source_files order source_dir excluded w = (r, w') ->
  w' = w
  /\ ((OS.isdir source_dir w = false
       /\ r = Raise (Exn FileNotFoundError
                       (u "Source directory '" ++ source_dir
                        ++ u "' not found.") None))
      \/ (OS.isdir source_dir w = true
          /\ r = Ok (List.flat_map
                       (fun t : str * list str * list str =>
                          OS.join t.1.1
                            <$> List.filter
                                  (fun file =>
                                     negb (bool_decide
                                             (lower (OS.splitext file).2
                                              ∈ List.map lower excluded)))
                                  t.2)
                       (OS.os_walk order w source_dir)))).
Proof.
  unfold get_source_files. destruct (OS.isdir source_dir w); cbn [negb].
  - cbv zeta. rewrite get_source_files_loops. intros [= <- <-]. auto.
  - intros [= <- <-]. auto.
Qed.

End DiscoveryLemmas.

Section DiscoveryClaims.

Context (order : OS.listing).


Lemma NoDup_List_filter {A} (P : A -> bool) (l : list A) :
  NoDup l -> NoDup (List.filter P l).
Proof.
  induction l as [|x l IH]; simpl; [done|]. intros [Hx Hl]%NoDup_cons.
  destruct (P x); [|by apply IH]. apply NoDup_cons. split; [|by apply IH].
  by intros [? _]%elem_of_List_filter.
Qed.



Local Abbreviation wanted excluded :=
  (fun file : str =>
     negb (bool_decide (lower (OS.splitext file).2 ∈ List.map lower excluded))).





(** X19.  [get_source_files] lists no file twice: the paths it returns are
    pairwise distinct, and so are the files they name. *)
Theorem get_source_files_once source_dir excluded w files w' :
  OS.proper (fs w) ->
  get_source_files order source_dir excluded w = (Ok files, w') ->
  NoDup files /\ NoDup (OS.resolve w <$> files).
Proof.
  intros Hp [-> [[_ [=]]|[Hd [= ->]]]]%get_source_files_inv.
  assert (Hkeys : NoDup (OS.resolve w <$>
            List.flat_map
              (fun t : str * list str * list str =>
                 OS.join t.1.1 <$> List.filter (wanted excluded) t.2)
              (OS.os_walk order w source_dir))); [|by split; [apply NoDup_fmap_1 in Hkeys|]].
  unfold OS.isdir, OS.stat in Hd.
  destruct (OS.resolve w source_dir) as [e|k] eqn:Hr; [done|].
  destruct (OS.node_at (fs w) k) as [[?|]|] eqn:Hk; try done.
  pose proof (os_walk_from_once order w Hp (S (OS.height (fs w))) _ _ Hr Hk)
    as Honce. fold (OS.os_walk order w source_dir) in Honce.
  rewrite fmap_flat_map. apply NoDup_flat_map.
  - intros t1 t2 y Ht1 Ht2 (p1 & -> & Hp1)%list_elem_of_fmap
      (p2 & E & Hp2)%list_elem_of_fmap.
    apply (NoDup_fmap_eq _ _ _ _ Honce Ht1 Ht2).
    destruct (os_walk_from_sound order w Hp _ _ _ _ Hr Hk Ht1)
      as (names1 & -> & Hr1 & Hk1 & _).
    destruct (os_walk_from_sound order w Hp _ _ _ _ Hr Hk Ht2)
      as (names2 & -> & Hr2 & Hk2 & _).
    cbn [fst snd] in *.
    apply list_elem_of_fmap in Hp1 as (f1 & -> & [Hf1 _]%elem_of_List_filter).
    apply list_elem_of_fmap in Hp2 as (f2 & -> & [Hf2 _]%elem_of_List_filter).
    apply elem_of_nondirs in Hf1 as [c1 Hf1]. apply elem_of_nondirs in Hf2 as [c2 Hf2].
    rewrite (resolve_child _ _ _ _ Hr1 Hk1 (proper_child w Hp _ _ _ Hf1)) in E.
    rewrite (resolve_child _ _ _ _ Hr2 Hk2 (proper_child w Hp _ _ _ Hf2)) in E.
    injection E as E. apply app_inj_tail in E as [E _]. rewrite Hr1, Hr2.
    by rewrite E.
  - intros t Ht.
    destruct (os_walk_from_sound order w Hp _ _ _ _ Hr Hk Ht)
      as (names & -> & Hr1 & Hk1 & _). cbn [fst snd].
    rewrite <- list_fmap_compose. apply NoDup_fmap_2_strong.
    + intros f1 f2 [Hf1 _]%elem_of_List_filter [Hf2 _]%elem_of_List_filter.
      apply elem_of_nondirs in Hf1 as [c1 Hf1].
      apply elem_of_nondirs in Hf2 as [c2 Hf2]. simpl.
      rewrite (resolve_child _ _ _ _ Hr1 Hk1 (proper_child w Hp _ _ _ Hf1)).
      rewrite (resolve_child _ _ _ _ Hr1 Hk1 (proper_child w Hp _ _ _ Hf2)).
      intros [= E]. by apply app_inj_tail in E as [_ E].
    + apply NoDup_List_filter, NoDup_List_filter_fst, NoDup_entries.
  - by apply NoDup_fmap_1 in Honce.
Qed.

End DiscoveryClaims.

(** ** [os.makedirs] *)

Section Makedirs.

Lemma lstrip_sep_length s : (length (OS.lstrip_sep s) <= length s)%nat.
Proof.
  induction s as [|c s IH]; simpl; [done|]. destruct (c =? OS.SEP); simpl; lia.
Qed.

Lemma rstrip_sep_length s : (length (OS.rstrip_sep s) <= length s)%nat.
Proof.
  unfold OS.rstrip_sep. rewrite length_rev.
  etrans; [apply lstrip_sep_length|]. by rewrite length_rev.
Qed.

Lemma path_split_length p head tail :
  OS.path_split p = (head, tail) ->
  (length head <= length p)%nat
  /\ (tail <> [] -> length head < length p)%nat.
Proof.
  unfold OS.path_split.
  destruct (OS.rpartition OS.SEP p) as [[a b]|] eqn:E.
  - apply rpartition_Some in E as [-> _]. intros [= <- <-].
    assert (length (if negb (forallb (fun c : N => (c =? OS.SEP)%N)
                                  (a ++ [OS.SEP]))
                    then OS.rstrip_sep (a ++ [OS.SEP]) else a ++ [OS.SEP])
            <= length a + 1)%nat as Hl.
    { destruct (negb _).
      - etrans; [apply rstrip_sep_length|]. rewrite length_app. simpl. lia.
      - rewrite length_app. simpl. lia. }
    rewrite length_app. simpl. split; [lia|]. intros Hb.
    destruct b; [done|]. simpl. lia.
  - intros [= <- <-]. simpl. split; [lia|]. intros Hp. destruct p; [done|].
    simpl. lia.
Qed.

Lemma makedirs_split_length name head tail :
  (let '(head, tail) := OS.path_split name in
   if negb (truthy tail) then OS.path_split head else (head, tail))
  = (head, tail) ->
  truthy tail = true -> (length head < length name)%nat.
Proof.
  destruct (OS.path_split name) as [h t] eqn:E.
  apply path_split_length in E as [H1 H2].
  destruct (truthy t) eqn:Et; cbn [negb].
  - intros [= <- <-] _. apply H2. by destruct t.
  - intros E2 Ht. apply path_split_length in E2 as [H3 H4].
    assert (tail <> []) by (by destruct tail). specialize (H4 H). lia.
Qed.

Lemma mkdir_path_raises_OSError p w e w' :
  OS.mkdir_path p w = (Raise e, w') -> is_OSError e = true.
Proof.
  unfold OS.mkdir_path. destruct (OS.resolve w _) as [err|k].
  - intros [= <- _]. apply os_error_is_OSError.
  - destruct (OS.node_at (fs w) k); [|done]. by intros [= <- _].
Qed.

Lemma makedirs_from_unfold depth name exist_ok :
  OS.makedirs_from (S depth) name exist_ok
  = (let '(head, tail) :=
       let '(head, tail) := OS.path_split name in
       if negb (truthy tail) then OS.path_split head else (head, tail) in
     let! made :=
       (fun w =>
          if truthy head && truthy tail && negb (OS.exists_ head w) then
            (do! try_except (OS.makedirs_from depth head exist_ok)
                   (fun e => if OS.is_FileExistsError e then ret tt else raise e) in
             ret (bool_decide (tail = [OS.DOT]))) w
          else ret false w) in
     if made : bool then ret tt
     else
       try_except (OS.mkdir_path name)
         (fun e =>
            if is_OSError e then
              fun w => if negb exist_ok || negb (OS.isdir name w) then raise e w
                       else ret tt w
            else raise e)).
Proof.
  simpl. destruct (OS.path_split name) as [h t].
  by destruct (negb (truthy t)); [destruct (OS.path_split h)|].
Qed.

(** With more depth than the path is long, [os.makedirs] raises [OSError]s
    only. *)
Lemma makedirs_from_raises_OSError depth name exist_ok w e w' :
  (length name < depth)%nat ->
  OS.makedirs_from depth name exist_ok w = (Raise e, w') ->
  is_OSError e = true.
Proof.
  revert name w e w'. induction depth as [|depth IH]; intros name w e w' Hd;
    [lia|].
  rewrite makedirs_from_unfold.
  destruct (let '(head, tail) := OS.path_split name in
            if negb (truthy tail) then OS.path_split head else (head, tail))
    as [head tail] eqn:Es.
  unfold bind at 1.
  destruct (truthy head && truthy tail && negb (OS.exists_ head w)) eqn:Ec.
  - apply andb_true_iff in Ec as [[_ Ht]%andb_true_iff _].
    pose proof (makedirs_split_length _ _ _ Es Ht) as Hl.
    unfold bind at 1, try_except at 1.
    destruct (OS.makedirs_from depth head exist_ok w) as [[[]|e0] w0] eqn:E0.
    + unfold ret at 1. destruct (bool_decide (tail = [OS.DOT])); [done|].
      unfold try_except.
      destruct (OS.mkdir_path name w0) as [[[]|e1] w1] eqn:E1; [done|].
      pose proof (mkdir_path_raises_OSError _ _ _ _ E1) as He1. rewrite He1.
      destruct (negb exist_ok || negb (OS.isdir name w1)); [|done].
      by intros [= <- _].
    + apply IH in E0; [|lia].
      destruct (OS.is_FileExistsError e0); [|by intros [= <- _]].
      unfold ret at 1 2. destruct (bool_decide (tail = [OS.DOT])); [done|].
      unfold try_except.
      destruct (OS.mkdir_path name w0) as [[[]|e1] w1] eqn:E1; [done|].
      pose proof (mkdir_path_raises_OSError _ _ _ _ E1) as He1. rewrite He1.
      destruct (negb exist_ok || negb (OS.isdir name w1)); [|done].
      by intros [= <- _].
  - unfold ret at 1. unfold try_except.
    destruct (OS.mkdir_path name w) as [[[]|e1] w1] eqn:E1; [done|].
    pose proof (mkdir_path_raises_OSError _ _ _ _ E1) as He1. rewrite He1.
    destruct (negb exist_ok || negb (OS.isdir name w1)); [|done].
    by intros [= <- _].
Qed.

(** More depth than the path is long changes nothing. *)
Lemma makedirs_depth depth name exist_ok w :
  (length name < depth)%nat ->
  OS.makedirs_from depth name exist_ok w = OS.makedirs name exist_ok w.
Proof.
  unfold OS.makedirs.
  assert (H : forall d1 d2 name w,
            (length name < d1)%nat -> (length name < d2)%nat ->
            OS.makedirs_from d1 name exist_ok w
            = OS.makedirs_from d2 name exist_ok w); [|intros; apply H; lia].
  clear. induction d1 as [|d1 IH]; intros d2 name w H1 H2; [lia|].
  destruct d2 as [|d2]; [lia|]. rewrite !makedirs_from_unfold.
  destruct (let '(head, tail) := OS.path_split name in
            if negb (truthy tail) then OS.path_split head else (head, tail))
    as [head tail] eqn:Es.
  unfold bind.
  destruct (truthy head && truthy tail && negb (OS.exists_ head w)) eqn:Ec;
    [|done].
  apply andb_true_iff in Ec as [[_ Ht]%andb_true_iff _].
  pose proof (makedirs_split_length _ _ _ Es Ht) as Hl.
  unfold try_except at 1 3. by rewrite (IH d2) by lia.
Qed.

Context (R : world -> world -> Prop) `{!PreOrder R}.
Hypothesis R_mkdir_path : forall p, steps R (OS.mkdir_path p).

Lemma steps_makedirs_from depth name exist_ok :
  steps R (OS.makedirs_from depth name exist_ok).
Proof.
  revert name. induction depth as [|depth IH]; intros name.
  { by intros w r w' [= _ <-]. }
  rewrite makedirs_from_unfold.
  destruct (let '(head, tail) := OS.path_split name in
            if negb (truthy tail) then OS.path_split head else (head, tail))
    as [head tail].
  steps_using ltac:(first [apply R_mkdir_path | apply IH]).
Qed.

End Makedirs.

Section MkdirPath.

Lemma mkdir_path_inv p w r w' :
  OS.mkdir_path p w = (r, w') ->
  w' = w
  \/ exists q k, OS.resolve w q = inr k /\ OS.node_at (fs w) k = None
                 /\ w' = set_fs (<[k := Dir]> (fs w)) w.
Proof.
  unfold OS.mkdir_path.
  destruct (OS.resolve w _) as [e|k] eqn:Hr; [intros [= _ <-]; by left|].
  destruct (OS.node_at (fs w) k) eqn:Hk; intros [= _ <-]; [by left|].
  right. eauto.
Qed.

Lemma dirs_added_insert w k :
  OS.node_at (fs w) k = None -> dirs_added w (set_fs (<[k := Dir]> (fs w)) w).
Proof.
  intros E. pose proof (node_at_None_nonroot _ _ E) as Hk.
  destruct k as [|c k]; [done|]. simpl in E. split_and!; simpl.
  - by apply insert_subseteq.
  - done.
  - intros k' n [[_ <-]|[_ H1]]%lookup_insert_Some H2; [done|congruence].
Qed.

Lemma silent_mkdir_path p : steps silent (OS.mkdir_path p).
Proof.
  intros w r w' [->|(q & k & _ & _ & ->)]%mkdir_path_inv; by split_and!.
Qed.

Lemma dirs_added_mkdir_path p : steps dirs_added (OS.mkdir_path p).
Proof.
  intros w r w' [->|(q & k & _ & Hk & ->)]%mkdir_path_inv; [done|].
  by apply dirs_added_insert.
Qed.

Lemma tree_kept_mkdir_path p :
  steps (kept (fun w : world => OS.tree (fs w))) (OS.mkdir_path p).
Proof.
  intros w r w' [->|(q & k & Hr & Hk & ->)]%mkdir_path_inv Ht; [done|].
  simpl. destruct (resolve_not_dir w q k Ht Hr) as (cur & -> & Hcur & _);
    [by rewrite Hk|].
  apply tree_insert; auto.
Qed.

End MkdirPath.

(** ** [process_files] *)

Section BatchLemmas.

Context (L : libraries) (order : OS.listing).

Lemma steps_ensure_target_dir (R : world -> world -> Prop) `{!PreOrder R}
    target_dir :
  (forall p, steps R (OS.mkdir_path p)) ->
  (forall lvl msg, steps R (logger lvl msg)) ->
  steps R (ensure_target_dir target_dir).
Proof.
  intros Hm Hl. unfold ensure_target_dir, OS.makedirs.
  steps_using ltac:(first [apply Hl | by apply steps_makedirs_from]).
Qed.

Lemma dirs_added_logger lvl msg : steps dirs_added (logger lvl msg).
Proof. apply dirs_added_keeps_fs, logger_spec. Qed.

Lemma tree_kept_logger lvl msg :
  steps (kept (fun w : world => OS.tree (fs w))) (logger lvl msg).
Proof. apply kept_keeps_fs, logger_spec. Qed.

Lemma ensure_target_dir_returns target_dir : returns (ensure_target_dir target_dir).
Proof.
  intros w. unfold ensure_target_dir.
  destruct (OS.isdir target_dir w); cbn [negb]; [by eexists _, _|].
  unfold bind at 1, logger at 1, try_except, bind at 1.
  destruct (OS.makedirs target_dir true _) as [[[]|e] w1] eqn:E.
  - unfold bind, logger, ret. by eexists _, _.
  - apply makedirs_from_raises_OSError in E; [|lia]. rewrite E.
    unfold bind, logger, ret. by eexists _, _.
Qed.

Lemma no_attempt_ensure_target_dir target_dir :
  no_attempt (ensure_target_dir target_dir).
Proof.
  intros w r w' E. 
  assert (Hs : steps (fun w w' => attempts (log w') = attempts (log w))
                 (ensure_target_dir target_dir)).
  { assert (PreOrder (fun w w' : world => attempts (log w') = attempts (log w))).
    { split; [done|]. intros ? ? ? H1 H2. by rewrite H2. }
    unfold ensure_target_dir, OS.makedirs.
    steps_using ltac:(first
      [ apply steps_makedirs_from;
        [done|intros p w0 r0 w0' H0;
              by destruct (silent_mkdir_path p _ _ _ H0) as (_ & -> & _)]
      | intros w0 r0 w0'; unfold logger; intros [= _ <-]; cbn [log];
        by rewrite attempts_app, app_nil_r ]). }
  by apply (Hs _ _ _ E).
Qed.

Lemma discover_files_inv source_dir w r w' :
  discover_files order source_dir w = (r, w') ->
  same_files w w' /\ attempts (log w') = attempts (log w)
  /\ ((r = Ok None /\ OS.isdir source_dir w = false)
      \/ exists files,
           r = Ok (Some files)
           /\ get_source_files order source_dir EXCLUDED_FILE_EXTENSIONS w
              = (Ok files, w)).
Proof.
  unfold discover_files, try_except, bind at 1.
  destruct (get_source_files order source_dir EXCLUDED_FILE_EXTENSIONS w)
    as [r0 w0] eqn:E.
  pose proof E as [-> [[Hd ->]|[Hd ->]]]%get_source_files_inv.
  - cbn [is_FileNotFoundError exn_cls]. unfold bind, logger, ret.
    intros [= <- <-]. split_and!; [done| |by left].
    cbn [log]. by rewrite attempts_app, app_nil_r.
  - unfold bind, logger, ret. intros [= <- <-]. split_and!; [done| |].
    + cbn [log]. by rewrite attempts_app, app_nil_r.
    + right. eexists. split; [reflexivity|done].
Qed.

Lemma process_files_loop_attempts categorizer target_dir files w outcomes w' :
  process_files_loop L categorizer target_dir files w = (Ok outcomes, w') ->
  length outcomes = length files
  /\ attempts (log w') = attempts (log w) ++ files.
Proof.
  revert w outcomes w'. induction files as [|f files IH]; intros w os w'; simpl.
  { intros [= <- <-]. by rewrite app_nil_r. }
  unfold bind at 1.
  destruct (process_one_file L categorizer target_dir f w) as [[o|e] w1] eqn:E;
    [|done].
  unfold bind at 1.
  destruct (process_files_loop L categorizer target_dir files w1)
    as [[os'|e] w2] eqn:E'; [|done].
  intros [= <- <-]. destruct (IH _ _ _ E') as [Hl Ha]. simpl. split; [by rewrite Hl|].
  rewrite Ha, (process_one_file_attempt _ _ _ _ _ _ _ E).
  by rewrite <- app_assoc.
Qed.

End BatchLemmas.

Section BatchClaims.

Context (L : libraries) (order : OS.listing).

Local Abbreviation tree_kept := (kept (fun w : world => OS.tree (fs w))).

Lemma dirs_added_same_files w w' : same_files w w' -> dirs_added w w'.
Proof.
  intros [Hf Hc]. split_and!; [by rewrite Hf|done|]. intros k n. rewrite Hf.
  congruence.
Qed.


(** The ways [process_files] ends: before the loop, in a state that has at
    most new directories; or after the loop over the files found in such a
    state. *)
Lemma process_files_inv source_dir target_dir w r w' :
  process_files L order source_dir target_dir w = (r, w') ->
  exists w1,
    dirs_added w w1 /\ tree_kept w w1
    /\ attempts (log w1) = attempts (log w)
    /\ ((r = Ok None /\ w' = w1)
        \/ exists files r3,
             OS.isdir source_dir w = true
             /\ get_source_files order source_dir EXCLUDED_FILE_EXTENSIONS w1
                = (Ok files, w1)
             /\ process_files_from L target_dir files
                  (logger INFO
                     (u "Found " ++ str_of_nat (length files)
                      ++ u " files to process (after exclusions).") w1).2
                = (r3, w')
             /\ r = match r3 with
                    | Ok outcomes => Ok (Some outcomes)
                    | Raise e => Raise e
                    end).
Proof.
  unfold process_files. unfold bind at 1, logger at 1.
  set (w0 := {| fs := fs w; cwd := cwd w; stdout := stdout w;
                log := log w ++ _; reads := reads w |}).
  assert (H0 : same_files w w0) by done.
  assert (Ha0 : attempts (log w0) = attempts (log w)).
  { unfold w0. cbn [log]. by rewrite attempts_app, app_nil_r. }
  rewrite <- (isdir_same_files source_dir w w0 H0).
  destruct (OS.isdir source_dir w) eqn:Hsrc; cbn [negb].
  2:{ unfold bind, logger, ret. intros [= <- <-].
      refine (ex_intro _ _ (conj _ (conj _ (conj _
                (or_introl (conj eq_refl eq_refl)))))).
      - by apply dirs_added_same_files.
      - by intros Ht.
      - cbn [log]. rewrite attempts_app, app_nil_r. exact Ha0. }
  unfold bind at 1.
  destruct (ensure_target_dir_returns target_dir w0) as (ready & w1 & E1).
  rewrite E1.
  assert (Hd1 : dirs_added w w1).
  { etrans; [by apply dirs_added_same_files|].
    apply (steps_ensure_target_dir dirs_added target_dir
             dirs_added_mkdir_path dirs_added_logger _ _ _ E1). }
  assert (Ht1 : tree_kept w w1).
  { intros Ht.
    by apply (steps_ensure_target_dir tree_kept target_dir
                tree_kept_mkdir_path tree_kept_logger _ _ _ E1). }
  assert (Ha1 : attempts (log w1) = attempts (log w)).
  { by rewrite (no_attempt_ensure_target_dir _ _ _ _ E1). }
  destruct ready; cbn [negb].
  2:{ unfold ret. intros [= <- <-]. exists w1. split_and!; [done..|by left]. }
  unfold bind at 1.
  destruct (discover_files order source_dir w1) as [found w2] eqn:E2.
  pose proof E2 as (Hs2 & Ha2 & [[-> Hnd]|(files & -> & Hg)])%discover_files_inv.
  { unfold ret. intros [= <- <-]. exists w2. split_and!.
    - etrans; [done|by apply dirs_added_same_files].
    - intros Ht. destruct Hs2 as [<- _]. by apply Ht1.
    - by rewrite Ha2.
    - by left. }
  assert (w2 = (logger INFO
                  (u "Found " ++ str_of_nat (length files)
                   ++ u " files to process (after exclusions).") w1).2) as ->.
  { revert E2. unfold discover_files, try_except, bind at 1. rewrite Hg.
    unfold bind, logger, ret. by intros [= <-]. }
  unfold bind at 1.
  destruct (process_files_from L target_dir files _) as [r3 w3] eqn:E3.
  intros Hr. exists w1. split_and!; [done..|]. right. exists files, r3.
  split_and!; [done|done| |].
  - destruct r3; unfold ret in Hr; by injection Hr as <- <-.
  - destruct r3; unfold ret in Hr; by injection Hr as <- <-.
Qed.

Lemma process_files_from_inv target_dir files w r w' :
  process_files_from L target_dir files w = (r, w') ->
  exists w2,
    process_files_loop L (LLMCategorizer_init None None) target_dir files w
    = (r, w2)
    /\ same_files w2 w' /\ attempts (log w') = attempts (log w2).
Proof.
  unfold process_files_from, bind at 1.
  destruct (process_files_loop L _ target_dir files w) as [[os|e] w2] eqn:E.
  - unfold bind, logger, ret. intros [= <- <-]. exists w2.
    split_and!; [done..|]. cbn [log]. by rewrite attempts_app, app_nil_r.
  - intros [= <- <-]. by exists w2.
Qed.


(** X21.  When the source directory is not a directory, [process_files]
    returns before anything else is done: the target directory is not made,
    no file is looked for, and the log gets the start record and one error
    record.  And whenever the run ends before the loop, no file was taken up
    and the file system has at most new directories. *)
Theorem process_files_aborts source_dir target_dir w :
  (OS.isdir source_dir w = false ->
   exists w',
     process_files L order source_dir target_dir w = (Ok None, w')
     /\ same_files w w' /\ stdout w' = stdout w /\ reads w' = reads w
     /\ log w'
        = log w
          ++ [(INFO, u "Starting file sorting process. Source: '" ++ source_dir
                     ++ u "', Target: '" ++ target_dir ++ u "'");
              (ERROR, u "Source directory '" ++ source_dir
                      ++ u "' does not exist. Aborting process.")])
  /\ (forall w',
        process_files L order source_dir target_dir w = (Ok None, w') ->
        dirs_added w w' /\ attempts (log w') = attempts (log w)).
Proof.
  split.
  - intros Hd. unfold process_files. unfold bind at 1, logger at 1.
    match goal with
    | |- context [OS.isdir source_dir ?w0] =>
        assert (OS.isdir source_dir w0 = false) as -> by done
    end.
    cbn [negb]. unfold bind, logger, ret. eexists. split; [reflexivity|].
    cbn [fs cwd stdout reads log]. split_and!; [done..|].
    by rewrite <- app_assoc.
  - intros w' E.
    destruct (process_files_inv _ _ _ _ _ E)
      as (w1 & Hd & _ & Ha & [[_ ->]|(files & r3 & _ & _ & _ & Hr)]); [done|].
    by destruct r3.
Qed.

(** X22.  The files [process_files] takes up are the files
    [get_source_files] finds, each once and in that order: when the run comes
    to the loop, the log shows one "Processing file" record per path that
    [get_source_files] returns for the source directory and the excluded
    extensions (in the state in which the target directory has been made),
    and there is one outcome per path. *)
Theorem process_files_attempts_the_files_found source_dir target_dir w
    outcomes w' :
  process_files L order source_dir target_dir w = (Ok (Some outcomes), w') ->
  exists w1 files,
    dirs_added w w1
    /\ get_source_files order source_dir EXCLUDED_FILE_EXTENSIONS w1
       = (Ok files, w1)
    /\ length outcomes = length files
    /\ attempts (log w') = attempts (log w) ++ files.
Proof.
  intros E.
  destruct (process_files_inv _ _ _ _ _ E)
    as (w1 & Hd & _ & Ha & [[[=] _]|(files & r3 & _ & Hg & E3 & Hr)]).
  destruct r3 as [os|e]; [|done]. injection Hr as ->.
  apply process_files_from_inv in E3 as (w2 & E3 & _ & Ha3).
  apply process_files_loop_attempts in E3 as [Hl Ha2].
  exists w1, files. split_and!; [done..|].
  rewrite Ha3, Ha2. cbn [logger snd log]. rewrite attempts_app, app_nil_r.
  by rewrite Ha.
Qed.


End BatchClaims.

(** ** The properties at concrete inputs *)

Lemma world1_proper : OS.proper (fs world1).
Proof.
  intros k n H%elem_of_list_to_map_2. unfold OS.filename.
  repeat (apply elem_of_cons in H as [[= -> ->]|H];
          [refine (bool_decide_unpack _ _); vm_compute; exact I|]).
  by apply elem_of_nil in H.
Qed.


Lemma docx_text_joins_paragraphs_witness :
  extract_text toy (u "/src/thesis.docx") world0
  = (Ok (Some (u "This is my master's thesis on AI.")),
     (record_read (u "/src/thesis.docx") world0).2).
Proof.
  apply (proj1 (docx_text_joins_paragraphs toy (u "/src/thesis.docx") world0
                  (u "DOCX:This is my master's thesis on AI.")
                  ltac:(vm_compute; reflexivity) ltac:(vm_compute; reflexivity))
           [u "This is my master's thesis on AI."]).
  vm_compute. reflexivity.
Defined.

Lemma pptx_text_joins_shapes_witness :
  extract_text toy (u "/src/slides.pptx") world1
  = (Ok (Some (u "Here are the slides" ++ [0x0A] ++ u "for my presentation.")),
     (record_read (u "/src/slides.pptx") world1).2).
Proof.
  apply (proj1 (pptx_text_joins_shapes toy (u "/src/slides.pptx") world1
                  (u "PPTX:Here are the slides" ++ [0x0A]
                   ++ u "for my presentation.")
                  ltac:(vm_compute; reflexivity)
                  ltac:(vm_compute; repeat constructor))
           [[Some (u "Here are the slides"); Some (u "for my presentation.")]]).
  vm_compute. reflexivity.
Defined.

Lemma extract_text_FileNotFoundError_iff_witness :
  extract_text toy (u "/src/missing.pdf") world0
  = (Raise (Exn FileNotFoundError
              (u "File not found: '" ++ u "/src/missing.pdf" ++ OS.QUOTE) None),
     world0).
Proof.
  apply (proj1 (extract_text_FileNotFoundError_iff toy (u "/src/missing.pdf")
                  world0)).
  vm_compute. reflexivity.
Defined.


Lemma create_target_subdir_success_witness :
  exists w',
    create_target_subdir (u "/out") (u "Reports") world0
    = (Ok (u "/out/Reports"), w')
    /\ OS.isdir (u "/out/Reports") w' = true /\ dirs_added world0 w'.
Proof.
  assert (E : create_target_subdir (u "/out") (u "Reports") world0
              = (Ok (u "/out/Reports"),
                 (create_target_subdir (u "/out") (u "Reports") world0).2)).
  { apply pair_eta. vm_compute. reflexivity. }
  eexists. split; [exact E|].
  destruct (create_target_subdir_success _ _ _ _ _ E) as (H1 & _ & H3).
  split; [exact H1|exact H3].
Defined.

Lemma move_file_replaces_existing_file_witness :
  exists w',
    move_file_to_directory (u "/src/report.pdf") (u "/out/Reports") world1
    = (Ok tt, w')
    /\ OS.stat w' (OS.join (u "/out/Reports") (OS.basename (u "/src/report.pdf")))
       = inr (File (u "%PDF:Weekly project report.")).
Proof.
  destruct (move_file_replaces_existing_file (u "/src/report.pdf")
              (u "/out/Reports") world1 (u "%PDF:Weekly project report.")
              (u "%PDF:Last year's report."))
    as (w' & H1 & H2 & _); [vm_compute; reflexivity..|].
  exists w'. split; [exact H1|exact H2].
Defined.

Lemma move_file_onto_directory_witness :
  exists w',
    move_file_to_directory (u "/src/sub/deep/quiz.PDF")
      (u "/out/Tests & Quizzes") world1 = (Ok tt, w')
    /\ OS.stat w'
         (OS.join (OS.join (u "/out/Tests & Quizzes")
                     (OS.basename (u "/src/sub/deep/quiz.PDF")))
            (OS.basename (u "/src/sub/deep/quiz.PDF")))
       = inr (File (u "%PDF:A short quiz.")).
Proof.
  apply (proj1 (move_file_onto_directory (u "/src/sub/deep/quiz.PDF")
                  (u "/out/Tests & Quizzes") world1 (u "%PDF:A short quiz.")
                  ltac:(vm_compute; reflexivity) ltac:(vm_compute; reflexivity)
                  ltac:(vm_compute; reflexivity))).
  vm_compute. reflexivity.
Defined.

Lemma legacy_doc_is_never_moved_witness :
  exists w',
    process_one_file toy default_categorizer (u "/out") (u "/src/old.doc") world0
    = (Ok EmptyText, w')
    /\ same_files world0 w' /\ reads w' = reads world0.
Proof.
  destruct (legacy_doc_is_never_moved toy default_categorizer (u "/out")
              (u "/src/old.doc") world0)
    as (w' & H1 & H2 & H3 & _); [vm_compute; reflexivity..|].
  exists w'. split; [exact H1|]. split; [exact H2|exact H3].
Defined.

Lemma unsupported_file_is_not_opened_witness :
  exists w',
    process_one_file toy default_categorizer (u "/out") (u "/src/archive.zip")
      world0 = (Ok Unsupported, w')
    /\ same_files world0 w' /\ reads w' = reads world0.
Proof.
  destruct (proj1 (unsupported_file_is_not_opened toy default_categorizer
                     (u "/out") (u "/src/archive.zip") world0))
    as (w' & H1 & H2 & H3 & _).
  { apply (proj1 (ext_in_false _ _)). vm_compute. reflexivity. }
  exists w'. split; [exact H1|]. split; [exact H2|exact H3].
Defined.

Lemma relocation_follows_categorization_witness :
  exists text,
    (extract_text toy (u "/src/thesis.docx") world0).1 = Ok (Some text)
    /\ categorize_text default_categorizer text PREDEFINED_CATEGORIES
       = Some (u "Theses & Dissertations").
Proof.
  assert (E : process_one_file toy default_categorizer (u "/out")
                (u "/src/thesis.docx") world0
              = (Ok (Moved (u "Theses & Dissertations")
                       (u "/out/Theses & Dissertations")),
                 (process_one_file toy default_categorizer (u "/out")
                    (u "/src/thesis.docx") world0).2)).
  { apply pair_eta. vm_compute. reflexivity. }
  destruct (relocation_follows_categorization toy _ _ _ _ _ _
              (u "Theses & Dissertations") E)
    as (_ & _ & text & H1 & _ & H3); [right; eexists; reflexivity|].
  exists text. split; [exact H1|exact H3].
Defined.

Lemma world1_source_files :
  get_source_files OS.map_order (u "/src") EXCLUDED_FILE_EXTENSIONS world1
  = (Ok [u "/src/.zip"; u "/src/report.pdf"; u "/src/thesis.docx";
         u "/src/slides.pptx"; u "/src/old.doc"; u "/src/sub/notes.txt";
         u "/src/sub/deep/quiz.PDF"],
     (get_source_files OS.map_order (u "/src") EXCLUDED_FILE_EXTENSIONS
        world1).2).
Proof. apply pair_eta. vm_compute. reflexivity. Qed.



Lemma get_source_files_once_witness :
  NoDup [u "/src/.zip"; u "/src/report.pdf"; u "/src/thesis.docx";
         u "/src/slides.pptx"; u "/src/old.doc"; u "/src/sub/notes.txt";
         u "/src/sub/deep/quiz.PDF"].
Proof.
  exact (proj1 (get_source_files_once OS.map_order _ _ _ _ _ world1_proper
                  world1_source_files)).
Defined.


Lemma process_files_aborts_witness :
  exists w',
    process_files toy OS.map_order (u "/nowhere") (u "/out/new") world1
    = (Ok None, w')
    /\ same_files world1 w'.
Proof.
  destruct (proj1 (process_files_aborts toy OS.map_order (u "/nowhere")
                     (u "/out/new") world1))
    as (w' & H1 & H2 & _); [vm_compute; reflexivity|].
  exists w'. split; [exact H1|exact H2].
Defined.

Lemma world1_run :
  process_files toy OS.map_order (u "/src") (u "/out") world1
  = (Ok (Some [Unsupported;
               Moved (u "Reports") (u "/out/Reports");
               Moved (u "Theses & Dissertations") (u "/out/Theses & Dissertations");
               Moved (u "Presentations") (u "/out/Presentations");
               EmptyText;
               Unsupported;
               Moved (u "Tests & Quizzes") (u "/out/Tests & Quizzes")]),
     (process_files toy OS.map_order (u "/src") (u "/out") world1).2).
Proof. apply pair_eta. vm_compute. reflexivity. Qed.

Lemma process_files_attempts_the_files_found_witness :
  exists files,
    length files = 7%nat
    /\ attempts (log (process_files toy OS.map_order (u "/src") (u "/out")
                        world1).2)
       = attempts (log world1) ++ files.
Proof.
  destruct (process_files_attempts_the_files_found toy OS.map_order _ _ _ _ _
              world1_run) as (w1 & files & _ & _ & H3 & H4).
  exists files. split; [|exact H4]. rewrite <- H3. reflexivity.
Defined.

